(** * AcadBling expense tracker: calculation, aggregation and storage core

    A shallow embedding of the non-GUI logic of [Acad-BlingFinal.py]:
    the CSV-backed expense store ([read_expenses], [write_expenses]),
    the utilities [date_to_month_key] and [safe_float], the SIP calculator
    ([SIPDialog.on_calculate]), the chart aggregation
    ([ChartsWindow.update_charts]) and the edit dialog
    ([EditExpenseDialog.on_save], [on_delete]).

    Python strings are sequences of Unicode code points, Python floats are
    IEEE-754 binary64 numbers, exceptions are an error monad.  The
    arithmetic is kept behind an interface with two instances: [binary64]
    (what the interpreter computes) and [exactQ] (the same formulas over
    the rationals, used for the algebraic identities). *)

From Stdlib Require Import ZArith NArith QArith Qround Qpower List Bool Lia String Ascii.
From Stdlib Require Import Floats.SpecFloat Sorting.Permutation Sorting.Sorted.
From Stdlib Require Import DecimalString DecimalN Field Qfield Lqa.
Import ListNotations.
Open Scope Z_scope.

(* ===================================================================== *)
(** * Exceptions *)
(* ===================================================================== *)

Inductive exn : Type :=
| ValueError
| OverflowError
| ZeroDivisionError
| CsvError.

Inductive result (A : Type) : Type :=
| Ok (a : A)
| Raise (e : exn).
Arguments Ok {A} a.
Arguments Raise {A} e.

Definition bind {A B} (r : result A) (k : A -> result B) : result B :=
  match r with
  | Ok a => k a
  | Raise e => Raise e
  end.

Notation "x <- r ;; k" := (bind r (fun x => k))
  (at level 61, r at next level, right associativity).

(** [try: r except Exception: h] *)
Definition try_except {A} (r : result A) (h : result A) : result A :=
  match r with
  | Ok a => Ok a
  | Raise _ => h
  end.

Definition of_option {A} (e : exn) (o : option A) : result A :=
  match o with
  | Some a => Ok a
  | None => Raise e
  end.

Fixpoint mapM {A B} (f : A -> result B) (l : list A) : result (list B) :=
  match l with
  | [] => Ok []
  | a :: t => b <- f a ;; bs <- mapM f t ;; Ok (b :: bs)
  end.

(* ===================================================================== *)
(** * Python strings *)
(* ===================================================================== *)

(** A character is a Unicode code point; a [str] is a list of them. *)
Definition char : Type := N.
Definition pystr : Type := list char.

(** ASCII literals. *)
Definition str (s : string) : pystr :=
  List.map N_of_ascii (list_ascii_of_string s).

Definition ch (a : ascii) : char := N_of_ascii a.

Definition str_eqb (a b : pystr) : bool :=
  if list_eq_dec N.eq_dec a b then true else false.

Definition in_range (c : char) (r : N * N) : bool :=
  (N.leb (fst r) c && N.leb c (snd r))%bool.

(** [str.isspace] for one character (Unicode 14, as in CPython 3.11). *)
Definition space_ranges : list (N * N) :=
  [(9, 13); (28, 32); (133, 133); (160, 160); (5760, 5760); (8192, 8202);
   (8232, 8233); (8239, 8239); (8287, 8287); (12288, 12288)]%N.

Definition isspace (c : char) : bool := existsb (in_range c) space_ranges.

(** First code points of the blocks of ten consecutive decimal digits
    (general category Nd). *)
Definition decimal_blocks : list N :=
  [48; 1632; 1776; 1984; 2406; 2534; 2662; 2790; 2918; 3046; 3174; 3302;
   3430; 3558; 3664; 3792; 3872; 4160; 4240; 6112; 6160; 6470; 6608; 6784;
   6800; 6992; 7088; 7232; 7248; 42528; 43216; 43264; 43472; 43504; 43600;
   44016; 65296; 66720; 68912; 69734; 69872; 69942; 70096; 70384; 70736;
   70864; 71248; 71360; 71472; 71904; 72016; 72784; 73040; 73120; 92768;
   92864; 93008; 120782; 120792; 120802; 120812; 120822; 123200; 123632;
   125264; 130032]%N.

(** [unicodedata.decimal]: the digit value of a decimal digit. *)
Definition decimal_value (c : char) : option N :=
  match find (fun b => in_range c (b, b + 9)%N) decimal_blocks with
  | Some b => Some (c - b)%N
  | None => None
  end.

Definition isdecimal (c : char) : bool :=
  match decimal_value c with Some _ => true | None => false end.

(** Characters with Numeric_Type=Digit that are not decimal digits
    (superscripts, circled digits, ...). *)
Definition other_digit_ranges : list (N * N) :=
  [(178, 179); (185, 185); (4969, 4977); (6618, 6618); (8304, 8304);
   (8308, 8313); (8320, 8329); (9312, 9320); (9332, 9340); (9352, 9360);
   (9450, 9450); (9461, 9469); (9471, 9471); (10102, 10110); (10112, 10120);
   (10122, 10130); (68160, 68163); (69216, 69224); (69714, 69722);
   (127232, 127242)]%N.

(** [str.isdigit] for one character. *)
Definition isdigit (c : char) : bool :=
  (isdecimal c || existsb (in_range c) other_digit_ranges)%bool.

Definition is_ascii_digit (c : char) : bool := in_range c (48, 57)%N.

Fixpoint dropwhile {A} (p : A -> bool) (l : list A) : list A :=
  match l with
  | [] => []
  | a :: t => if p a then dropwhile p t else l
  end.

Fixpoint takewhile {A} (p : A -> bool) (l : list A) : list A :=
  match l with
  | [] => []
  | a :: t => if p a then a :: takewhile p t else []
  end.

Definition lstrip_by (p : char -> bool) (s : pystr) : pystr := dropwhile p s.
Definition rstrip_by (p : char -> bool) (s : pystr) : pystr :=
  rev (dropwhile p (rev s)).

(** [str.strip()] *)
Definition strip (s : pystr) : pystr := rstrip_by isspace (lstrip_by isspace s).

(** [s.split(sep)] for a one-character separator. *)
Fixpoint split_on (sep : char) (s : pystr) : list pystr :=
  match s with
  | [] => [[]]
  | c :: t =>
      if N.eqb c sep then [] :: split_on sep t
      else match split_on sep t with
           | [] => [[c]]
           | w :: ws => (c :: w) :: ws
           end
  end.

(** Value of a string of ASCII digits, most significant first. *)
Definition digits_value (ds : list char) : N :=
  fold_left (fun acc d => (10 * acc + (d - 48))%N) ds 0%N.

Fixpoint uint_chars (u : Decimal.uint) : pystr :=
  match u with
  | Decimal.Nil => []
  | Decimal.D0 u => 48%N :: uint_chars u
  | Decimal.D1 u => 49%N :: uint_chars u
  | Decimal.D2 u => 50%N :: uint_chars u
  | Decimal.D3 u => 51%N :: uint_chars u
  | Decimal.D4 u => 52%N :: uint_chars u
  | Decimal.D5 u => 53%N :: uint_chars u
  | Decimal.D6 u => 54%N :: uint_chars u
  | Decimal.D7 u => 55%N :: uint_chars u
  | Decimal.D8 u => 56%N :: uint_chars u
  | Decimal.D9 u => 57%N :: uint_chars u
  end.

(** [str(n)] for a natural number. *)
Definition N_chars (n : N) : pystr := uint_chars (N.to_uint n).

(** [format(n, "0<w>d")]: sign-aware zero padding to width [w]. *)
Definition format_0d (w : nat) (n : Z) : pystr :=
  let ds := N_chars (Z.abs_N n) in
  if Z.ltb n 0
  then ch "-" :: (repeat 48%N (w - 1 - List.length ds)%nat ++ ds)%list
  else (repeat 48%N (w - List.length ds)%nat ++ ds)%list.

(* ===================================================================== *)
(** * Numbers *)
(* ===================================================================== *)

(** What [float(str)] recognises, before any rounding. *)
Inductive literal : Type :=
| LNum (neg : bool) (coeff : N) (exp10 : Z)   (* (-1)^neg * coeff * 10^exp10 *)
| LInf (neg : bool)
| LNan.

(** The arithmetic the program uses on its amounts.  Operations that can
    raise in Python return a [result]. *)
Class Arith (F : Type) : Type := {
  of_dec : bool -> N -> Z -> F;      (* value of a decimal literal *)
  finf : bool -> option F;           (* float("inf"), float("-inf") *)
  fnan : option F;                   (* float("nan") *)
  fadd : F -> F -> F;
  fsub : F -> F -> F;
  fmul : F -> F -> F;
  fdiv : F -> F -> result F;         (* ZeroDivisionError *)
  fpow : F -> Z -> result F;         (* float ** int *)
  of_int : Z -> result F;            (* int operand converted to float *)
  to_int : F -> result Z;            (* int(x): truncation towards zero *)
  ffloor : F -> result Z;            (* math.floor(x) *)
  feqb : F -> F -> bool;
  fltb : F -> F -> bool;
  fleb : F -> F -> bool
}.

(** The float written [n] or [n.0] in the source, for a small natural [n]. *)
Definition flit {F} `{Arith F} (n : N) : F := of_dec false n 0.

(** ** Parsing numbers from text *)

(** [Py_ISSPACE] of the C runtime. *)
Definition c_isspace (c : char) : bool :=
  (in_range c (9, 13)%N || N.eqb c 32)%bool.

(** [_PyUnicode_TransformDecimalAndSpaceToASCII]: decimal digits of any
    script become ASCII digits, Unicode whitespace becomes a space, and the
    text is cut, with a [?], at the first other non-ASCII character. *)
Fixpoint to_ascii (s : pystr) : pystr :=
  match s with
  | [] => []
  | c :: t =>
      if N.ltb c 127 then c :: to_ascii t
      else if isspace c then 32%N :: to_ascii t
      else match decimal_value c with
           | Some d => (48 + d)%N :: to_ascii t
           | None => [ch "?"]
           end
  end.

(** [_Py_string_to_number_with_underscores]: an underscore may only stand
    between two digits; [prev] is the previous character. *)
Fixpoint drop_underscores (prev : char) (s : pystr) : option pystr :=
  match s with
  | [] => if N.eqb prev (ch "_") then None else Some []
  | c :: t =>
      if N.eqb c (ch "_")
      then (if is_ascii_digit prev then drop_underscores c t else None)
      else if (N.eqb prev (ch "_") && negb (is_ascii_digit c))%bool then None
           else option_map (cons c) (drop_underscores c t)
  end.

Definition take_sign (s : pystr) : bool * pystr :=
  match s with
  | c :: t =>
      if N.eqb c (ch "-") then (true, t)
      else if N.eqb c (ch "+") then (false, t)
      else (false, s)
  | [] => (false, [])
  end.

Definition nonempty {A} (l : list A) : bool :=
  match l with [] => false | _ :: _ => true end.

Definition all_digits (s : pystr) : bool :=
  (nonempty s && forallb is_ascii_digit s)%bool.

Definition signed (neg : bool) (n : N) : Z :=
  if neg then - Z.of_N n else Z.of_N n.

(** Unsigned decimal number with optional fraction and exponent:
    [digits [. digits]] or [. digits], then [(e|E) [sign] digits]. *)
Definition parse_number (s : pystr) : option (N * Z) :=
  let ip := takewhile is_ascii_digit s in
  let r1 := dropwhile is_ascii_digit s in
  let '(fp, r2) :=
    match r1 with
    | c :: t =>
        if N.eqb c (ch ".")
        then (takewhile is_ascii_digit t, dropwhile is_ascii_digit t)
        else ([], r1)
    | [] => ([], [])
    end in
  if (nonempty ip || nonempty fp)%bool then
    let coeff := digits_value (ip ++ fp) in
    let scale := Z.of_nat (List.length fp) in
    match r2 with
    | [] => Some (coeff, - scale)
    | c :: t =>
        if (N.eqb c (ch "e") || N.eqb c (ch "E"))%bool then
          let '(eneg, ds) := take_sign t in
          if all_digits ds
          then Some (coeff, signed eneg (digits_value ds) - scale)
          else None
        else None
    end
  else None.

Definition lower (c : char) : char :=
  if in_range c (65, 90)%N then (c + 32)%N else c.

(** [_Py_parse_inf_or_nan], sign already removed. *)
Definition parse_special (neg : bool) (s : pystr) : option literal :=
  let l := List.map lower s in
  if (str_eqb l (str "inf") || str_eqb l (str "infinity"))%bool
  then Some (LInf neg)
  else if str_eqb l (str "nan") then Some LNan
  else None.

(** The literal that [float(s)] reads, [None] when it raises ValueError. *)
Definition float_literal (s : pystr) : option literal :=
  let a := rstrip_by c_isspace (lstrip_by c_isspace (to_ascii s)) in
  match drop_underscores 0%N a with
  | None => None
  | Some b =>
      let '(neg, body) := take_sign b in
      match parse_number body with
      | Some (c, e) => Some (LNum neg c e)
      | None => parse_special neg body
      end
  end.

Definition literal_value {F} `{Arith F} (l : literal) : result F :=
  match l with
  | LNum neg c e => Ok (of_dec neg c e)
  | LInf neg => of_option ValueError (finf neg)
  | LNan => of_option ValueError fnan
  end.

(** [float(s)] *)
Definition py_float {F} `{Arith F} (s : pystr) : result F :=
  match float_literal s with
  | Some l => literal_value l
  | None => Raise ValueError
  end.

(** [int(s)], base ten. *)
Definition py_int (s : pystr) : result Z :=
  let '(neg, a) := take_sign (lstrip_by c_isspace (to_ascii s)) in
  match drop_underscores 0%N (rstrip_by c_isspace a) with
  | Some ds => if all_digits ds then Ok (signed neg (digits_value ds))
               else Raise ValueError
  | None => Raise ValueError
  end.

(** ** IEEE-754 binary64 *)

Module B64.

Definition prec : Z := 53.
Definition emax : Z := 1024.

(** Correctly rounded (to nearest, ties to even) quotient [n * 2^e / d]. *)
Definition of_ratio (neg : bool) (n : positive) (e : Z) (d : positive) : spec_float :=
  let '(q, e', l) := SFdiv_core_binary prec emax (Zpos n) e (Zpos d) 0 in
  binary_round_aux prec emax neg q e' l.

Definition of_dec (neg : bool) (c : N) (e : Z) : spec_float :=
  match c with
  | N0 => S754_zero neg
  | Npos p =>
      if Z.leb 0 e
      then of_ratio neg (p * Z.to_pos (10 ^ e)) 0 1
      else of_ratio neg p 0 (Z.to_pos (10 ^ (- e)))
  end.

Definition is_inf (x : spec_float) : bool :=
  match x with S754_infinity _ => true | _ => false end.

Definition is_zero (x : spec_float) : bool :=
  match x with S754_zero _ => true | _ => false end.

Definition no_overflow (x : spec_float) : result spec_float :=
  if is_inf x then Raise OverflowError else Ok x.

Definition div (x y : spec_float) : result spec_float :=
  if is_zero y then Raise ZeroDivisionError else Ok (SFdiv prec emax x y).

Definition one : spec_float := of_dec false 1 0.

(** [float.__pow__] with an integer exponent; the C library's [pow] is
    taken to be correctly rounded. *)
Definition pow (x : spec_float) (n : Z) : result spec_float :=
  if Z.eqb n 0 then Ok one else
  match x with
  | S754_nan => Ok S754_nan
  | S754_infinity s =>
      if Z.ltb 0 n then Ok (S754_infinity (s && Z.odd n))
      else Ok (S754_zero (s && Z.odd n))
  | S754_zero s =>
      if Z.ltb n 0 then Raise ZeroDivisionError
      else Ok (S754_zero (s && Z.odd n))
  | S754_finite s m e =>
      let k := Z.to_pos (Z.abs n) in
      let sg := (s && Z.odd n)%bool in
      if Z.ltb 0 n
      then no_overflow (binary_round prec emax sg (Pos.pow m k) (e * n))
      else no_overflow (of_ratio sg 1 (e * n) (Pos.pow m k))
  end.

Definition of_int (n : Z) : result spec_float :=
  no_overflow (binary_normalize prec emax n 0 false).

(** Integer part of the magnitude [m * 2^e]. *)
Definition magnitude (m : positive) (e : Z) : Z :=
  if Z.leb 0 e then Zpos m * 2 ^ e else Zpos m / 2 ^ (- e).

Definition to_int (x : spec_float) : result Z :=
  match x with
  | S754_nan => Raise ValueError
  | S754_infinity _ => Raise OverflowError
  | S754_zero _ => Ok 0
  | S754_finite s m e => Ok (if s then - magnitude m e else magnitude m e)
  end.

Definition floor (x : spec_float) : result Z :=
  match x with
  | S754_nan => Raise ValueError
  | S754_infinity _ => Raise OverflowError
  | S754_zero _ => Ok 0
  | S754_finite false m e => Ok (magnitude m e)
  | S754_finite true m e =>
      Ok (if Z.leb 0 e then - (Zpos m * 2 ^ e)
          else - ((Zpos m + 2 ^ (- e) - 1) / 2 ^ (- e)))
  end.

End B64.

#[export] Instance binary64 : Arith spec_float := {
  of_dec := B64.of_dec;
  finf := fun neg => Some (S754_infinity neg);
  fnan := Some S754_nan;
  fadd := SFadd B64.prec B64.emax;
  fsub := SFsub B64.prec B64.emax;
  fmul := SFmul B64.prec B64.emax;
  fdiv := B64.div;
  fpow := B64.pow;
  of_int := B64.of_int;
  to_int := B64.to_int;
  ffloor := B64.floor;
  feqb := SFeqb;
  fltb := SFltb;
  fleb := SFleb
}.

(** ** Exact rationals

    The same operations over the rationals, without rounding, overflow,
    infinities or NaN.  This is not the arithmetic of the program: it
    serves only to say what the formulas of the program amount to "in
    exact arithmetic". *)

Module Exact.

Definition of_dec (neg : bool) (c : N) (e : Z) : Q :=
  inject_Z (signed neg c) * Qpower (10 # 1) e.

Definition div (x y : Q) : result Q :=
  if Qeq_bool y 0 then Raise ZeroDivisionError else Ok (x / y)%Q.

Definition pow (x : Q) (n : Z) : result Q :=
  if (Qeq_bool x 0 && Z.ltb n 0)%bool then Raise ZeroDivisionError
  else Ok (Qpower x n).

Definition to_int (x : Q) : result Z := Ok (Z.quot (Qnum x) (Zpos (Qden x))).

End Exact.

(** Exact arithmetic has neither infinities nor NaN. *)
#[export] Instance exactQ : Arith Q := {
  of_dec := Exact.of_dec;
  finf := fun _ => None;
  fnan := None;
  fadd := Qplus;
  fsub := Qminus;
  fmul := Qmult;
  fdiv := Exact.div;
  fpow := Exact.pow;
  of_int := fun n => Ok (inject_Z n);
  to_int := Exact.to_int;
  ffloor := fun x => Ok (Qfloor x);
  feqb := Qeq_bool;
  fltb := fun x y => negb (Qle_bool y x);
  fleb := Qle_bool
}.

(* ===================================================================== *)
(** * The csv module, excel dialect *)
(* ===================================================================== *)

Module Csv.

Definition comma : char := 44%N.
Definition quote : char := 34%N.
Definition CR : char := 13%N.
Definition LF : char := 10%N.

(** ** [csv.writer] with QUOTE_MINIMAL *)

Definition special (c : char) : bool :=
  (N.eqb c comma || N.eqb c quote || N.eqb c CR || N.eqb c LF)%bool.

Definition needs_quotes (f : pystr) : bool := existsb special f.

Fixpoint double_quotes (f : pystr) : pystr :=
  match f with
  | [] => []
  | c :: t => if N.eqb c quote then quote :: quote :: double_quotes t
              else c :: double_quotes t
  end.

Definition write_field (f : pystr) : pystr :=
  if needs_quotes f then quote :: double_quotes f ++ [quote] else f.

Fixpoint join_fields (fs : list pystr) : pystr :=
  match fs with
  | [] => []
  | [f] => write_field f
  | f :: t => write_field f ++ comma :: join_fields t
  end.

(** [writer.writerow(fields)]: a record made of one empty field is
    written as two quotes. *)
Definition writerow (fs : list pystr) : pystr :=
  let rec := join_fields fs in
  (if (nonempty fs && negb (nonempty rec))%bool then [quote; quote] else rec)
    ++ [CR; LF].

(** ** [csv.reader] *)

Inductive pstate : Type :=
| START_RECORD | START_FIELD | IN_FIELD | IN_QUOTED_FIELD
| QUOTE_IN_QUOTED_FIELD | EAT_CRNL.

Definition pstate_eqb (a b : pstate) : bool :=
  match a, b with
  | START_RECORD, START_RECORD | START_FIELD, START_FIELD
  | IN_FIELD, IN_FIELD | IN_QUOTED_FIELD, IN_QUOTED_FIELD
  | QUOTE_IN_QUOTED_FIELD, QUOTE_IN_QUOTED_FIELD | EAT_CRNL, EAT_CRNL => true
  | _, _ => false
  end.

Record reader : Type := {
  state : pstate;
  field : pystr;          (* characters of the field being read *)
  fields : list pystr     (* fields of the record being read *)
}.

(** A character of the line, or the end-of-line mark the reader feeds
    itself after each line. *)
Inductive sym : Type := Chr (c : char) | EOL.

Definition field_limit : N := 131072%N.

Definition parse_reset : reader :=
  {| state := START_RECORD; field := []; fields := [] |}.

Definition set_state (s : pstate) (r : reader) : reader :=
  {| state := s; field := field r; fields := fields r |}.

Definition parse_add_char (r : reader) (c : char) : result reader :=
  if N.leb field_limit (N.of_nat (List.length (field r))) then Raise CsvError
  else Ok {| state := state r; field := field r ++ [c]; fields := fields r |}.

Definition parse_save_field (r : reader) : reader :=
  {| state := state r; field := []; fields := fields r ++ [field r] |}.

Definition is_newline (s : sym) : bool :=
  match s with
  | Chr c => (N.eqb c LF || N.eqb c CR)%bool
  | EOL => false
  end.

Definition after_line_end (s : sym) : pstate :=
  match s with EOL => START_RECORD | Chr _ => EAT_CRNL end.

Definition is_chr (k : char) (s : sym) : bool :=
  match s with Chr c => N.eqb c k | EOL => false end.

Definition start_field (r : reader) (s : sym) : result reader :=
  match s with
  | EOL => Ok (set_state START_RECORD (parse_save_field r))
  | Chr c =>
      if is_newline s then Ok (set_state EAT_CRNL (parse_save_field r))
      else if N.eqb c quote then Ok (set_state IN_QUOTED_FIELD r)
      else if N.eqb c comma then Ok (set_state START_FIELD (parse_save_field r))
      else r' <- parse_add_char r c ;; Ok (set_state IN_FIELD r')
  end.

Definition parse_process_char (r : reader) (s : sym) : result reader :=
  match state r with
  | START_RECORD =>
      match s with
      | EOL => Ok r
      | Chr _ => if is_newline s then Ok (set_state EAT_CRNL r)
                 else start_field r s
      end
  | START_FIELD => start_field r s
  | IN_FIELD =>
      match s with
      | EOL => Ok (set_state START_RECORD (parse_save_field r))
      | Chr c =>
          if is_newline s then Ok (set_state EAT_CRNL (parse_save_field r))
          else if N.eqb c comma
               then Ok (set_state START_FIELD (parse_save_field r))
               else parse_add_char r c
      end
  | IN_QUOTED_FIELD =>
      match s with
      | EOL => Ok r
      | Chr c => if N.eqb c quote then Ok (set_state QUOTE_IN_QUOTED_FIELD r)
                 else parse_add_char r c
      end
  | QUOTE_IN_QUOTED_FIELD =>
      match s with
      | EOL => Ok (set_state START_RECORD (parse_save_field r))
      | Chr c =>
          if N.eqb c quote
          then r' <- parse_add_char r c ;; Ok (set_state IN_QUOTED_FIELD r')
          else if N.eqb c comma
               then Ok (set_state START_FIELD (parse_save_field r))
               else if is_newline s
                    then Ok (set_state EAT_CRNL (parse_save_field r))
                    else r' <- parse_add_char r c ;; Ok (set_state IN_FIELD r')
      end
  | EAT_CRNL =>
      match s with
      | EOL => Ok (set_state START_RECORD r)
      | Chr _ => if is_newline s then Ok r else Raise CsvError
      end
  end.

Fixpoint process_chars (r : reader) (l : pystr) : result reader :=
  match l with
  | [] => Ok r
  | c :: t => r' <- parse_process_char r (Chr c) ;; process_chars r' t
  end.

(** One line of input followed by its end-of-line mark. *)
Definition process_line (r : reader) (l : pystr) : result reader :=
  r' <- process_chars r l ;; parse_process_char r' EOL.

(** Iterating the reader to exhaustion over the lines of the file: a
    record is complete when a line ends in state START_RECORD; at the end
    of the input an unfinished quoted field is closed. *)
Fixpoint read_records (r : reader) (lines : list pystr) : result (list (list pystr)) :=
  match lines with
  | [] =>
      if (nonempty (field r) || pstate_eqb (state r) IN_QUOTED_FIELD)%bool
      then Ok [fields (parse_save_field r)]
      else Ok []
  | l :: ls =>
      r' <- process_line r l ;;
      if pstate_eqb (state r') START_RECORD
      then rest <- read_records parse_reset ls ;; Ok (fields r' :: rest)
      else read_records r' ls
  end.

(** Lines of a text file opened with [newline=""]: a line ends after
    LF, CR LF or a lone CR, and keeps its ending. *)
Fixpoint readlines_from (cur : pystr) (s : pystr) : list pystr :=
  match s with
  | [] => match cur with [] => [] | _ => [cur] end
  | c :: t =>
      if N.eqb c LF then (cur ++ [LF]) :: readlines_from [] t
      else if N.eqb c CR then
        match t with
        | c' :: t' =>
            if N.eqb c' LF then (cur ++ [CR; LF]) :: readlines_from [] t'
            else (cur ++ [CR]) :: readlines_from [] t
        | [] => [cur ++ [CR]]
        end
      else readlines_from (cur ++ [c]) t
  end.

Definition readlines (s : pystr) : list pystr := readlines_from [] s.

(** [list(csv.reader(f))] *)
Definition reader_all (text : pystr) : result (list (list pystr)) :=
  read_records parse_reset (readlines text).

(** ** [csv.DictReader] *)

(** [d.get(key)] for the dict [DictReader] builds from a record: the
    last column named [key] wins, and a column beyond the end of the
    record holds [None]. *)
Definition dict_get (key : pystr) (fieldnames rec : list pystr) : option pystr :=
  if existsb (str_eqb key) (skipn (List.length rec) fieldnames) then None
  else match find (fun kv => str_eqb key (fst kv)) (rev (combine fieldnames rec)) with
       | Some kv => Some (snd kv)
       | None => None
       end.

End Csv.

(* ===================================================================== *)
(** * CSV helpers of the program *)
(* ===================================================================== *)

Record row : Type := {
  Date : pystr;
  Category : pystr;
  Amount : pystr;
  Note : pystr
}.

(** The file [expenses.csv]: absent, or its text. *)
Definition store : Type := option pystr.

Definition HEADERS : list pystr :=
  [str "Date"; str "Category"; str "Amount"; str "Note"].

Definition ensure_csv_exists (headers : list pystr) (st : store) : store :=
  match st with
  | None => Some (Csv.writerow headers)
  | Some _ => st
  end.

Definition file_text (st : store) : pystr :=
  match st with Some t => t | None => [] end.

(** [(v or default).strip()] for the value [v] of a cell. *)
Definition cell_or (default : pystr) (v : option pystr) : pystr :=
  strip (match v with
         | Some s => if nonempty s then s else default
         | None => default
         end).

Definition row_of_record (fieldnames rec : list pystr) : row :=
  {| Date := cell_or [] (Csv.dict_get (str "Date") fieldnames rec);
     Category := cell_or [] (Csv.dict_get (str "Category") fieldnames rec);
     Amount := cell_or (str "0") (Csv.dict_get (str "Amount") fieldnames rec);
     Note := cell_or [] (Csv.dict_get (str "Note") fieldnames rec) |}.

(** The rows [DictReader] yields: the first record names the columns and
    empty records are skipped. *)
Definition rows_of_records (recs : list (list pystr)) : list row :=
  match recs with
  | [] => []
  | fieldnames :: data =>
      List.map (row_of_record fieldnames) (filter nonempty data)
  end.

(** [read_expenses()]: the file after the call and the rows read. *)
Definition read_expenses (st : store) : store * result (list row) :=
  let st' := ensure_csv_exists HEADERS st in
  (st', recs <- Csv.reader_all (file_text st') ;; Ok (rows_of_records recs)).

Definition record_of_row (r : row) : list pystr :=
  [Date r; Category r; Amount r; Note r].

(** [write_expenses(expenses)]: the file after the call. *)
Definition write_expenses (expenses : list row) (st : store) : store :=
  Some (Csv.writerow HEADERS
        ++ List.concat (List.map (fun r => Csv.writerow (record_of_row r)) expenses)).

(* ===================================================================== *)
(** * Utilities *)
(* ===================================================================== *)

(** ** [datetime.strptime(s, "%Y-%m-%d")]

    The format compiles to the regular expression
    [(\d\d\d\d)-(1[0-2]|0[1-9]|[1-9])-(3[0-1]|[1-2]\d|0[1-9]|[1-9]| [1-9])],
    which must match the whole text and describe a date of the calendar. *)

Definition obind {A B} (o : option A) (k : A -> option B) : option B :=
  match o with Some a => k a | None => None end.

Notation "x <-? o ;; k" := (obind o (fun x => k))
  (at level 61, o at next level, right associativity).

Definition digit_of (c : char) : Z :=
  match decimal_value c with Some d => Z.of_N d | None => 0 end.

(** One character satisfying [p]. *)
Definition re1 (p : char -> bool) (s : pystr) : option (pystr * pystr) :=
  match s with
  | a :: t => if p a then Some ([a], t) else None
  | [] => None
  end.

(** Two characters satisfying [p] and [q]. *)
Definition re2 (p q : char -> bool) (s : pystr) : option (pystr * pystr) :=
  match s with
  | a :: b :: t => if (p a && q b)%bool then Some ([a; b], t) else None
  | _ => None
  end.

(** Ordered alternation. *)
Fixpoint re_alt (alts : list (pystr -> option (pystr * pystr))) (s : pystr)
  : option (pystr * pystr) :=
  match alts with
  | [] => None
  | f :: fs => match f s with Some r => Some r | None => re_alt fs s end
  end.

Definition is_char (k : char) (c : char) : bool := N.eqb c k.
Definition between (lo hi : ascii) (c : char) : bool := in_range c (ch lo, ch hi).

Definition re_Y (s : pystr) : option (pystr * pystr) :=
  match s with
  | a :: b :: c :: d :: t =>
      if forallb isdecimal [a; b; c; d] then Some ([a; b; c; d], t) else None
  | _ => None
  end.

Definition re_m : pystr -> option (pystr * pystr) :=
  re_alt [re2 (is_char (ch "1")) (between "0" "2");
          re2 (is_char (ch "0")) (between "1" "9");
          re1 (between "1" "9")].

Definition re_d : pystr -> option (pystr * pystr) :=
  re_alt [re2 (is_char (ch "3")) (between "0" "1");
          re2 (between "1" "2") isdecimal;
          re2 (is_char (ch "0")) (between "1" "9");
          re1 (between "1" "9");
          re2 (is_char (ch " ")) (between "1" "9")].

Definition re_lit (k : char) (s : pystr) : option pystr :=
  match s with
  | a :: t => if N.eqb a k then Some t else None
  | [] => None
  end.

(** Value of a matched group: [int(text)], the text being decimal digits
    with, for the day, a possible leading space. *)
Definition group_int (g : pystr) : Z :=
  fold_left (fun acc c => 10 * acc + digit_of c) (filter isdecimal g) 0.

Definition is_leap (y : Z) : bool :=
  ((y mod 4 =? 0) && (negb (y mod 100 =? 0) || (y mod 400 =? 0)))%bool.

Definition days_in_month (y m : Z) : Z :=
  if (m =? 2) then (if is_leap y then 29 else 28)
  else if ((m =? 4) || (m =? 6) || (m =? 9) || (m =? 11))%bool then 30
  else 31.

(** What the [date] constructor accepts. *)
Definition valid_date (y m d : Z) : bool :=
  ((1 <=? y) && (y <=? 9999) && (1 <=? m) && (m <=? 12)
   && (1 <=? d) && (d <=? days_in_month y m))%bool.

Definition match_ymd (s : pystr) : option (Z * Z * Z) :=
  y <-? re_Y s ;;
  r1 <-? re_lit (ch "-") (snd y) ;;
  m <-? re_m r1 ;;
  r2 <-? re_lit (ch "-") (snd m) ;;
  d <-? re_d r2 ;;
  if nonempty (snd d) then None      (* unconverted data remains *)
  else Some (group_int (fst y), group_int (fst m), group_int (fst d)).

(** Year and month of [datetime.strptime(s, "%Y-%m-%d")]. *)
Definition strptime_ymd (s : pystr) : result (Z * Z) :=
  match match_ymd s with
  | Some (y, m, d) => if valid_date y m d then Ok (y, m) else Raise ValueError
  | None => Raise ValueError
  end.

(** ** A reference [datetime.fromisoformat]

    [datetime.fromisoformat] belongs to the interpreter and the language
    it accepts grew from version to version, so the program below is
    parametric in it.  For concrete evaluations this instance is used: it
    accepts [YYYY-MM-DD], optionally followed by one separator character
    and [HH:MM:SS], which every version accepts, and rejects the rest. *)

Definition two_digits (s : pystr) : option (Z * pystr) :=
  match s with
  | a :: b :: t =>
      if (is_ascii_digit a && is_ascii_digit b)%bool
      then Some (Z.of_N (digits_value [a; b]), t) else None
  | _ => None
  end.

Definition iso_time (s : pystr) : option unit :=
  h <-? two_digits s ;;
  r1 <-? re_lit (ch ":") (snd h) ;;
  m <-? two_digits r1 ;;
  r2 <-? re_lit (ch ":") (snd m) ;;
  sec <-? two_digits r2 ;;
  if (negb (nonempty (snd sec))
      && (fst h <? 24) && (fst m <? 60) && (fst sec <? 60))%bool
  then Some tt else None.

Definition iso_date (s : pystr) : option (Z * Z * Z * pystr) :=
  match s with
  | a :: b :: c :: d :: t =>
      if forallb is_ascii_digit [a; b; c; d] then
        r1 <-? re_lit (ch "-") t ;;
        m <-? two_digits r1 ;;
        r2 <-? re_lit (ch "-") (snd m) ;;
        dd <-? two_digits r2 ;;
        Some (Z.of_N (digits_value [a; b; c; d]), fst m, fst dd, snd dd)
      else None
  | _ => None
  end.

Definition fromisoformat_ref (s : pystr) : result (Z * Z) :=
  match iso_date s with
  | Some (y, m, d, rest) =>
      if valid_date y m d then
        match rest with
        | [] => Ok (y, m)
        | _ :: t => match iso_time t with
                    | Some _ => Ok (y, m)
                    | None => Raise ValueError
                    end
        end
      else Raise ValueError
  | None => Raise ValueError
  end.

Section Program.

(** The arithmetic of amounts and the interpreter's ISO-8601 parser,
    which yields the year and the month of the datetime it builds. *)
Context {F : Type} `{Arith F}.
Variable fromisoformat : pystr -> result (Z * Z).

(** [f"{year:04d}-{month:02d}"] *)
Definition month_key (year month : Z) : pystr :=
  format_0d 4 year ++ ch "-" :: format_0d 2 month.

(** [date_to_month_key(date_str)]; the key, or [None]. *)
Definition date_to_month_key (date_str : pystr) : result (option pystr) :=
  match strptime_ymd date_str with
  | Ok d => Ok (Some (month_key (fst d) (snd d)))
  | Raise _ =>
      match fromisoformat date_str with
      | Ok d => Ok (Some (month_key (fst d) (snd d)))
      | Raise _ =>
          try_except
            (parts <- mapM py_int
                        (filter (fun p => nonempty (strip p))
                                (split_on (ch "-") date_str)) ;;
             match parts with
             | year :: month :: _ => Ok (Some (month_key year month))
             | _ => Ok None
             end)
            (Ok None)
      end
  end.

(** The characters [safe_float] keeps. *)
Definition amount_char (c : char) : bool :=
  (isdigit c || N.eqb c (ch ".") || N.eqb c (ch "-"))%bool.

(** [safe_float(x)] *)
Definition safe_float (x : pystr) : result F :=
  try_except
    (let s := strip x in
     let cleaned := filter amount_char s in
     if negb (nonempty cleaned) then Ok (flit 0)
     else py_float cleaned)
    (Ok (flit 0)).

(* ===================================================================== *)
(** * SIP calculator *)
(* ===================================================================== *)

(** What [SIPDialog.on_calculate] leaves on the screen. *)
Inductive sip_outcome : Type :=
| InvalidInput                     (* the "Invalid input" message box *)
| Displayed (periods : Z) (monthly_rate fv : F) (req_monthly : option F)
| Uncaught (e : exn).              (* the handler dies, nothing is shown *)

Definition sip_validate (P_txt r_txt y_txt : pystr) : result (F * F * F) :=
  P <- py_float P_txt ;;
  r <- py_float r_txt ;;
  annual <- fdiv r (flit 100) ;;
  years <- py_float y_txt ;;
  if (fltb P (flit 0) || fleb years (flit 0))%bool then Raise ValueError
  else Ok (P, annual, years).

Definition future_value (P monthly_rate : F) (periods : Z) : result F :=
  if feqb monthly_rate (flit 0) then
    n <- of_int periods ;; Ok (fmul P n)
  else
    pw <- fpow (fadd (flit 1) monthly_rate) periods ;;
    q <- fdiv (fsub pw (flit 1)) monthly_rate ;;
    Ok (fmul (fmul P q) (fadd (flit 1) monthly_rate)).

Definition required_monthly (goal monthly_rate : F) (periods : Z) : result F :=
  if feqb monthly_rate (flit 0) then
    n <- of_int periods ;; fdiv goal n
  else
    pw <- fpow (fadd (flit 1) monthly_rate) periods ;;
    q <- fdiv (fsub pw (flit 1)) monthly_rate ;;
    fdiv goal (fmul q (fadd (flit 1) monthly_rate)).

(** [on_calculate], from the text of the four controls. *)
Definition on_calculate (monthly_txt annual_txt years_txt goal_ctl : pystr)
  : sip_outcome :=
  let P_txt := strip monthly_txt in
  let r_txt := strip annual_txt in
  let y_txt := strip years_txt in
  let goal_txt := strip goal_ctl in
  match sip_validate P_txt r_txt y_txt with
  | Raise _ => InvalidInput
  | Ok (P, annual, years) =>
      match (periods <- to_int (fmul years (flit 12)) ;;
             monthly_rate <- fdiv annual (flit 12) ;;
             fv <- future_value P monthly_rate periods ;;
             Ok (periods, monthly_rate, fv)) with
      | Raise e => Uncaught e
      | Ok (periods, monthly_rate, fv) =>
          Displayed periods monthly_rate fv
            (if nonempty goal_txt then
               match (goal <- py_float goal_txt ;;
                      required_monthly goal monthly_rate periods) with
               | Ok req => Some req
               | Raise _ => None
               end
             else None)
      end
  end.

(* ===================================================================== *)
(** * Chart aggregation *)
(* ===================================================================== *)

(** A [defaultdict(float)], in insertion order. *)
Definition totals : Type := list (pystr * F).

(** [d[k] += amt] *)
Fixpoint dict_add (k : pystr) (amt : F) (d : totals) : totals :=
  match d with
  | [] => [(k, fadd (flit 0) amt)]
  | (k', v) :: t =>
      if str_eqb k k' then (k', fadd v amt) :: t
      else (k', v) :: dict_add k amt t
  end.

(** [d[m][c] += amt] on a [defaultdict] of [defaultdict(float)]. *)
Fixpoint dict_add2 (m c : pystr) (amt : F) (d : list (pystr * totals))
  : list (pystr * totals) :=
  match d with
  | [] => [(m, dict_add c amt [])]
  | (m', inner) :: t =>
      if str_eqb m m' then (m', dict_add c amt inner) :: t
      else (m', inner) :: dict_add2 m c amt t
  end.

(** [sum(vs)]: the values added from the left, starting from 0, as
    CPython up to 3.11 adds them. *)
Definition fsum (vs : list F) : F := fold_left fadd vs (flit 0).

(** [a or b] on strings. *)
Definition str_or (a b : pystr) : pystr := if nonempty a then a else b.

Definition key_or (k : option pystr) (default : pystr) : pystr :=
  match k with Some s => str_or s default | None => default end.

Record aggregates : Type := {
  category_totals : totals;
  month_totals : totals;
  month_category : list (pystr * totals)
}.

(** The loop over the expenses in [update_charts]; [now] is
    [datetime.now().strftime("%Y-%m")]. *)
Fixpoint aggregate (now : pystr) (expenses : list row) (acc : aggregates)
  : result aggregates :=
  match expenses with
  | [] => Ok acc
  | r :: rest =>
      amt <- safe_float (Amount r) ;;
      let cat := str_or (Category r) (str "Uncategorized") in
      k <- date_to_month_key (Date r) ;;
      let mkey := key_or k now in
      aggregate now rest
        {| category_totals := dict_add cat amt (category_totals acc);
           month_totals := dict_add mkey amt (month_totals acc);
           month_category := dict_add2 mkey cat amt (month_category acc) |}
  end.

(** Stable insertion into a descending list, asking only whether one
    value is less than another. *)
Fixpoint insert_desc (x : pystr * F) (l : totals) : totals :=
  match l with
  | [] => [x]
  | y :: t => if fltb (snd y) (snd x) then x :: l else y :: insert_desc x t
  end.

Definition sorted_desc (l : totals) : totals :=
  fold_left (fun acc x => insert_desc x acc) l [].

(** [v == v], which fails for NaN alone. *)
Definition is_number (v : F) : bool := feqb v v.

(** No value is NaN: [<] orders the values. *)
Definition comparable (l : totals) : bool :=
  forallb (fun kv => is_number (snd kv)) l.

(** What [sorted] returns when [<] does not order the keys, one of them
    being NaN: this depends on the runs and merges of the interpreter's
    sort and is left open. *)
Variable sorted_unordered : totals -> totals.

(** [sorted(items, key=lambda kv: kv[1], reverse=True)].  [sorted] is
    stable and only ever asks whether one key is less than another; when
    [<] orders the keys this determines what it returns, [sorted_desc]. *)
Definition sorted_by_value (l : totals) : totals :=
  if comparable l then sorted_desc l else sorted_unordered l.

(** [sorted_categories[:n]] *)
Definition top_categories (n : nat) (t : totals) : totals :=
  firstn n (sorted_by_value t).

Definition list_or {A} (l default : list A) : list A :=
  if nonempty l then l else default.

Record charts : Type := {
  totals_of : aggregates;
  bar_cats : list pystr;
  bar_vals : list F;
  pie_labels : list pystr;
  pie_sizes : list F
}.

Definition top_n : nat := 10.

(** Labels and sizes handed to the pie chart. *)
Definition pie_input (sorted_categories : totals) : list pystr * list F :=
  let pie_top := firstn 6 sorted_categories in
  let labels := List.map fst pie_top in
  let sizes := List.map snd pie_top in
  let '(labels, sizes) :=
    if Nat.ltb 6 (List.length sorted_categories)
    then (labels ++ [str "Others"],
          sizes ++ [fsum (List.map snd (skipn 6 sorted_categories))])
    else (labels, sizes) in
  if feqb (fsum sizes) (flit 0) then ([str "No data"], [flit 1])
  else (labels, sizes).

(** [update_charts], from the rows read to the inputs of the category
    bar chart and of the pie chart. *)
Definition update_charts (now : pystr) (expenses : list row) : result charts :=
  agg <- aggregate now expenses
           {| category_totals := []; month_totals := []; month_category := [] |} ;;
  let sorted_categories := sorted_by_value (category_totals agg) in
  let top := firstn top_n sorted_categories in
  let pie := pie_input sorted_categories in
  Ok {| totals_of := agg;
        bar_cats := list_or (List.map fst top) [str "No data"];
        bar_vals := list_or (List.map snd top) [flit 0];
        pie_labels := fst pie;
        pie_sizes := snd pie |}.

(* ===================================================================== *)
(** * Edit dialog *)
(* ===================================================================== *)

Inductive edit_outcome : Type :=
| Declined            (* the user answered No to the confirmation *)
| MissingFields       (* "Date, Category and Amount are required." *)
| InvalidAmount       (* "Please enter a valid amount ..." *)
| Applied             (* "Saved." or "Deleted." *)
| RowUnavailable      (* "Row unavailable." *)
| Crashed (e : exn).

(** [0 <= index < len(rows)] *)
Definition index_ok {A} (index : Z) (rows : list A) : bool :=
  ((0 <=? index) && (index <? Z.of_nat (List.length rows)))%bool.

(** [del rows[index]] *)
Definition delete_at {A} (index : Z) (rows : list A) : list A :=
  firstn (Z.to_nat index) rows ++ skipn (S (Z.to_nat index)) rows.

(** [rows[index] = r] *)
Definition replace_at {A} (index : Z) (r : A) (rows : list A) : list A :=
  firstn (Z.to_nat index) rows ++ r :: skipn (S (Z.to_nat index)) rows.

(** [EditExpenseDialog.on_delete]; [confirm] is the answer to the
    confirmation box. *)
Definition on_delete (index : Z) (confirm : bool) (st : store)
  : store * edit_outcome :=
  if confirm then
    match read_expenses st with
    | (st1, Raise e) => (st1, Crashed e)
    | (st1, Ok rows) =>
        if index_ok index rows
        then (write_expenses (delete_at index rows) st1, Applied)
        else (st1, RowUnavailable)
    end
  else (st, Declined).

(** [EditExpenseDialog.on_save], from the text of the four controls. *)
Definition on_save (index : Z) (date_ctl cat_ctl amt_ctl note_ctl : pystr)
  (st : store) : store * edit_outcome :=
  let new_date := strip date_ctl in
  let new_cat := strip cat_ctl in
  let new_amt := strip amt_ctl in
  let new_note := strip note_ctl in
  if (negb (nonempty new_cat) || negb (nonempty new_amt)
      || negb (nonempty new_date))%bool
  then (st, MissingFields)
  else
    match safe_float new_amt with
    | Raise _ => (st, InvalidAmount)
    | Ok _ =>
        match read_expenses st with
        | (st1, Raise e) => (st1, Crashed e)
        | (st1, Ok rows) =>
            if index_ok index rows
            then (write_expenses
                    (replace_at index
                       {| Date := new_date; Category := new_cat;
                          Amount := new_amt; Note := new_note |} rows) st1,
                  Applied)
            else (st1, RowUnavailable)
        end
    end.

End Program.

Arguments sip_outcome F : clear implicits.
Arguments totals F : clear implicits.
Arguments aggregates F : clear implicits.
Arguments charts F : clear implicits.

(* ===================================================================== *)
(** * The specification, in its own words *)
(* ===================================================================== *)

(** ** Amount normalization *)

(** An unsigned decimal number: digits with at most one decimal point and
    at least one digit.  The result is the digits read as one number and
    the power of ten. *)
Definition unsigned_decimal (body : pystr) : option (N * Z) :=
  let ip := takewhile is_ascii_digit body in
  match dropwhile is_ascii_digit body with
  | [] => if nonempty ip then Some (digits_value ip, 0) else None
  | c :: fp =>
      if (N.eqb c (ch ".") && forallb is_ascii_digit fp
          && (nonempty ip || nonempty fp))%bool
      then Some (digits_value (ip ++ fp), - Z.of_nat (List.length fp))
      else None
  end.

Definition with_sign (neg : bool) (o : option (N * Z)) : option (bool * N * Z) :=
  match o with
  | Some (c, e) => Some (neg, c, e)
  | None => None
  end.

(** A signed decimal number: an optional minus sign, then an unsigned
    decimal number. *)
Definition signed_decimal (s : pystr) : option (bool * N * Z) :=
  match s with
  | c :: t =>
      if N.eqb c (ch "-") then with_sign true (unsigned_decimal t)
      else with_sign false (unsigned_decimal s)
  | [] => None
  end.

Definition decimal_or_zero {F} `{Arith F} (s : pystr) : F :=
  match signed_decimal s with
  | Some (neg, c, e) => of_dec neg c e
  | None => flit 0
  end.

(** As claimed: keep ASCII digits, [.] and [-], parse, default to zero. *)
Definition claimed_amount_char (c : char) : bool :=
  (is_ascii_digit c || N.eqb c (ch ".") || N.eqb c (ch "-"))%bool.

Definition normalize_amount_claimed {F} `{Arith F} (x : pystr) : F :=
  decimal_or_zero (filter claimed_amount_char x).

(** As the code has it: every character that [str.isdigit] accepts is
    kept; a decimal digit of any script stands for its ASCII digit, and any
    other digit character leaves the text without a value. *)
Fixpoint ascii_digits (s : pystr) : option pystr :=
  match s with
  | [] => Some []
  | c :: t =>
      if N.ltb c 127 then option_map (cons c) (ascii_digits t)
      else match decimal_value c with
           | Some d => option_map (cons (48 + d)%N) (ascii_digits t)
           | None => None
           end
  end.

Definition normalize_amount {F} `{Arith F} (x : pystr) : F :=
  match ascii_digits (filter amount_char x) with
  | Some a => decimal_or_zero a
  | None => flit 0
  end.

(** The alphabet of an amount after conversion to ASCII: digits, point,
    minus sign, and the question mark left by an unconvertible character. *)
Definition amount_ascii (c : char) : bool :=
  (claimed_amount_char c || N.eqb c (ch "?"))%bool.

Definition literal_of (o : option (bool * N * Z)) : option literal :=
  match o with
  | Some (neg, c, e) => Some (LNum neg c e)
  | None => None
  end.

(** No digit character of [x] lies outside ASCII. *)
Definition ascii_digits_only (x : pystr) : bool :=
  forallb (fun c => implb (isdigit c) (is_ascii_digit c)) x.

(** ** Month keys *)

Definition is_int (p : pystr) : bool :=
  match py_int p with Ok _ => true | Raise _ => false end.

Definition int_value (p : pystr) : Z :=
  match py_int p with Ok v => v | Raise _ => 0 end.

Definition key_of_result (r : result (Z * Z)) : option pystr :=
  match r with
  | Ok d => Some (month_key (fst d) (snd d))
  | Raise _ => None
  end.

Definition or_else {A} (a b : option A) : option A :=
  match a with Some _ => a | None => b end.

(** Third stage as claimed: of the segments between dashes, the first two
    numeric ones are year and month, when at least two segments exist. *)
Definition split_stage_claimed (s : pystr) : option pystr :=
  let segments := split_on (ch "-") s in
  if Nat.leb 2 (List.length segments) then
    match List.map int_value (filter is_int segments) with
    | year :: month :: _ => Some (month_key year month)
    | _ => None
    end
  else None.

(** Third stage as the code has it: blank segments are dropped, every
    other segment must be numeric, and at least two must remain. *)
Definition split_stage (s : pystr) : option pystr :=
  let segments := filter (fun p => nonempty (strip p)) (split_on (ch "-") s) in
  if forallb is_int segments then
    match List.map int_value segments with
    | year :: month :: _ => Some (month_key year month)
    | _ => None
    end
  else None.

Definition month_key_stages (third : pystr -> option pystr)
  (fromisoformat : pystr -> result (Z * Z)) (s : pystr) : option pystr :=
  or_else (key_of_result (strptime_ymd s))
    (or_else (key_of_result (fromisoformat s)) (third s)).

(** ** Aggregation *)

(** The amount of a row as a number, zero when [safe_float] gives none. *)
Definition amount_of {F} `{Arith F} (r : row) : F :=
  match safe_float (Amount r) with Ok v => v | Raise _ => flit 0 end.

Definition category_of (r : row) : pystr :=
  str_or (Category r) (str "Uncategorized").

Definition month_of (fromisoformat : pystr -> result (Z * Z)) (now : pystr)
  (r : row) : pystr :=
  match date_to_month_key fromisoformat (Date r) with
  | Ok k => key_or k now
  | Raise _ => now
  end.

(** Keys in the order of their first occurrence. *)
Fixpoint first_seen (ks : list pystr) (seen : list pystr) : list pystr :=
  match ks with
  | [] => []
  | k :: t =>
      if existsb (str_eqb k) seen then first_seen t seen
      else k :: first_seen t (k :: seen)
  end.

(** [a] stands before [b] in [l]. *)
Definition before {A} (a b : A) (l : list A) : Prop :=
  exists l1 l2 l3, l = l1 ++ a :: l2 ++ b :: l3.

Definition is_nan (x : spec_float) : bool :=
  match x with S754_nan => true | _ => false end.

(** The values added one after the other, from the left, onto [acc]. *)
Fixpoint sum_from {F} `{Arith F} (acc : F) (vs : list F) : F :=
  match vs with
  | [] => acc
  | v :: t => sum_from (fadd acc v) t
  end.

(** The sum of the values, starting from 0. *)
Definition total {F} `{Arith F} (vs : list F) : F := sum_from (flit 0) vs.

(** ** SIP calculator *)

Section SipSpec.
Context {F : Type} `{Arith F}.

(** [periods], [monthlyRate] and [FV] as the specification derives them. *)
Definition sip_spec (P annual_rate_percent years : F) : result (Z * F * F) :=
  periods <- ffloor (fmul years (flit 12)) ;;
  annual <- fdiv annual_rate_percent (flit 100) ;;
  monthlyRate <- fdiv annual (flit 12) ;;
  FV <- (if feqb monthlyRate (flit 0) then
           n <- of_int periods ;; Ok (fmul P n)
         else
           pw <- fpow (fadd (flit 1) monthlyRate) periods ;;
           q <- fdiv (fsub pw (flit 1)) monthlyRate ;;
           Ok (fmul (fmul P q) (fadd (flit 1) monthlyRate))) ;;
  Ok (periods, monthlyRate, FV).

Definition numeric (txt : pystr) : bool :=
  match py_float (F:=F) (strip txt) with Ok _ => true | Raise _ => false end.

(** The inputs the calculator must reject: a non-numeric contribution,
    rate or period, a negative contribution, a period that is not
    positive. *)
Definition sip_rejected (monthly_txt annual_txt years_txt : pystr) : bool :=
  match py_float (F:=F) (strip monthly_txt),
        py_float (F:=F) (strip annual_txt),
        py_float (F:=F) (strip years_txt) with
  | Ok P, Ok _, Ok years => (fltb P (flit 0) || fleb years (flit 0))%bool
  | _, _, _ => true
  end.

End SipSpec.

Section GoalSpec.
Context {F : Type} `{Arith F}.




End GoalSpec.

(** ** Storage *)

(** A row as [read_expenses] returns it after [write_expenses] stored it. *)
Definition normalize_row (r : row) : row :=
  {| Date := cell_or [] (Some (Date r));
     Category := cell_or [] (Some (Category r));
     Amount := cell_or (str "0") (Some (Amount r));
     Note := cell_or [] (Some (Note r)) |}.

Definition within_limit (f : pystr) : bool :=
  N.leb (N.of_nat (List.length f)) Csv.field_limit.

Definition rows_within_limit (rows : list row) : bool :=
  forallb (fun r => forallb within_limit (record_of_row r)) rows.

Definition trimmed (f : pystr) : bool := str_eqb (strip f) f.

(** Rows that the store keeps as they are: cells of at most 131072
    characters, no white space around any cell, an amount that is not
    empty. *)
Definition storable (r : row) : bool :=
  (forallb (fun f => within_limit f && trimmed f)%bool (record_of_row r)
   && nonempty (Amount r))%bool.

(** No white space at either end. *)
Definition no_outer_space (f : pystr) : bool :=
  match f with
  | [] => true
  | c :: _ => (negb (isspace c) && negb (isspace (last f c)))%bool
  end.

(** ** The reader, character by character

    The same reader without the detour through lines: the end-of-line
    mark is fed after a LF, and after a CR that no LF follows.  Used to
    reason about [Csv.reader_all]. *)

Module CsvScan.
Import Csv.

(** The end of the input. *)
Definition at_eof (r : reader) : result (list (list pystr)) :=
  if (nonempty (field r) || pstate_eqb (state r) IN_QUOTED_FIELD)%bool
  then Ok [fields (parse_save_field r)]
  else Ok [].

Definition ends_line (c : char) (t : pystr) : bool :=
  (N.eqb c LF
   || (N.eqb c CR && negb (match t with c' :: _ => N.eqb c' LF | [] => false end)))%bool.

(** [partial] tells whether the current line has characters already. *)
Fixpoint scan (r : reader) (partial : bool) (s : pystr) : result (list (list pystr)) :=
  match s with
  | [] =>
      if partial then
        r' <- parse_process_char r EOL ;;
        if pstate_eqb (state r') START_RECORD then Ok [fields r'] else at_eof r'
      else at_eof r
  | c :: t =>
      r1 <- parse_process_char r (Chr c) ;;
      if ends_line c t then
        r2 <- parse_process_char r1 EOL ;;
        if pstate_eqb (state r2) START_RECORD
        then rest <- scan parse_reset false t ;; Ok (fields r2 :: rest)
        else scan r2 false t
      else scan r1 true t
  end.

Definition mk (st : pstate) (f : pystr) (fs : list pystr) : reader :=
  {| state := st; field := f; fields := fs |}.

(** A field of [n] characters is within the reader's limit. *)
Definition fits (n : nat) : Prop := (N.of_nat n <= field_limit)%N.

Definition startish (st : pstate) : Prop := st = START_RECORD \/ st = START_FIELD.

(** Records of at least two fields, each within the limit. *)
Definition wide (fs : list pystr) : bool :=
  (Nat.leb 2 (List.length fs) && forallb within_limit fs)%bool.

(** What the reader holds stays within the limit. *)
Definition bounded_reader (r : reader) : Prop :=
  fits (List.length (field r)) /\ Forall (fun f => fits (List.length f)) (fields r).

Definition bounded_records (recs : list (list pystr)) : Prop :=
  Forall (Forall (fun f => fits (List.length f))) recs.

End CsvScan.

(* ===================================================================== *)
(** * Sample data *)
(* ===================================================================== *)

(** The rupee sign, U+20B9. *)
Definition rupee : char := 8377%N.

Definition sample_rows : list row :=
  [ {| Date := str "2024-03-15"; Category := str "Food";
       Amount := rupee :: str "500.00"; Note := str "lunch, with tea" |};
    {| Date := str "2024-03-16"; Category := str "Rent";
       Amount := str "$1,234.50"; Note := [] |};
    {| Date := str "2024-04-01"; Category := str "Books";
       Amount := rupee :: str "300.00";
       Note := str "two" ++ [Csv.LF] ++ str "lines" ++ [Csv.quote] |} ].

Definition sample_store : store := write_expenses sample_rows None.

(** A file whose second record lacks the Amount and Note cells and whose
    third has an empty Amount. *)
Definition ragged_file : pystr :=
  str "Date,Category,Amount,Note" ++ [Csv.CR; Csv.LF]
  ++ str " 2024-03-15 , Food " ++ [Csv.CR; Csv.LF]
  ++ str "2024-03-16,Rent,, due " ++ [Csv.LF].

Definition decimal_rows : list row :=
  [ {| Date := str "2024-01-01"; Category := str "A"; Amount := str "0.1"; Note := [] |};
    {| Date := str "2024-01-01"; Category := str "B"; Amount := str "0.2"; Note := [] |};
    {| Date := str "2024-01-01"; Category := str "B"; Amount := str "0.3"; Note := [] |} ].

(* ===================================================================== *)
(** * Vocabulary of the proofs *)
(* ===================================================================== *)

(** Neither NaN nor negative (the sign bit is clear). *)
Definition sign_clear (x : spec_float) : Prop :=
  match x with
  | S754_zero s | S754_infinity s | S754_finite s _ _ => s = false
  | S754_nan => True
  end.

(** The binary64 values of the constants 12 and 100 of [on_calculate]. *)
Definition f12 : spec_float := Eval vm_compute in flit 12.
Definition f100 : spec_float := Eval vm_compute in flit 100.

(** One turn of the loop of [update_charts], table by table. *)
Section Turn.
Context {F : Type} `{Arith F}.
Variable fromisoformat : pystr -> result (Z * Z).
Variable now : pystr.

Definition add_category (t : totals F) (r : row) : totals F :=
  dict_add (category_of r) (amount_of r) t.

Definition add_month (t : totals F) (r : row) : totals F :=
  dict_add (month_of fromisoformat now r) (amount_of r) t.

Definition add_month_category (t : list (pystr * totals F)) (r : row)
  : list (pystr * totals F) :=
  dict_add2 (month_of fromisoformat now r) (category_of r) (amount_of r) t.

End Turn.

(** ** The slices of the pie *)

Section Slices.
Context {F : Type} `{Arith F}.

(** The sum of the categories beyond the first six. *)
Definition others_sum (s : totals F) : F := total (List.map snd (skipn 6 s)).

(** The slices before the placeholder rule: the categories themselves
    when there are at most six, else the first six and "Others". *)
Definition slices (s : totals F) : totals F :=
  if Nat.ltb 6 (List.length s)
  then firstn 6 s ++ [(str "Others", others_sum s)]
  else s.

(** The chart inputs of the pie: the slices, or the placeholder when
    the slices add up to zero. *)
Definition pie_of (s : totals F) : list pystr * list F :=
  if feqb (total (List.map snd (slices s))) (flit 0)
  then ([str "No data"], [flit 1])
  else (List.map fst (slices s), List.map snd (slices s)).

(** [a] is not less than [b]: in a descending list [a] may stand first. *)
Definition not_less (a b : pystr * F) : Prop := fltb (snd a) (snd b) = false.

(** The value of [a] is at least that of [b]. *)
Definition at_least (a b : pystr * F) : Prop := fleb (snd b) (snd a) = true.

End Slices.

(** ** Whole numbers in binary64 *)

(** [m * 2^n] *)
Definition shl (m : positive) (n : nat) : positive := Nat.iter n xO m.

(** The number of places a mantissa [m] of at most 53 bits is shifted
    by to fill the 53 bits. *)
Definition fill (m : positive) : nat := Z.to_nat (53 - Zpos (digits2_pos m)).

(** [float(z)], the binary64 number nearest to the integer [z]. *)
Definition whole (z : Z) : spec_float :=
  binary_normalize B64.prec B64.emax z 0 false.

(** The sum of integers, and of their absolute values. *)
Definition zsum (zs : list Z) : Z := fold_right Z.add 0 zs.

Definition zabs (zs : list Z) : Z := fold_right (fun z s => Z.abs z + s) 0 zs.

(** The rows of [l] whose key is [k]. *)
Definition bucket (key : row -> pystr) (l : list row) (k : pystr) : list row :=
  filter (fun r => str_eqb (key r) k) l.

(** No total is NaN. *)
Definition numbers (t : list (pystr * spec_float)) : bool :=
  forallb (fun kv => negb (is_nan (snd kv))) t.

(** A category whose amounts are plus and minus infinity: its total is
    NaN. *)
Definition nan_rows : list row :=
  [ {| Date := str "2024-01-01"; Category := str "A"; Amount := str "1"; Note := [] |};
    {| Date := str "2024-01-01"; Category := str "B";
       Amount := str "1" ++ repeat 48%N 400; Note := [] |};
    {| Date := str "2024-01-01"; Category := str "B";
       Amount := str "-1" ++ repeat 48%N 400; Note := [] |};
    {| Date := str "2024-01-01"; Category := str "C"; Amount := str "2"; Note := [] |} ].

Definition tied_rows : list row :=
  [ {| Date := str "2024-01-01"; Category := str "Food"; Amount := str "10"; Note := [] |};
    {| Date := str "2024-01-02"; Category := str "Rent"; Amount := str "20"; Note := [] |};
    {| Date := str "2024-02-01"; Category := str "Books"; Amount := str "4"; Note := [] |};
    {| Date := str "2024-02-03"; Category := str "Books"; Amount := str "6"; Note := [] |} ].

(* ===================================================================== *)
(** * Entry window: adding an expense *)
(* ===================================================================== *)

(** [add_expense(date, category, amount, note)]: the record is appended
    to the file, which is created with its header when it is missing. *)
Definition add_expense (date category amount note : pystr) (st : store) : store :=
  Some (file_text (ensure_csv_exists HEADERS st)
        ++ Csv.writerow [date; category; amount; note]).

(** One more digit read: [acc] followed by the digit character [d]. *)
Definition digit_step (acc d : N) : N := (10 * acc + (d - 48))%N.

(** ** [format(x, ".2f")] on binary64 *)

(** [100 * m * 2^e] rounded to an integer, ties to even. *)
Definition cents (m : positive) (e : Z) : N :=
  if Z.leb 0 e then Z.to_N (100 * Zpos m * 2 ^ e)
  else
    let d := 2 ^ (- e) in
    let q := (100 * Zpos m) / d in
    let r := (100 * Zpos m) mod d in
    Z.to_N (match Z.compare (2 * r) d with
            | Lt => q
            | Gt => q + 1
            | Eq => if Z.even q then q else q + 1
            end).

(** The digits of [n], at least three of them, with a point before the
    last two. *)
Definition fixed2 (n : N) : pystr :=
  let ds := N_chars n in
  let ds := (repeat 48%N (3 - List.length ds) ++ ds)%list in
  (firstn (List.length ds - 2) ds ++ ch "." :: skipn (List.length ds - 2) ds)%list.

Definition sign_chars (neg : bool) : pystr := if neg then [ch "-"] else [].

Definition format_2f (x : spec_float) : pystr :=
  match x with
  | S754_nan => str "nan"
  | S754_infinity s => (sign_chars s ++ str "inf")%list
  | S754_zero s => (sign_chars s ++ str "0.00")%list
  | S754_finite s m e => (sign_chars s ++ fixed2 (cents m e))%list
  end.

(** [math.isfinite(x)] *)
Definition isfinite (x : spec_float) : bool :=
  match x with
  | S754_zero _ | S754_finite _ _ _ => true
  | S754_infinity _ | S754_nan => false
  end.

(** [CURRENCY_OPTIONS], character by character as the source file has
    them. *)
Definition CURRENCY_OPTIONS : list pystr :=
  [ [226; 8218; 185]%N; str "$"; [226; 8218; 172]%N; [194; 163]%N; [194; 165]%N;
    str "AED"; str "AUD"; str "CAD"; str "SGD" ].

(** What [EntryWindow.on_add_expense] answers. *)
Inductive entry_outcome : Type :=
| MissingEntry          (* "Please enter Category and Amount." *)
| InvalidEntryAmount    (* "Please enter a valid numeric amount." *)
| Added.                (* the record is appended, the inputs cleared *)

(** [f"{d.GetYear():04d}-{d.GetMonth()+1:02d}-{d.GetDay():02d}"] *)
Definition picker_date (year month day : Z) : pystr :=
  (format_0d 4 year ++ ch "-" :: format_0d 2 (month + 1)
   ++ ch "-" :: format_0d 2 day)%list.

(** [on_add_expense], from the date of the picker (its month counted
    from 0), the text of the three controls and the selected currency,
    up to the call of [add_expense]. *)
Definition on_add_expense (year month day : Z)
  (cat_ctl amt_ctl note_ctl currency : pystr) (st : store)
  : store * entry_outcome :=
  let date := picker_date year month day in
  let cat := strip cat_ctl in
  let amt_txt := strip amt_ctl in
  let note := strip note_ctl in
  if (negb (nonempty cat) || negb (nonempty amt_txt))%bool
  then (st, MissingEntry)
  else
    match py_float (F:=spec_float) amt_txt with
    | Raise _ => (st, InvalidEntryAmount)
    | Ok amt =>
        if isfinite amt
        then (add_expense date cat (currency ++ format_2f amt)%list note st, Added)
        else (st, InvalidEntryAmount)
    end.

(* ===================================================================== *)
(** * Incomes *)
(* ===================================================================== *)

Definition INCOME_HEADERS : list pystr := [str "Month"; str "Income"].

(** The dict of incomes, month key to amount, in insertion order. *)
Definition incomes : Type := list (pystr * spec_float).

(** [d[k] = v] *)
Fixpoint dict_set {V} (k : pystr) (v : V) (d : list (pystr * V))
  : list (pystr * V) :=
  match d with
  | [] => [(k, v)]
  | (k', v') :: t =>
      if str_eqb k k' then (k', v) :: t else (k', v') :: dict_set k v t
  end.

(** [d.get(k)] *)
Fixpoint dict_lookup {V} (k : pystr) (d : list (pystr * V)) : option V :=
  match d with
  | [] => None
  | (k', v) :: t => if str_eqb k k' then Some v else dict_lookup k t
  end.

(** Month and income of one record of [income.csv]: an income that
    [float] rejects counts as 0.0. *)
Definition income_of_record (fieldnames rec : list pystr) : pystr * spec_float :=
  (cell_or [] (Csv.dict_get (str "Month") fieldnames rec),
   match py_float (F:=spec_float)
           (cell_or (str "0") (Csv.dict_get (str "Income") fieldnames rec)) with
   | Ok v => v
   | Raise _ => flit 0
   end).

Definition set_income (d : incomes) (kv : pystr * spec_float) : incomes :=
  dict_set (fst kv) (snd kv) d.

Definition incomes_of_records (recs : list (list pystr)) : incomes :=
  match recs with
  | [] => []
  | fieldnames :: data =>
      fold_left set_income
        (List.map (income_of_record fieldnames) (filter nonempty data)) []
  end.

(** [read_incomes()]: the file after the call and the dict read. *)
Definition read_incomes (st : store) : store * result incomes :=
  let st' := ensure_csv_exists INCOME_HEADERS st in
  (st', recs <- Csv.reader_all (file_text st') ;; Ok (incomes_of_records recs)).

Definition income_record (kv : pystr * spec_float) : list pystr :=
  [fst kv; format_2f (snd kv)].

(** [write_incomes(incomes)]: the file after the call. *)
Definition write_incomes (d : incomes) (st : store) : store :=
  Some (Csv.writerow INCOME_HEADERS
        ++ List.concat (List.map (fun kv => Csv.writerow (income_record kv)) d)).

(** [set_income_for_month(month_key, amount)], [amount] a float. *)
Definition set_income_for_month (key : pystr) (amount : spec_float) (st : store)
  : store * result unit :=
  match read_incomes st with
  | (st1, Raise e) => (st1, Raise e)
  | (st1, Ok d) => (write_incomes (dict_set key amount d) st1, Ok tt)
  end.

(** What [EntryWindow.on_set_income] answers. *)
Inductive income_outcome : Type :=
| MissingIncome         (* "Please enter an income amount." *)
| InvalidIncome         (* "Income must be numeric." *)
| IncomeSaved           (* "Income for ... saved" *)
| IncomeCrashed (e : exn).

(** [on_set_income], from the date of the picker (its month counted from
    0) and the text of the income control. *)
Definition on_set_income (year month : Z) (income_ctl : pystr) (st : store)
  : store * income_outcome :=
  let key := month_key year (month + 1) in
  let amt_txt := strip income_ctl in
  if negb (nonempty amt_txt) then (st, MissingIncome)
  else
    match py_float (F:=spec_float) amt_txt with
    | Raise _ => (st, InvalidIncome)
    | Ok amt =>
        match set_income_for_month key amt st with
        | (st', Ok _) => (st', IncomeSaved)
        | (st', Raise e) => (st', IncomeCrashed e)
        end
    end.

(* ===================================================================== *)
(** * Vocabulary of the statements *)
(* ===================================================================== *)

(** The value a float has after it was written with two decimals and
    read again. *)
Definition in_cents (x : spec_float) : spec_float :=
  match x with
  | S754_finite s m e => B64.of_dec s (cents m e) (-2)
  | _ => x
  end.

(** [d.get(k, default)] *)
Definition get_or {V} (k : pystr) (d : list (pystr * V)) (default : V) : V :=
  match dict_lookup k d with Some v => v | None => default end.

(** The rows of a category, of a month. *)
Definition in_category (k : pystr) (r : row) : bool := str_eqb (category_of r) k.

Definition in_month (fromisoformat : pystr -> result (Z * Z)) (now m : pystr)
  (r : row) : bool :=
  str_eqb (month_of fromisoformat now r) m.

(** An entry of the incomes that the file keeps as it is, but for the
    rounding of the amount: a month key without white space around it,
    cells within the reader's limit. *)
Definition writable_income (kv : pystr * spec_float) : bool :=
  (no_outer_space (fst kv) && forallb within_limit (income_record kv))%bool.

(** The incomes with every amount rounded to two decimals. *)
Definition cents_of (d : incomes) : incomes :=
  List.map (fun kv => (fst kv, in_cents (snd kv))) d.

(** Month and day of a text of the form [-m-d], as [strptime] matches
    them behind the year. *)
Definition md_tail (t : pystr) : option (Z * Z) :=
  r1 <-? re_lit (ch "-") t ;;
  m <-? re_m r1 ;;
  r2 <-? re_lit (ch "-") (snd m) ;;
  d <-? re_d r2 ;;
  if nonempty (snd d) then None
  else Some (group_int (fst m), group_int (fst d)).

(** Checks run over the range of the date picker. *)
Definition year_ok (y : Z) : bool :=
  match format_0d 4 y with
  | [a; b; c; d] => (forallb isdecimal [a; b; c; d] && (group_int [a; b; c; d] =? y))%bool
  | _ => false
  end.

Definition tail_ok (m d : Z) : bool :=
  match md_tail (ch "-" :: format_0d 2 (m + 1) ++ ch "-" :: format_0d 2 d) with
  | Some (m', d') => ((m' =? m + 1) && (d' =? d))%bool
  | None => false
  end.

Definition days_ok (m : Z) : bool :=
  forallb (fun d => (d <? 1) || tail_ok m d)%bool
    (List.map Z.of_nat (seq 0 (Z.to_nat 32))).

Definition four_digits (y : Z) : bool := Nat.eqb (List.length (format_0d 4 y)) 4.
Definition two_digits_of (m : Z) : bool := Nat.eqb (List.length (format_0d 2 m)) 2.

(* ===================================================================== *)
(** * Charts: income against expenditure, month by month *)
(* ===================================================================== *)

(** [a < b] on strings: code point by code point. *)
Fixpoint str_ltb (a b : pystr) : bool :=
  match a, b with
  | _, [] => false
  | [], _ :: _ => true
  | x :: a', y :: b' =>
      if N.ltb x y then true
      else if N.eqb x y then str_ltb a' b' else false
  end.

(** [sorted(l)] on strings: a stable sort that only asks whether one
    string is less than another. *)
Fixpoint insert_asc (x : pystr) (l : list pystr) : list pystr :=
  match l with
  | [] => [x]
  | y :: t => if str_ltb x y then x :: l else y :: insert_asc x t
  end.

Definition sorted_strs (l : list pystr) : list pystr :=
  fold_left (fun acc x => insert_asc x acc) l [].

(** [set(l)]: the distinct strings of [l].  A set yields its elements in
    an order of its own; the order chosen here is of no consequence for
    what is sorted afterwards. *)
Fixpoint py_set (l : list pystr) : list pystr :=
  match l with
  | [] => []
  | x :: t => if existsb (str_eqb x) t then py_set t else x :: py_set t
  end.

Section IncomeChart.
Context {F : Type} `{Arith F}.

(** The months of the first chart of [update_charts]. *)
Definition chart_months (now : pystr) (month_totals : totals F)
  (incomes : list (pystr * F)) : list pystr :=
  let months :=
    sorted_strs (py_set (List.map fst month_totals ++ List.map fst incomes)) in
  if nonempty months then months else [now].

(** Months, [inc_vals] and [exp_vals]. *)
Definition income_chart (now : pystr) (month_totals : totals F)
  (incomes : list (pystr * F)) : list pystr * list F * list F :=
  let months := chart_months now month_totals incomes in
  (months,
   List.map (fun m => get_or m incomes (flit 0)) months,
   List.map (fun m => get_or m month_totals (flit 0)) months).

End IncomeChart.

Definition str_le (a b : pystr) : Prop := str_ltb b a = false.
Definition str_lt (a b : pystr) : Prop := str_ltb a b = true.

(* ===================================================================== *)
(** * Suggestions *)
(* ===================================================================== *)

(** [k == m] for the result [k] of [date_to_month_key]. *)
Definition key_is (k : option pystr) (m : pystr) : bool :=
  match k with Some s => str_eqb s m | None => false end.

Section Suggestions.
Context {F : Type} `{Arith F}.
Variable fromisoformat : pystr -> result (Z * Z).
Variable sorted_unordered : totals F -> totals F.

(** The closing advice of the text. *)
Inductive advice : Type :=
| Overspent (over_amount : F)   (* "You have spent too much!" *)
| CanSave (diff : F)            (* "Great! ... available to save." *)
| NoAdvice.

(** The numbers and decisions [get_suggestion_text] puts into words. *)
Record suggestion : Type := {
  sg_income : F;
  sg_expenditure : F;
  sg_balance : F;
  sg_no_income : bool;          (* the "No income set" warning *)
  sg_top : list (pystr * F);    (* "This month's top categories" *)
  sg_advice : advice
}.

(** The first loop: expenditure by month, rows without a month key going
    to the current month. *)
Fixpoint month_sums (current_month : pystr) (expenses : list row)
  (acc : totals F) : result (totals F) :=
  match expenses with
  | [] => Ok acc
  | r :: rest =>
      k <- date_to_month_key fromisoformat (Date r) ;;
      amt <- safe_float (Amount r) ;;
      month_sums current_month rest (dict_add (key_or k current_month) amt acc)
  end.

(** The second loop: the categories of the rows whose month key is the
    current month. *)
Fixpoint month_categories (current_month : pystr) (expenses : list row)
  (acc : totals F) : result (totals F) :=
  match expenses with
  | [] => Ok acc
  | r :: rest =>
      k <- date_to_month_key fromisoformat (Date r) ;;
      if key_is k current_month then
        amt <- safe_float (Amount r) ;;
        month_categories current_month rest
          (dict_add (str_or (Category r) (str "Uncategorized")) amt acc)
      else month_categories current_month rest acc
  end.

(** [get_suggestion_text], from the month of the date picker, the
    incomes and the expenses read, up to the wording. *)
Definition get_suggestion_text (current_month : pystr)
  (incomes : list (pystr * F)) (expenses : list row) : result suggestion :=
  month_totals <- month_sums current_month expenses [] ;;
  let inc := get_or current_month incomes (flit 0) in
  let exp := get_or current_month month_totals (flit 0) in
  let diff := fsub inc exp in
  mcat <- month_categories current_month expenses [] ;;
  Ok {| sg_income := inc;
        sg_expenditure := exp;
        sg_balance := diff;
        sg_no_income := feqb inc (flit 0);
        sg_top := firstn 6 (sorted_by_value sorted_unordered mcat);
        sg_advice :=
          if (fltb (flit 0) inc && fltb inc exp)%bool then Overspent (fsub exp inc)
          else if fleb (flit 1000) diff then CanSave diff
          else NoAdvice |}.

(** The rows whose date gives the month key [m], those whose date gives
    no month key. *)
Definition keyed (m : pystr) (r : row) : bool :=
  match date_to_month_key fromisoformat (Date r) with
  | Ok k => key_is k m
  | Raise _ => false
  end.

Definition undated (r : row) : bool :=
  match date_to_month_key fromisoformat (Date r) with
  | Ok None => true
  | _ => false
  end.

End Suggestions.

Arguments advice F : clear implicits.
Arguments suggestion F : clear implicits.

(** The advice as a rule on the income and the expenditure of the month:
    with an income, an expenditure above it is overspending; failing
    that, a balance of 1000 or more can be saved. *)
Definition advice_for {F} `{Arith F} (income expenditure : F) : advice F :=
  if fltb (flit 0) income then
    if fltb income expenditure then Overspent (fsub expenditure income)
    else if fleb (flit 1000) (fsub income expenditure)
         then CanSave (fsub income expenditure)
         else NoAdvice
  else if fleb (flit 1000) (fsub income expenditure)
       then CanSave (fsub income expenditure)
       else NoAdvice.

(** Amounts near the largest binary64 number: 1e308 and -1e308. *)
Definition huge_rows : list row :=
  [ {| Date := str "2024-01-01"; Category := str "A";
       Amount := str "1" ++ repeat 48%N 308; Note := [] |};
    {| Date := str "2024-01-01"; Category := str "B";
       Amount := str "-1" ++ repeat 48%N 308; Note := [] |};
    {| Date := str "2024-01-01"; Category := str "A";
       Amount := str "1" ++ repeat 48%N 308; Note := [] |} ].

(** The rows counted in the expenditure of the month [m]. *)
Definition counted (fromisoformat : pystr -> result (Z * Z)) (m : pystr)
  (r : row) : bool :=
  (keyed fromisoformat m r || undated fromisoformat r)%bool.


(* ===================================================================== *)
(** * Facts about strings *)
(* ===================================================================== *)

(* ---- results ---- *)
Lemma bind_ok {A B} (r : result A) (k : A -> result B) a :
  r = Ok a -> bind r k = k a.
Proof. intros ->; reflexivity. Qed.

(* ---- dropwhile / strip ---- *)
Section DropWhile.
Context {A : Type} (p : A -> bool).

Lemma dropwhile_head l c t : dropwhile p l = c :: t -> p c = false.
Proof.
  induction l as [|a l IH]; simpl; [discriminate|].
  destruct (p a) eqn:E; [exact IH|]. intros [= <- <-]; exact E.
Qed.

Lemma dropwhile_split l : exists pre, l = pre ++ dropwhile p l /\ forallb p pre = true.
Proof.
  induction l as [|a l [pre [IH1 IH2]]]; simpl.
  - exists []; auto.
  - destruct (p a) eqn:E.
    + exists (a :: pre); simpl; rewrite E, IH2; split; [f_equal; exact IH1|reflexivity].
    + exists []; auto.
Qed.

Lemma dropwhile_id l : match l with [] => True | c :: _ => p c = false end -> dropwhile p l = l.
Proof. destruct l as [|c t]; simpl; [reflexivity|]. intros ->; reflexivity. Qed.

Lemma dropwhile_length l : (List.length (dropwhile p l) <= List.length l)%nat.
Proof. induction l as [|a l IH]; simpl; [lia|]. destruct (p a); simpl; lia. Qed.

Lemma filter_dropwhile (q : A -> bool) l :
  (forall c, q c = true -> p c = false) -> filter q (dropwhile p l) = filter q l.
Proof.
  intros Hq; induction l as [|a l IH]; simpl; [reflexivity|].
  destruct (p a) eqn:E; [|reflexivity].
  destruct (q a) eqn:E'; [|exact IH]. apply Hq in E'; congruence.
Qed.
End DropWhile.

Lemma filter_strip (q : char -> bool) s :
  (forall c, q c = true -> isspace c = false) -> filter q (strip s) = filter q s.
Proof.
  intros Hq. unfold strip, rstrip_by, lstrip_by.
  rewrite filter_rev, filter_dropwhile, filter_rev, rev_involutive by exact Hq.
  apply filter_dropwhile; exact Hq.
Qed.

Lemma strip_length s : (List.length (strip s) <= List.length s)%nat.
Proof.
  unfold strip, rstrip_by, lstrip_by. rewrite length_rev.
  etransitivity; [apply dropwhile_length|]. rewrite length_rev. apply dropwhile_length.
Qed.

Lemma strip_no_outer_space s : no_outer_space (strip s) = true.
Proof.
  unfold strip, rstrip_by, lstrip_by.
  destruct (dropwhile isspace (rev (dropwhile isspace s))) as [|c t] eqn:Eb; [reflexivity|].
  pose proof (dropwhile_head _ _ _ _ Eb) as Hc.
  destruct (dropwhile_split isspace (rev (dropwhile isspace s))) as [pre [Hsplit _]].
  rewrite Eb in Hsplit.
  assert (Ha : dropwhile isspace s = rev (c :: t) ++ rev pre).
  { rewrite <- rev_app_distr, <- Hsplit, rev_involutive; reflexivity. }
  destruct (rev (c :: t)) as [|h x'] eqn:Ex.
  { apply (f_equal (@List.length _)) in Ex. rewrite length_rev in Ex. discriminate. }
  simpl in Ha. apply dropwhile_head in Ha.
  unfold no_outer_space. rewrite Ha. simpl negb at 1.
  assert (Hl : last (h :: x') h = c).
  { rewrite <- Ex. simpl rev. apply last_last. }
  rewrite Hl, Hc. reflexivity.
Qed.

Lemma strip_trimmed s : no_outer_space s = true -> strip s = s.
Proof.
  unfold no_outer_space, strip, rstrip_by, lstrip_by.
  destruct s as [|c t]; [reflexivity|].
  intros H. apply andb_prop in H as [H1 H2].
  apply negb_true_iff in H1, H2.
  rewrite (dropwhile_id isspace (c :: t)) by exact H1.
  destruct (rev (c :: t)) as [|l r] eqn:E.
  { apply (f_equal (@List.length _)) in E. rewrite length_rev in E. discriminate. }
  assert (Hl : last (c :: t) c = l).
  { rewrite <- (rev_involutive (c :: t)), E. simpl rev. apply last_last. }
  rewrite Hl in H2. rewrite dropwhile_id by exact H2.
  rewrite <- E. apply rev_involutive.
Qed.

Lemma strip_idem s : strip (strip s) = strip s.
Proof. apply strip_trimmed, strip_no_outer_space. Qed.

(* ===================================================================== *)
(** * Facts about the csv reader *)
(* ===================================================================== *)

Module CsvFacts.
Import Csv CsvScan.

Lemma process_chars_app r a b :
  process_chars r (a ++ b) = (r' <- process_chars r a ;; process_chars r' b).
Proof.
  revert r; induction a as [|c a IH]; intros r; simpl; [reflexivity|].
  destruct (parse_process_char r (Chr c)); simpl; [apply IH|reflexivity].
Qed.

Lemma read_records_nil r : read_records r [] = at_eof r.
Proof. reflexivity. Qed.

Lemma read_records_line r0 cur c r ls :
  process_chars r0 cur = Ok r ->
  read_records r0 ((cur ++ [c]) :: ls) =
  (r1 <- parse_process_char r (Chr c) ;;
   r2 <- parse_process_char r1 EOL ;;
   if pstate_eqb (state r2) START_RECORD
   then rest <- read_records parse_reset ls ;; Ok (fields r2 :: rest)
   else read_records r2 ls).
Proof.
  intros Hc. simpl. unfold process_line. rewrite process_chars_app, Hc. simpl.
  destruct (parse_process_char r (Chr c)); reflexivity.
Qed.

Lemma readlines_from_LF cur t :
  readlines_from cur (LF :: t) = (cur ++ [LF]) :: readlines_from [] t.
Proof. reflexivity. Qed.

Lemma readlines_from_CR cur t :
  match t with c' :: _ => N.eqb c' LF | [] => false end = false ->
  readlines_from cur (CR :: t) = (cur ++ [CR]) :: readlines_from [] t.
Proof. destruct t as [|c' t']; simpl; [reflexivity|]. intros ->; reflexivity. Qed.

Lemma readlines_from_CRLF cur t :
  readlines_from cur (CR :: LF :: t) = readlines_from (cur ++ [CR]) (LF :: t).
Proof. simpl. rewrite <- app_assoc. reflexivity. Qed.

Lemma readlines_from_other cur c t :
  N.eqb c LF = false -> N.eqb c CR = false ->
  readlines_from cur (c :: t) = readlines_from (cur ++ [c]) t.
Proof. simpl. intros -> ->. reflexivity. Qed.

Lemma read_records_raise s : forall cur r0 e,
  process_chars r0 cur = Raise e ->
  read_records r0 (readlines_from cur s) = Raise e.
Proof.
  assert (Hline : forall r0 cur c ls e, process_chars r0 cur = Raise e ->
             read_records r0 ((cur ++ [c]) :: ls) = Raise e).
  { intros r0 cur c ls e Hc. simpl. unfold process_line.
    rewrite process_chars_app, Hc. reflexivity. }
  induction s as [|c t IH]; intros cur r0 e Hc.
  - destruct cur as [|a cur]; [discriminate|].
    simpl. unfold process_line. rewrite Hc. reflexivity.
  - destruct (N.eqb c LF) eqn:ELF.
    { apply N.eqb_eq in ELF; subst c. rewrite readlines_from_LF. now apply Hline. }
    destruct (N.eqb c CR) eqn:ECR.
    { apply N.eqb_eq in ECR; subst c.
      destruct (match t with c' :: _ => N.eqb c' LF | [] => false end) eqn:Et.
      - destruct t as [|c' t']; [discriminate|]. apply N.eqb_eq in Et; subst c'.
        rewrite readlines_from_CRLF. apply IH.
        rewrite process_chars_app, Hc. reflexivity.
      - rewrite readlines_from_CR by exact Et. now apply Hline. }
    rewrite readlines_from_other by assumption. apply IH.
    rewrite process_chars_app, Hc. reflexivity.
Qed.

Lemma read_records_scan s : forall cur r0 r,
  process_chars r0 cur = Ok r ->
  read_records r0 (readlines_from cur s) = scan r (nonempty cur) s.
Proof.
  induction s as [|c t IH]; intros cur r0 r Hc.
  - destruct cur as [|a cur].
    + simpl in Hc. injection Hc as <-. reflexivity.
    + cbn [readlines_from nonempty scan read_records]. unfold process_line. rewrite Hc.
      cbn [bind]. destruct (parse_process_char r EOL) as [r'|]; [|reflexivity].
      cbn [bind]. destruct (pstate_eqb (state r') START_RECORD); reflexivity.
  - assert (Hend : forall ls, ends_line c t = true ->
              (forall r2, read_records r2 ls = scan r2 false t) ->
              read_records r0 ((cur ++ [c]) :: ls) = scan r (nonempty cur) (c :: t)).
    { intros ls He Hls. rewrite (read_records_line _ _ _ _ _ Hc).
      cbn [scan]. rewrite He.
      destruct (parse_process_char r (Chr c)) as [r1|]; [|reflexivity]. cbn [bind].
      destruct (parse_process_char r1 EOL) as [r2|]; [|reflexivity]. cbn [bind].
      rewrite !Hls. reflexivity. }
    assert (Hcont : ends_line c t = false ->
              read_records r0 (readlines_from (cur ++ [c]) t) = scan r (nonempty cur) (c :: t)).
    { intros He. cbn [scan]. rewrite He.
      destruct (parse_process_char r (Chr c)) as [r1|e] eqn:E1; cbn [bind].
      - rewrite (IH (cur ++ [c]) r0 r1).
        + destruct cur; reflexivity.
        + rewrite process_chars_app, Hc. simpl. rewrite E1. reflexivity.
      - apply read_records_raise. rewrite process_chars_app, Hc. simpl. rewrite E1. reflexivity. }
    destruct (N.eqb c LF) eqn:ELF.
    { pose proof ELF as ELF'. apply N.eqb_eq in ELF'; subst c. rewrite readlines_from_LF.
      apply Hend; [reflexivity|]. intros r2. apply (IH [] r2 r2). reflexivity. }
    destruct (N.eqb c CR) eqn:ECR.
    { pose proof ECR as ECR'. apply N.eqb_eq in ECR'; subst c.
      destruct (match t with c' :: _ => N.eqb c' LF | [] => false end) eqn:Et.
      - destruct t as [|c' t']; [discriminate|]. apply N.eqb_eq in Et; subst c'.
        rewrite readlines_from_CRLF. apply Hcont. reflexivity.
      - rewrite readlines_from_CR by exact Et.
        apply Hend; [unfold ends_line; rewrite Et; reflexivity|].
        intros r2. apply (IH [] r2 r2). reflexivity. }
    rewrite readlines_from_other by assumption. apply Hcont.
    unfold ends_line. rewrite ELF, ECR. reflexivity.
Qed.

Lemma reader_all_scan text : reader_all text = scan parse_reset false text.
Proof. apply (read_records_scan text [] parse_reset parse_reset). reflexivity. Qed.




Lemma scan_flag r a b s : s <> [] -> scan r a s = scan r b s.
Proof. destruct s; [congruence|reflexivity]. Qed.

Lemma add_char_ok st f fs c :
  (N.of_nat (List.length f) < field_limit)%N ->
  parse_add_char (mk st f fs) c = Ok (mk st (f ++ [c]) fs).
Proof.
  intros Hl. unfold parse_add_char. cbn [field mk].
  destruct (N.leb_spec field_limit (N.of_nat (List.length f))); [lia|reflexivity].
Qed.

Lemma special_false c :
  special c = false ->
  N.eqb c comma = false /\ N.eqb c quote = false /\ N.eqb c CR = false /\ N.eqb c LF = false.
Proof.
  unfold special. intros H.
  repeat (apply orb_false_iff in H as [H ?]). auto.
Qed.

(** One step of [scan]. *)
Lemma scan_step r flag c t r1 :
  parse_process_char r (Chr c) = Ok r1 -> ends_line c t = false ->
  scan r flag (c :: t) = scan r1 true t.
Proof. intros H1 He. cbn [scan]. rewrite H1, He. reflexivity. Qed.

Lemma scan_step_eol r flag c t r1 r2 :
  parse_process_char r (Chr c) = Ok r1 -> ends_line c t = true ->
  parse_process_char r1 EOL = Ok r2 ->
  scan r flag (c :: t)
  = if pstate_eqb (state r2) START_RECORD
    then rest <- scan parse_reset false t ;; Ok (fields r2 :: rest)
    else scan r2 false t.
Proof. intros H1 He H2. cbn [scan]. rewrite H1, He. cbn [bind]. rewrite H2. reflexivity. Qed.

Lemma ends_line_other c t :
  N.eqb c LF = false -> N.eqb c CR = false -> ends_line c t = false.
Proof. unfold ends_line. intros -> ->. reflexivity. Qed.

(** Steps of the reader. *)
Lemma step_quoted_quote f fs :
  parse_process_char (mk IN_QUOTED_FIELD f fs) (Chr quote)
  = Ok (mk QUOTE_IN_QUOTED_FIELD f fs).
Proof. reflexivity. Qed.

Lemma step_quoted_char f fs c :
  N.eqb c quote = false -> (N.of_nat (List.length f) < field_limit)%N ->
  parse_process_char (mk IN_QUOTED_FIELD f fs) (Chr c)
  = Ok (mk IN_QUOTED_FIELD (f ++ [c]) fs).
Proof.
  intros Hq Hl. unfold parse_process_char. cbn [state mk]. rewrite Hq.
  apply add_char_ok; exact Hl.
Qed.

Lemma step_quoted_eol f fs :
  parse_process_char (mk IN_QUOTED_FIELD f fs) EOL = Ok (mk IN_QUOTED_FIELD f fs).
Proof. reflexivity. Qed.

Lemma step_quote_quote f fs :
  (N.of_nat (List.length f) < field_limit)%N ->
  parse_process_char (mk QUOTE_IN_QUOTED_FIELD f fs) (Chr quote)
  = Ok (mk IN_QUOTED_FIELD (f ++ [quote]) fs).
Proof.
  intros Hl. unfold parse_process_char. cbn [state mk].
  change (N.eqb quote quote) with true. cbv iota.
  rewrite add_char_ok by exact Hl. reflexivity.
Qed.

Lemma step_field_char f fs c :
  special c = false -> (N.of_nat (List.length f) < field_limit)%N ->
  parse_process_char (mk IN_FIELD f fs) (Chr c) = Ok (mk IN_FIELD (f ++ [c]) fs).
Proof.
  intros Hc Hl. apply special_false in Hc as (Hcomma & Hquote & HCR & HLF).
  unfold parse_process_char. cbn [state mk is_newline].
  rewrite HLF, HCR, Hcomma. cbn [orb]. apply add_char_ok; exact Hl.
Qed.


Lemma step_start_char st fs c :
  startish st -> special c = false ->
  parse_process_char (mk st [] fs) (Chr c) = Ok (mk IN_FIELD [c] fs).
Proof.
  intros Hst Hc. apply special_false in Hc as (Hcomma & Hquote & HCR & HLF).
  destruct Hst as [-> | ->]; unfold parse_process_char, start_field;
    cbn [state mk is_newline]; rewrite HLF, HCR, Hquote, Hcomma; reflexivity.
Qed.

Lemma step_start_quote st fs :
  startish st ->
  parse_process_char (mk st [] fs) (Chr quote) = Ok (mk IN_QUOTED_FIELD [] fs).
Proof. intros [-> | ->]; reflexivity. Qed.

Lemma step_start_comma st fs :
  startish st ->
  parse_process_char (mk st [] fs) (Chr comma) = Ok (mk START_FIELD [] (fs ++ [[]])).
Proof. intros [-> | ->]; reflexivity. Qed.

(** Inside quotes: the doubled text up to the closing quote. *)
Lemma scan_quoted g : forall f0 fs0 flag tail,
  fits (List.length f0 + List.length g) ->
  scan (mk IN_QUOTED_FIELD f0 fs0) flag (double_quotes g ++ quote :: tail)
  = scan (mk QUOTE_IN_QUOTED_FIELD (f0 ++ g) fs0) true tail.
Proof.
  unfold fits.
  induction g as [|c g IH]; intros f0 fs0 flag tail Hfit.
  - rewrite app_nil_r. apply scan_step; reflexivity.
  - cbn [double_quotes]. cbn [List.length] in Hfit.
    assert (Hlt : (N.of_nat (List.length f0) < field_limit)%N) by lia.
    assert (Hfit' : (N.of_nat (List.length (f0 ++ [c]) + List.length g) <= field_limit)%N).
    { rewrite length_app. simpl. lia. }
    replace (f0 ++ c :: g) with ((f0 ++ [c]) ++ g) by (rewrite <- app_assoc; reflexivity).
    destruct (N.eqb c quote) eqn:Eq.
    + apply N.eqb_eq in Eq; subst c.
      change ((quote :: quote :: double_quotes g) ++ quote :: tail)
        with (quote :: quote :: (double_quotes g ++ quote :: tail)).
      rewrite (scan_step _ _ _ _ _ (step_quoted_quote f0 fs0)) by reflexivity.
      rewrite (scan_step _ _ _ _ _ (step_quote_quote f0 fs0 Hlt)) by reflexivity.
      apply IH; exact Hfit'.
    + change ((c :: double_quotes g) ++ quote :: tail)
        with (c :: (double_quotes g ++ quote :: tail)).
      destruct (ends_line c (double_quotes g ++ quote :: tail)) eqn:He.
      * rewrite (scan_step_eol _ _ _ _ _ _ (step_quoted_char f0 fs0 c Eq Hlt) He
                   (step_quoted_eol _ _)).
        cbn [state mk pstate_eqb]. apply IH; exact Hfit'.
      * rewrite (scan_step _ _ _ _ _ (step_quoted_char f0 fs0 c Eq Hlt) He).
        apply IH; exact Hfit'.
Qed.

(** Outside quotes: a text without special characters. *)
Lemma scan_plain g : forall f0 fs0 flag d tail,
  needs_quotes g = false ->
  fits (List.length f0 + List.length g) ->
  scan (mk IN_FIELD f0 fs0) flag (g ++ d :: tail)
  = scan (mk IN_FIELD (f0 ++ g) fs0) flag (d :: tail).
Proof.
  unfold fits.
  induction g as [|c g IH]; intros f0 fs0 flag d tail Hq Hfit.
  - rewrite app_nil_r. reflexivity.
  - cbn [needs_quotes existsb] in Hq. apply orb_false_iff in Hq as [Hc Hq].
    cbn [List.length] in Hfit.
    assert (Hlt : (N.of_nat (List.length f0) < field_limit)%N) by lia.
    assert (Hfit' : (N.of_nat (List.length (f0 ++ [c]) + List.length g) <= field_limit)%N).
    { rewrite length_app. simpl. lia. }
    replace (f0 ++ c :: g) with ((f0 ++ [c]) ++ g) by (rewrite <- app_assoc; reflexivity).
    change ((c :: g) ++ d :: tail) with (c :: (g ++ d :: tail)).
    pose proof (special_false _ Hc) as (_ & _ & HCR & HLF).
    rewrite (scan_step _ _ _ _ _ (step_field_char f0 fs0 c Hc Hlt)
               (ends_line_other _ _ HLF HCR)).
    rewrite (IH _ _ true d tail Hq Hfit'). reflexivity.
Qed.

(** A written field, up to the character after it. *)
Lemma scan_written_field f st fs0 flag d tail :
  startish st -> within_limit f = true ->
  scan (mk st [] fs0) flag (write_field f ++ d :: tail)
  = match needs_quotes f, f with
    | false, [] => scan (mk st [] fs0) flag (d :: tail)
    | false, _ => scan (mk IN_FIELD f fs0) true (d :: tail)
    | true, _ => scan (mk QUOTE_IN_QUOTED_FIELD f fs0) true (d :: tail)
    end.
Proof.
  intros Hst Hlim. unfold write_field.
  assert (Hfit : fits (List.length f)).
  { unfold fits. unfold within_limit in Hlim. apply N.leb_le in Hlim. exact Hlim. }
  destruct (needs_quotes f) eqn:Hq.
  - change ((quote :: double_quotes f ++ [quote]) ++ d :: tail)
      with (quote :: ((double_quotes f ++ [quote]) ++ d :: tail)).
    rewrite <- app_assoc.
    rewrite (scan_step _ _ _ _ _ (step_start_quote st fs0 Hst)) by reflexivity.
    change ([quote] ++ d :: tail) with (quote :: d :: tail).
    rewrite scan_quoted by exact Hfit. destruct f; reflexivity.
  - destruct f as [|c g]; [reflexivity|].
    cbn [needs_quotes existsb] in Hq. apply orb_false_iff in Hq as [Hc Hq].
    pose proof (special_false _ Hc) as (_ & _ & HCR & HLF).
    change ((c :: g) ++ d :: tail) with (c :: (g ++ d :: tail)).
    rewrite (scan_step _ _ _ _ _ (step_start_char st fs0 c Hst Hc)
               (ends_line_other _ _ HLF HCR)).
    apply (scan_plain g [c] fs0 true d tail Hq).
    unfold fits in *. simpl in *. lia.
Qed.

(** A field followed by a comma. *)
Lemma scan_field_comma f st fs0 flag tail :
  startish st -> within_limit f = true ->
  scan (mk st [] fs0) flag (write_field f ++ comma :: tail)
  = scan (mk START_FIELD [] (fs0 ++ [f])) true tail.
Proof.
  intros Hst Hlim. rewrite scan_written_field by assumption.
  destruct (needs_quotes f) eqn:Hq; [|destruct f as [|c g]].
  - reflexivity.
  - apply scan_step; [apply step_start_comma; exact Hst|reflexivity].
  - reflexivity.
Qed.

(** The last field of a record and the line end. *)
Lemma scan_field_crlf f fs0 flag rest :
  within_limit f = true ->
  scan (mk START_FIELD [] fs0) flag (write_field f ++ CR :: LF :: rest)
  = (recs <- scan parse_reset false rest ;; Ok ((fs0 ++ [f]) :: recs)).
Proof.
  intros Hlim. rewrite scan_written_field by (assumption || (right; reflexivity)).
  destruct (needs_quotes f) eqn:Hq; [|destruct f as [|c g]]; reflexivity.
Qed.

Lemma scan_fields fs : forall st fs0 flag rest,
  forallb within_limit fs = true ->
  (st = START_FIELD /\ fs <> []) \/ (st = START_RECORD /\ (2 <= List.length fs)%nat) ->
  scan (mk st [] fs0) flag (join_fields fs ++ CR :: LF :: rest)
  = (recs <- scan parse_reset false rest ;; Ok ((fs0 ++ fs) :: recs)).
Proof.
  induction fs as [|f fs IH]; intros st fs0 flag rest Hlim Hst.
  - exfalso. destruct Hst as [[_ H]|[_ H]]; [congruence|simpl in H; lia].
  - cbn [forallb] in Hlim. apply andb_prop in Hlim as [Hf Hfs].
    destruct fs as [|f2 fs].
    + destruct Hst as [[-> _]|[_ H]]; [|simpl in H; lia].
      cbn [join_fields]. apply scan_field_crlf; exact Hf.
    + change (join_fields (f :: f2 :: fs)) with (write_field f ++ comma :: join_fields (f2 :: fs)).
      rewrite <- app_assoc. change ((comma :: join_fields (f2 :: fs)) ++ CR :: LF :: rest)
        with (comma :: (join_fields (f2 :: fs) ++ CR :: LF :: rest)).
      rewrite scan_field_comma; [|destruct Hst as [[-> _]|[-> _]]; [right|left]; reflexivity|exact Hf].
      rewrite (IH START_FIELD (fs0 ++ [f]) true rest Hfs); [|left; split; [reflexivity|discriminate]].
      rewrite <- app_assoc. reflexivity.
Qed.


Lemma writerow_wide fs : wide fs = true -> writerow fs = join_fields fs ++ [CR; LF].
Proof.
  unfold wide, writerow. intros H. apply andb_prop in H as [H _].
  destruct fs as [|f [|f2 fs]]; try discriminate.
  change (join_fields (f :: f2 :: fs)) with (write_field f ++ comma :: join_fields (f2 :: fs)).
  destruct (write_field f); reflexivity.
Qed.

Lemma scan_records recs :
  forallb wide recs = true ->
  scan parse_reset false (List.concat (List.map writerow recs)) = Ok recs.
Proof.
  induction recs as [|fs recs IH]; intros Hw; [reflexivity|].
  cbn [forallb] in Hw. apply andb_prop in Hw as [Hfs Hrecs].
  cbn [List.map List.concat]. rewrite (writerow_wide _ Hfs), <- app_assoc.
  change ([CR; LF] ++ List.concat (List.map writerow recs))
    with (CR :: LF :: List.concat (List.map writerow recs)).
  unfold wide in Hfs. apply andb_prop in Hfs as [Hlen Hlim]. apply Nat.leb_le in Hlen.
  rewrite (scan_fields fs START_RECORD [] false _ Hlim); [|right; split; [reflexivity|exact Hlen]].
  rewrite (IH Hrecs). reflexivity.
Qed.

(** What was written is what is read. *)
Lemma reader_all_written recs :
  forallb wide recs = true ->
  reader_all (List.concat (List.map writerow recs)) = Ok recs.
Proof. intros H. rewrite reader_all_scan. apply scan_records; exact H. Qed.


End CsvFacts.

(* ===================================================================== *)
(** * Facts about the store *)
(* ===================================================================== *)

Lemma str_eqb_eq a b : str_eqb a b = true <-> a = b.
Proof.
  unfold str_eqb. destruct (list_eq_dec N.eq_dec a b); split; congruence.
Qed.

Lemma HEADERS_wide : CsvScan.wide HEADERS = true.
Proof. vm_compute. reflexivity. Qed.

Lemma written_text rows :
  Csv.writerow HEADERS
    ++ List.concat (List.map (fun r => Csv.writerow (record_of_row r)) rows)
  = List.concat (List.map Csv.writerow (HEADERS :: List.map record_of_row rows)).
Proof. cbn [List.map List.concat]. rewrite map_map. reflexivity. Qed.

Lemma written_records_wide rows :
  rows_within_limit rows = true ->
  forallb CsvScan.wide (HEADERS :: List.map record_of_row rows) = true.
Proof.
  intros Hlim. cbn [forallb]. rewrite HEADERS_wide. cbn [andb].
  induction rows as [|r rows IH]; [reflexivity|].
  cbn [rows_within_limit forallb] in Hlim. apply andb_prop in Hlim as [Hr Hlim].
  cbn [List.map forallb]. rewrite IH by exact Hlim.
  unfold CsvScan.wide. rewrite Hr. reflexivity.
Qed.

Lemma rows_of_written_records rows :
  rows_of_records (HEADERS :: List.map record_of_row rows) = List.map normalize_row rows.
Proof.
  cbn [rows_of_records].
  induction rows as [|r rows IH]; [reflexivity|].
  cbn [List.map filter record_of_row nonempty]. rewrite IH. reflexivity.
Qed.

(** Reading what [write_expenses] wrote: the rows, in order, as the read
    boundary normalizes them. *)
Lemma read_after_write rows st :
  rows_within_limit rows = true ->
  read_expenses (write_expenses rows st)
  = (write_expenses rows st, Ok (List.map normalize_row rows)).
Proof.
  intros Hlim. unfold read_expenses, write_expenses.
  cbn [ensure_csv_exists file_text]. f_equal.
  rewrite written_text, CsvFacts.reader_all_written by (apply written_records_wide; exact Hlim).
  cbn [bind]. rewrite rows_of_written_records. reflexivity.
Qed.

Lemma normalize_storable r : storable r = true -> normalize_row r = r.
Proof.
  unfold storable. intros H. apply andb_prop in H as [H Ha].
  cbn [forallb record_of_row] in H.
  repeat (apply andb_prop in H as [? H]).
  repeat match goal with
         | X : (within_limit _ && trimmed _)%bool = true |- _ =>
             apply andb_prop in X as [_ X]; apply str_eqb_eq in X
         end.
  destruct r as [d c a n]; cbn [Date Category Amount Note] in *.
  unfold normalize_row, cell_or; cbn [Date Category Amount Note].
  rewrite Ha.
  assert (Hs : forall f, strip f = f -> strip (if nonempty f then f else []) = f).
  { intros f Hf. destruct f; [reflexivity|exact Hf]. }
  rewrite !Hs by assumption. congruence.
Qed.

Lemma storable_within_limit rows :
  forallb storable rows = true -> rows_within_limit rows = true.
Proof.
  unfold rows_within_limit. intros H. rewrite forallb_forall in *.
  intros r Hr. specialize (H r Hr). unfold storable in H.
  apply andb_prop in H as [H _]. rewrite forallb_forall in *.
  intros f Hf. specialize (H f Hf). apply andb_prop in H as [H _]. exact H.
Qed.

Lemma map_normalize_storable rows :
  forallb storable rows = true -> List.map normalize_row rows = rows.
Proof.
  induction rows as [|r rows IH]; [reflexivity|].
  cbn [forallb]. intros H. apply andb_prop in H as [Hr H].
  cbn [List.map]. rewrite normalize_storable, IH by assumption. reflexivity.
Qed.

(** ** What the reader returns is within its limit *)

Module ReaderBound.
Import Csv CsvScan.

Lemma bounded_reset : bounded_reader parse_reset.
Proof. split; [unfold fits; simpl; lia|constructor]. Qed.

Lemma bounded_set_state s r : bounded_reader r -> bounded_reader (set_state s r).
Proof. intros H; exact H. Qed.

Lemma bounded_save r : bounded_reader r -> bounded_reader (parse_save_field r).
Proof.
  intros [Hf Hfs]. split; cbn [parse_save_field field fields].
  - unfold fits; simpl; lia.
  - apply Forall_app; split; [exact Hfs|constructor; [exact Hf|constructor]].
Qed.

Lemma bounded_add r c r' :
  bounded_reader r -> parse_add_char r c = Ok r' -> bounded_reader r'.
Proof.
  intros [Hf Hfs]. unfold parse_add_char.
  destruct (N.leb_spec field_limit (N.of_nat (List.length (field r)))); [discriminate|].
  intros [= <-]. split; cbn [field fields]; [|exact Hfs].
  unfold fits. rewrite length_app. simpl. lia.
Qed.

Lemma bounded_add_set r c s :
  bounded_reader r ->
  forall r', (x <- parse_add_char r c ;; Ok (set_state s x)) = Ok r' -> bounded_reader r'.
Proof.
  intros Hr r'. destruct (parse_add_char r c) as [x|] eqn:E; cbn [bind]; [|discriminate].
  intros [= <-]. apply bounded_set_state. eapply bounded_add; eassumption.
Qed.

Ltac bounded_step :=
  repeat match goal with
         | |- Ok _ = Ok _ -> _ => intros [= <-]
         | |- Raise _ = Ok _ -> _ => discriminate
         | |- bounded_reader (set_state _ _) => apply bounded_set_state
         | |- bounded_reader (parse_save_field _) => apply bounded_save
         | |- (if ?b then _ else _) = Ok _ -> _ => destruct b
         | |- parse_add_char _ _ = Ok _ -> _ => apply bounded_add
         | |- (x <- parse_add_char _ _ ;; Ok (set_state _ x)) = Ok _ -> _ =>
             apply bounded_add_set
         end; try assumption.

Lemma bounded_start_field r s r' :
  bounded_reader r -> start_field r s = Ok r' -> bounded_reader r'.
Proof.
  intros Hr. unfold start_field. destruct s as [c|]; bounded_step.
Qed.

Lemma bounded_step_char r s r' :
  bounded_reader r -> parse_process_char r s = Ok r' -> bounded_reader r'.
Proof.
  intros Hr. unfold parse_process_char.
  destruct (state r); destruct s as [c|];
    try (apply bounded_start_field; exact Hr); bounded_step;
    try (apply bounded_start_field; exact Hr).
Qed.

Lemma bounded_chars l : forall r r',
  bounded_reader r -> process_chars r l = Ok r' -> bounded_reader r'.
Proof.
  induction l as [|c l IH]; intros r r' Hr; cbn [process_chars].
  - intros [= <-]; exact Hr.
  - destruct (parse_process_char r (Chr c)) as [r1|] eqn:E; cbn [bind]; [|discriminate].
    apply IH. eapply bounded_step_char; eassumption.
Qed.

Lemma bounded_line r l r' :
  bounded_reader r -> process_line r l = Ok r' -> bounded_reader r'.
Proof.
  intros Hr. unfold process_line.
  destruct (process_chars r l) as [r1|] eqn:E; cbn [bind]; [|discriminate].
  apply bounded_step_char. eapply bounded_chars; eassumption.
Qed.

Lemma bounded_read lines : forall r recs,
  bounded_reader r -> read_records r lines = Ok recs -> bounded_records recs.
Proof.
  induction lines as [|l ls IH]; intros r recs Hr; cbn [read_records].
  - destruct (nonempty (field r) || pstate_eqb (state r) IN_QUOTED_FIELD)%bool;
      intros [= <-]; [|constructor].
    constructor; [|constructor]. apply (bounded_save r Hr).
  - destruct (process_line r l) as [r1|] eqn:E; cbn [bind]; [|discriminate].
    pose proof (bounded_line _ _ _ Hr E) as Hr1.
    destruct (pstate_eqb (state r1) START_RECORD); [|apply IH; exact Hr1].
    destruct (read_records parse_reset ls) as [rest|] eqn:E'; cbn [bind]; [|discriminate].
    intros [= <-]. constructor; [apply Hr1|].
    eapply IH; [apply bounded_reset|exact E'].
Qed.

Lemma bounded_reader_all text recs :
  reader_all text = Ok recs -> bounded_records recs.
Proof. apply bounded_read, bounded_reset. Qed.

Lemma dict_get_In key fns rec v : dict_get key fns rec = Some v -> In v rec.
Proof.
  unfold dict_get. destruct (existsb _ _); [discriminate|].
  destruct (find _ _) as [[k x]|] eqn:E; [|discriminate].
  intros [= <-]. apply find_some in E as [E _]. apply in_rev in E.
  apply in_combine_r in E. exact E.
Qed.

End ReaderBound.

Lemma fits_within f : CsvScan.fits (List.length f) <-> within_limit f = true.
Proof. unfold CsvScan.fits, within_limit. symmetry. apply N.leb_le. Qed.

Lemma strip_fits s :
  CsvScan.fits (List.length s) -> CsvScan.fits (List.length (strip s)).
Proof.
  unfold CsvScan.fits. pose proof (strip_length s) as Hs. revert Hs.
  generalize (List.length (strip s)) (List.length s). intros; lia.
Qed.

Lemma cell_or_within default v rec :
  within_limit default = true ->
  Forall (fun f => CsvScan.fits (List.length f)) rec ->
  match v with Some x => In x rec | None => True end ->
  within_limit (cell_or default v) = true.
Proof.
  intros Hd Hrec Hv. apply fits_within. unfold cell_or. apply strip_fits.
  destruct v as [x|]; [|apply fits_within; exact Hd].
  destruct (nonempty x); [|apply fits_within; exact Hd].
  rewrite Forall_forall in Hrec. apply Hrec; exact Hv.
Qed.

Lemma row_of_record_within fns rec :
  Forall (fun f => CsvScan.fits (List.length f)) rec ->
  forallb within_limit (record_of_row (row_of_record fns rec)) = true.
Proof.
  intros Hrec. unfold row_of_record. cbn [record_of_row forallb Date Category Amount Note].
  rewrite !cell_or_within with (rec := rec); try reflexivity; try exact Hrec;
    match goal with
    | |- match ?g with _ => _ end =>
        destruct g eqn:E; [apply ReaderBound.dict_get_In in E; exact E|exact I]
    end.
Qed.

Lemma rows_of_records_within recs :
  CsvScan.bounded_records recs -> rows_within_limit (rows_of_records recs) = true.
Proof.
  intros Hrecs. destruct recs as [|fns data]; [reflexivity|].
  cbn [rows_of_records]. inversion Hrecs as [|? ? _ Hdata]; subst.
  unfold rows_within_limit. rewrite forallb_forall. intros r Hr.
  apply in_map_iff in Hr as [rec [<- Hrec]]. apply filter_In in Hrec as [Hrec _].
  apply row_of_record_within. rewrite Forall_forall in Hdata. apply Hdata; exact Hrec.
Qed.

(** The rows [read_expenses] returns can be written back and read again. *)
Lemma read_expenses_within st st1 rows :
  read_expenses st = (st1, Ok rows) -> rows_within_limit rows = true.
Proof.
  unfold read_expenses. intros [= _ H].
  destruct (Csv.reader_all _) as [recs|] eqn:E; cbn [bind] in H; [|discriminate].
  injection H as <-. apply rows_of_records_within.
  eapply ReaderBound.bounded_reader_all; exact E.
Qed.

(** Rows that were read are fixed points of the read boundary, but for an
    amount that was white space only. *)
Lemma cell_or_idem default v :
  nonempty (strip default) = true ->
  cell_or default (Some (cell_or default v)) =
  if nonempty (cell_or default v) then cell_or default v else strip default.
Proof.
  intros Hd. unfold cell_or at 1.
  destruct (nonempty (cell_or default v)) eqn:E; [|reflexivity].
  unfold cell_or. apply strip_idem.
Qed.

Lemma ensure_idem st : ensure_csv_exists HEADERS (ensure_csv_exists HEADERS st)
                       = ensure_csv_exists HEADERS st.
Proof. destruct st; reflexivity. Qed.

Lemma read_expenses_again st st1 res :
  read_expenses st = (st1, res) -> read_expenses st1 = (st1, res).
Proof.
  unfold read_expenses. intros [= <- <-]. rewrite ensure_idem. reflexivity.
Qed.

Lemma read_expenses_keeps_file st st1 res :
  read_expenses st = (st1, res) -> st <> None -> st1 = st.
Proof.
  unfold read_expenses. intros [= <- _] Hst. destruct st; [reflexivity|congruence].
Qed.

Lemma row_of_record_no_outer_space fns rec :
  forallb no_outer_space (record_of_row (row_of_record fns rec)) = true.
Proof.
  unfold row_of_record, cell_or.
  cbn [record_of_row forallb Date Category Amount Note].
  rewrite !strip_no_outer_space. reflexivity.
Qed.

Lemma rows_of_records_In recs r :
  In r (rows_of_records recs) -> exists fns rec, r = row_of_record fns rec.
Proof.
  destruct recs as [|fns data]; [intros []|]. cbn [rows_of_records].
  intros Hr. apply in_map_iff in Hr as [rec [<- _]]. eauto.
Qed.

Lemma read_expenses_In st st1 rows r :
  read_expenses st = (st1, Ok rows) -> In r rows ->
  exists fns rec, r = row_of_record fns rec.
Proof.
  unfold read_expenses. intros [= _ H].
  destruct (Csv.reader_all _) as [recs|]; cbn [bind] in H; [|discriminate].
  injection H as <-. apply rows_of_records_In.
Qed.

(** A row that was read, with an amount, is read again as it is. *)
Lemma normalize_read_row fns rec :
  let r := row_of_record fns rec in
  nonempty (Amount r) = true -> normalize_row r = r.
Proof.
  intros r Ha.
  assert (Hs : forall f, no_outer_space f = true ->
                 strip (if nonempty f then f else []) = f).
  { intros f Hf. destruct f; [reflexivity|]. apply strip_trimmed; exact Hf. }
  pose proof (row_of_record_no_outer_space fns rec) as Hn. fold r in Hn.
  cbn [record_of_row forallb] in Hn.
  repeat (apply andb_prop in Hn as [? Hn]).
  destruct r as [d c a n]; cbn [Date Category Amount Note] in *.
  unfold normalize_row, cell_or; cbn [Date Category Amount Note].
  rewrite Ha, !Hs by assumption. rewrite strip_trimmed by assumption. reflexivity.
Qed.

Lemma index_ok_split {A} (index : Z) (rows : list A) :
  index_ok index rows = true ->
  exists earlier r later,
    rows = earlier ++ r :: later /\ List.length earlier = Z.to_nat index
    /\ delete_at index rows = earlier ++ later
    /\ (forall x, replace_at index x rows = earlier ++ x :: later).
Proof.
  unfold index_ok. intros H. apply andb_prop in H as [H0 H1].
  apply Z.leb_le in H0. apply Z.ltb_lt in H1.
  assert (Hn : (Z.to_nat index < List.length rows)%nat) by lia.
  destruct (skipn (Z.to_nat index) rows) as [|r later] eqn:Es.
  { apply (f_equal (@List.length _)) in Es. rewrite length_skipn in Es. simpl in Es. lia. }
  exists (firstn (Z.to_nat index) rows), r, later.
  assert (Hl : skipn (S (Z.to_nat index)) rows = later).
  { replace (S (Z.to_nat index)) with (1 + Z.to_nat index)%nat by lia.
    rewrite <- skipn_skipn, Es. reflexivity. }
  repeat split.
  - rewrite <- Es. symmetry. apply firstn_skipn.
  - rewrite length_firstn. lia.
  - unfold delete_at. rewrite Hl. reflexivity.
  - intros x. unfold replace_at. rewrite Hl. reflexivity.
Qed.

Lemma safe_float_total {F} `{Arith F} x : exists v, safe_float x = Ok v.
Proof.
  unfold safe_float, try_except.
  destruct (if negb _ then _ else _); eauto.
Qed.

(** C8 (amended). Writing N expense rows and reading them back yields the
    same N rows in the same order, the text of every cell - the amount
    included - unchanged, provided the rows are storable: no cell begins
    or ends with white space, no amount is empty, and no cell is longer
    than the reader's limit of 131072 characters.  For arbitrary rows
    within that limit, the rows read back are the written ones in the
    same order, each passed through the normalization of the read
    boundary. *)
Theorem C8_write_read_roundtrip (rows : list row) (st : store) :
  (forallb storable rows = true ->
   snd (read_expenses (write_expenses rows st)) = Ok rows)
  /\ (rows_within_limit rows = true ->
      snd (read_expenses (write_expenses rows st)) = Ok (List.map normalize_row rows)).
Proof.
  split; intros H.
  - rewrite read_after_write by (apply storable_within_limit; exact H).
    cbn [snd]. rewrite map_normalize_storable by exact H. reflexivity.
  - rewrite read_after_write by exact H. reflexivity.
Qed.

Lemma C8_roundtrip_witness :
  snd (read_expenses (write_expenses sample_rows None)) = Ok sample_rows.
Proof.
  apply (proj1 (C8_write_read_roundtrip sample_rows None)).
  vm_compute. reflexivity.
Defined.

(** C8 as stated fails: an amount text with white space around it comes
    back without it. *)
Lemma C8_counterexample :
  let rows := [ {| Date := str "2024-03-15"; Category := str "Food";
                   Amount := str " 300 "; Note := [] |} ] in
  snd (read_expenses (write_expenses rows None))
  = Ok [ {| Date := str "2024-03-15"; Category := str "Food";
            Amount := str "300"; Note := [] |} ]
  /\ snd (read_expenses (write_expenses rows None)) <> Ok rows.
Proof.
  split; [vm_compute; reflexivity|]. vm_compute. intros H. discriminate H.
Qed.

(** C10. [read_expenses] normalizes every row at the read boundary:
    whenever the csv reader accepts the file, [read_expenses] returns a
    row for every non-empty data record and never raises, whatever the
    number of cells of the records; every Date, Category, Amount and Note
    it returns is the cell without the white space around it; a missing
    or empty Amount cell gives the text "0"; a missing Date, Category or
    Note cell gives the empty text. *)
Theorem C10_read_boundary (st : store) (recs : list (list pystr)) :
  Csv.reader_all (file_text (ensure_csv_exists HEADERS st)) = Ok recs ->
  snd (read_expenses st) = Ok (rows_of_records recs)
  /\ (forall r, In r (rows_of_records recs) ->
        forallb no_outer_space (record_of_row r) = true)
  /\ (forall fieldnames rec,
        let r := row_of_record fieldnames rec in
        let cell := fun k => Csv.dict_get (str k) fieldnames rec in
        (forall v, cell "Date"%string = Some v -> Date r = strip v)
        /\ (forall v, cell "Category"%string = Some v -> Category r = strip v)
        /\ (forall v, cell "Note"%string = Some v -> Note r = strip v)
        /\ (forall v, cell "Amount"%string = Some v -> v <> [] -> Amount r = strip v)
        /\ (cell "Amount"%string = None \/ cell "Amount"%string = Some [] ->
            Amount r = str "0")
        /\ (cell "Date"%string = None -> Date r = [])
        /\ (cell "Category"%string = None -> Category r = [])
        /\ (cell "Note"%string = None -> Note r = [])).
Proof.
  intros Hread. split; [|split].
  - unfold read_expenses. cbn [snd]. rewrite Hread. reflexivity.
  - intros r Hr. apply rows_of_records_In in Hr as [fns [rec ->]].
    apply row_of_record_no_outer_space.
  - intros fns rec r cell. subst r cell. unfold row_of_record, cell_or.
    cbn [Date Category Amount Note].
    repeat split.
    + intros v ->. destruct v; reflexivity.
    + intros v ->. destruct v; reflexivity.
    + intros v ->. destruct v; reflexivity.
    + intros v -> Hv. destruct v; [congruence|reflexivity].
    + intros [-> | ->]; reflexivity.
    + intros ->; reflexivity.
    + intros ->; reflexivity.
    + intros ->; reflexivity.
Qed.

Lemma C10_read_boundary_witness :
  snd (read_expenses (Some ragged_file))
  = Ok [ {| Date := str "2024-03-15"; Category := str "Food";
            Amount := str "0"; Note := [] |};
         {| Date := str "2024-03-16"; Category := str "Rent";
            Amount := str "0"; Note := str "due" |} ].
Proof.
  refine (eq_trans (proj1 (C10_read_boundary (Some ragged_file)
    [ [str "Date"; str "Category"; str "Amount"; str "Note"];
      [str " 2024-03-15 "; str " Food "];
      [str "2024-03-16"; str "Rent"; []; str " due "] ] _)) _).
  - vm_compute. reflexivity.
  - vm_compute. reflexivity.
Defined.

(** C9. Delete and edit by index.  With the rows as [read_expenses]
    returns them when the operation runs: if [0 <= index < len(rows)],
    a confirmed delete rewrites the file with the row at that position
    removed and every other row in its place and order, and reading the
    file again returns these rows in that order; if the index is out of
    range, delete and edit alike answer "Row unavailable." and write
    nothing: the file is as [read_expenses] left it and holds the same
    rows. *)
Theorem C9_delete_edit_by_index {F : Type} `{Arith F}
  (index : Z) (st st1 : store) (rows : list row) :
  read_expenses st = (st1, Ok rows) ->
  (index_ok index rows = true ->
   exists earlier r later,
     rows = earlier ++ r :: later
     /\ List.length earlier = Z.to_nat index
     /\ on_delete index true st = (write_expenses (earlier ++ later) st1, Applied)
     /\ snd (read_expenses (write_expenses (earlier ++ later) st1))
        = Ok (List.map normalize_row (earlier ++ later))
     /\ (forall x, In x rows -> nonempty (Amount x) = true -> normalize_row x = x))
  /\ (index_ok index rows = false ->
      on_delete index true st = (st1, RowUnavailable)
      /\ (forall d c a n,
            (nonempty (strip d) && nonempty (strip c) && nonempty (strip a))%bool = true ->
            on_save index d c a n st = (st1, RowUnavailable))
      /\ read_expenses st1 = (st1, Ok rows)
      /\ (st <> None -> st1 = st)).
Proof.
  intros Hread. split; intros Hidx.
  - destruct (index_ok_split index rows Hidx) as (earlier & r & later & Hrows & Hlen & Hdel & _).
    exists earlier, r, later. repeat split; try assumption.
    + unfold on_delete. rewrite Hread, Hidx, Hdel. reflexivity.
    + rewrite read_after_write; [reflexivity|].
      pose proof (read_expenses_within _ _ _ Hread) as Hlim.
      unfold rows_within_limit in *. rewrite forallb_forall in *.
      intros x Hx. apply Hlim. rewrite Hrows.
      apply in_app_or in Hx as [Hx|Hx]; apply in_or_app; [left|right; right]; exact Hx.
    + intros x Hx Ha. destruct (read_expenses_In _ _ _ _ Hread Hx) as (fns & rec & ->).
      apply normalize_read_row; exact Ha.
  - repeat split.
    + unfold on_delete. rewrite Hread, Hidx. reflexivity.
    + intros d c a n Hne. apply andb_prop in Hne as [Hne Ha].
      apply andb_prop in Hne as [Hd Hc].
      unfold on_save. rewrite Hd, Hc, Ha. cbn [negb orb].
      destruct (safe_float_total (strip a)) as [v ->].
      rewrite Hread, Hidx. reflexivity.
    + eapply read_expenses_again; exact Hread.
    + eapply read_expenses_keeps_file; exact Hread.
Qed.

Lemma C9_delete_witness :
  on_delete 1 true sample_store
  = (write_expenses [nth 0 sample_rows (Build_row [] [] [] []);
                     nth 2 sample_rows (Build_row [] [] [] [])] sample_store,
     Applied)
  /\ on_delete 3 true sample_store = (sample_store, RowUnavailable).
Proof.
  pose proof (C9_delete_edit_by_index (F:=spec_float) 1 sample_store sample_store
                sample_rows ltac:(vm_compute; reflexivity)) as [Hin _].
  pose proof (C9_delete_edit_by_index (F:=spec_float) 3 sample_store sample_store
                sample_rows ltac:(vm_compute; reflexivity)) as [_ Hout].
  split.
  - destruct (Hin ltac:(vm_compute; reflexivity)) as (e & r & l & Hrows & Hlen & Hdel & _).
    rewrite Hdel. f_equal.
    destruct e as [|e0 [|e1 e]]; try discriminate Hlen.
    injection Hrows as <- <- <-. reflexivity.
  - apply (Hout ltac:(vm_compute; reflexivity)).
Defined.

(* ===================================================================== *)
(** * Facts about characters *)
(* ===================================================================== *)

(** Checking a property of all code points below a bound by evaluation. *)
Lemma below_forall (P : N -> bool) (n : N) :
  forallb P (List.map N.of_nat (seq 0 (N.to_nat n))) = true ->
  forall c, (c < n)%N -> P c = true.
Proof.
  intros H c Hc. rewrite forallb_forall in H. apply H.
  apply in_map_iff. exists (N.to_nat c). split; [apply N2Nat.id|].
  apply in_seq. lia.
Qed.

Lemma in_range_spec c lo hi :
  in_range c (lo, hi) = true <-> (lo <= c <= hi)%N.
Proof.
  unfold in_range. cbn [fst snd]. rewrite andb_true_iff, !N.leb_le. reflexivity.
Qed.

Lemma isspace_small c : isspace c = true -> (c < 12289)%N.
Proof.
  unfold isspace. intros H. apply existsb_exists in H as [[lo hi] [Hin Hr]].
  apply in_range_spec in Hr.
  unfold space_ranges in Hin. cbn [In] in Hin.
  repeat (destruct Hin as [Hin|Hin]; [injection Hin as <- <-; lia|]).
  destruct Hin.
Qed.

Lemma amount_char_not_space c : amount_char c = true -> isspace c = false.
Proof.
  intros Ha. destruct (isspace c) eqn:Es; [|reflexivity].
  pose proof (isspace_small c Es) as Hc.
  pose proof (below_forall (fun c => implb (isspace c) (negb (amount_char c))) 12289%N
                ltac:(vm_compute; reflexivity) c Hc) as H.
  cbv beta in H. rewrite Es, Ha in H. discriminate.
Qed.

Lemma isdigit_ascii c : (c < 127)%N -> isdigit c = is_ascii_digit c.
Proof.
  intros Hc.
  pose proof (below_forall (fun c => Bool.eqb (isdigit c) (is_ascii_digit c)) 127%N
                ltac:(vm_compute; reflexivity) c Hc) as H.
  apply eqb_prop in H. exact H.
Qed.

Lemma is_ascii_digit_spec c : is_ascii_digit c = true <-> (48 <= c <= 57)%N.
Proof. apply in_range_spec. Qed.

Lemma ascii_digit_isdigit c : is_ascii_digit c = true -> isdigit c = true.
Proof.
  intros H. rewrite isdigit_ascii; [exact H|]. apply is_ascii_digit_spec in H. lia.
Qed.

Lemma decimal_value_bound c d : decimal_value c = Some d -> (d <= 9)%N.
Proof.
  unfold decimal_value.
  destruct (find _ _) as [b|] eqn:E; [|discriminate].
  intros [= <-]. apply find_some in E as [_ E]. apply in_range_spec in E. lia.
Qed.

Lemma claimed_amount_char_spec c :
  claimed_amount_char c = true <-> ((48 <= c <= 57)%N \/ c = 46%N \/ c = 45%N).
Proof.
  unfold claimed_amount_char. rewrite !orb_true_iff, is_ascii_digit_spec, !N.eqb_eq.
  change (ch ".") with 46%N. change (ch "-") with 45%N. tauto.
Qed.

Lemma amount_char_ascii c :
  (c < 127)%N -> amount_char c = claimed_amount_char c.
Proof.
  intros Hc. unfold amount_char, claimed_amount_char. rewrite isdigit_ascii by exact Hc.
  reflexivity.
Qed.

Lemma amount_char_high c :
  (127 <= c)%N -> amount_char c = true -> isdigit c = true.
Proof.
  unfold amount_char. intros Hc H.
  apply orb_true_iff in H as [H|H]; [apply orb_true_iff in H as [H|H]|]; [exact H| |];
    apply N.eqb_eq in H; subst c; vm_compute in Hc; exfalso; apply Hc; reflexivity.
Qed.

(* ===================================================================== *)
(** * Facts about [float] on amounts *)
(* ===================================================================== *)

Section TakeDrop.
Context {A : Type} (p : A -> bool).

Lemma take_drop l : takewhile p l ++ dropwhile p l = l.
Proof.
  induction l as [|a l IH]; [reflexivity|]. simpl.
  destruct (p a); [simpl; rewrite IH|]; reflexivity.
Qed.

Lemma takewhile_all l : forallb p l = true -> takewhile p l = l.
Proof.
  induction l as [|a l IH]; [reflexivity|]. simpl.
  destruct (p a); [|discriminate]. intros H. rewrite IH by exact H. reflexivity.
Qed.

Lemma dropwhile_all l : forallb p l = true -> dropwhile p l = [].
Proof.
  induction l as [|a l IH]; [reflexivity|]. simpl.
  destruct (p a); [exact IH|discriminate].
Qed.

Lemma takewhile_forallb l : forallb p (takewhile p l) = true.
Proof.
  induction l as [|a l IH]; [reflexivity|]. simpl.
  destruct (p a) eqn:E; [simpl; rewrite E; exact IH|reflexivity].
Qed.

Lemma forallb_dropwhile (q : A -> bool) l :
  forallb q l = true -> forallb q (dropwhile p l) = true.
Proof.
  induction l as [|a l IH]; [reflexivity|]. simpl. intros H.
  destruct (p a); [apply IH; apply andb_prop in H as [_ H]; exact H|exact H].
Qed.

Lemma dropwhile_not_all l c t :
  dropwhile p l = c :: t -> forallb p l = false.
Proof.
  induction l as [|a l IH]; [discriminate|]. simpl.
  destruct (p a) eqn:E; [exact IH|reflexivity].
Qed.
End TakeDrop.

Lemma strip_by_id (p : char -> bool) s :
  forallb (fun c => negb (p c)) s = true -> rstrip_by p (lstrip_by p s) = s.
Proof.
  intros H. unfold rstrip_by, lstrip_by.
  assert (Hd : forall l, forallb (fun c => negb (p c)) l = true -> dropwhile p l = l).
  { intros [|c t]; [reflexivity|]. simpl. intros Hl. apply andb_prop in Hl as [Hc _].
    apply negb_true_iff in Hc. rewrite Hc. reflexivity. }
  rewrite (Hd s H). rewrite Hd; [apply rev_involutive|].
  rewrite forallb_forall in *. intros c Hc. apply H. apply in_rev. exact Hc.
Qed.

Lemma amount_ascii_spec c :
  amount_ascii c = true <-> ((48 <= c <= 57)%N \/ c = 46%N \/ c = 45%N \/ c = 63%N).
Proof.
  unfold amount_ascii. rewrite orb_true_iff, claimed_amount_char_spec, N.eqb_eq.
  change (ch "?") with 63%N. tauto.
Qed.

Lemma to_ascii_id a : forallb amount_ascii a = true -> to_ascii a = a.
Proof.
  induction a as [|c a IH]; [reflexivity|]. cbn [forallb to_ascii]. intros H.
  apply andb_prop in H as [Hc H]. apply amount_ascii_spec in Hc.
  destruct (N.ltb_spec c 127); [|lia]. rewrite IH by exact H. reflexivity.
Qed.

Lemma drop_underscores_none s : forall prev,
  prev <> ch "_" -> forallb amount_ascii s = true ->
  drop_underscores prev s = Some s.
Proof.
  induction s as [|c s IH]; intros prev Hp H; cbn [drop_underscores].
  - destruct (N.eqb_spec prev (ch "_")); [congruence|reflexivity].
  - cbn [forallb] in H. apply andb_prop in H as [Hc H].
    apply amount_ascii_spec in Hc. change (ch "_") with 95%N in *.
    destruct (N.eqb_spec c 95); [lia|].
    destruct (N.eqb_spec prev 95); [congruence|]. cbn [andb].
    rewrite IH by assumption. reflexivity.
Qed.

Lemma parse_special_amount neg s :
  forallb amount_ascii s = true -> parse_special neg s = None.
Proof.
  intros H. unfold parse_special.
  assert (Hne : forall w, w <> [] -> (forall c t, w = c :: t -> (97 <= c)%N) ->
                  str_eqb (List.map lower s) w = false).
  { intros w Hw Hhd. destruct (str_eqb _ w) eqn:E; [|reflexivity].
    apply str_eqb_eq in E. destruct s as [|c t]; [exfalso; apply Hw; symmetry; exact E|].
    cbn [forallb] in H. apply andb_prop in H as [Hc _]. apply amount_ascii_spec in Hc.
    simpl in E. specialize (Hhd _ _ (eq_sym E)).
    unfold lower in Hhd. destruct (in_range c (65, 90)%N) eqn:Er.
    - apply in_range_spec in Er. lia.
    - lia. }
  rewrite !Hne; try discriminate; try (intros c t [= <- _]; lia). reflexivity.
Qed.

Lemma head_not_digit_not_exp c t s :
  dropwhile is_ascii_digit s = c :: t -> forallb amount_ascii s = true ->
  (c = 46 \/ c = 45 \/ c = 63)%N.
Proof.
  intros Hd Ha. pose proof (dropwhile_head _ _ _ _ Hd) as Hc.
  pose proof (forallb_dropwhile is_ascii_digit amount_ascii s Ha) as Ht.
  rewrite Hd in Ht. cbn [forallb] in Ht. apply andb_prop in Ht as [Ht _].
  apply amount_ascii_spec in Ht.
  destruct Ht as [Ht|Ht]; [|exact Ht].
  apply is_ascii_digit_spec in Ht. congruence.
Qed.

(** On the alphabet of amounts, [float] reads signed decimal numbers and
    nothing else. *)
Lemma parse_number_amount body :
  forallb amount_ascii body = true ->
  parse_number body = unsigned_decimal body.
Proof.
  intros Ha. unfold parse_number, unsigned_decimal. cbv zeta.
  destruct (dropwhile is_ascii_digit body) as [|c r] eqn:Ed.
  - rewrite orb_false_r. destruct (nonempty _); [rewrite app_nil_r|]; reflexivity.
  - pose proof (head_not_digit_not_exp _ _ _ Ed Ha) as Hc.
    pose proof (forallb_dropwhile is_ascii_digit amount_ascii body Ha) as Hr.
    rewrite Ed in Hr. cbn [forallb] in Hr. apply andb_prop in Hr as [_ Hr].
    change (ch ".") with 46%N. change (ch "e") with 101%N. change (ch "E") with 69%N.
    destruct (N.eqb_spec c 46) as [->|Hne].
    + cbn [andb]. destruct (forallb is_ascii_digit r) eqn:Hall.
      * rewrite (takewhile_all _ r Hall), (dropwhile_all _ r Hall). cbn [andb].
        destruct (nonempty _ || nonempty r)%bool; reflexivity.
      * cbn [andb].
        destruct (dropwhile is_ascii_digit r) as [|c' r'] eqn:Ed'.
        { pose proof (take_drop is_ascii_digit r) as Htd. rewrite Ed', app_nil_r in Htd.
          rewrite <- Htd, takewhile_forallb in Hall. discriminate. }
        pose proof (head_not_digit_not_exp _ _ _ Ed' Hr) as Hc'.
        destruct (N.eqb_spec c' 101); [lia|]. destruct (N.eqb_spec c' 69); [lia|].
        cbn [orb]. destruct (nonempty _ || nonempty _)%bool; reflexivity.
    + cbn [andb].
      destruct (N.eqb_spec c 101); [lia|]. destruct (N.eqb_spec c 69); [lia|].
      cbn [orb nonempty]. rewrite orb_false_r.
      destruct (nonempty _); reflexivity.
Qed.

Lemma signed_body_literal neg body :
  forallb amount_ascii body = true ->
  match parse_number body with
  | Some (c, e) => Some (LNum neg c e)
  | None => parse_special neg body
  end = literal_of (with_sign neg (unsigned_decimal body)).
Proof.
  intros Ha. rewrite (parse_number_amount body Ha).
  destruct (unsigned_decimal body) as [[c e]|]; [reflexivity|].
  apply parse_special_amount; exact Ha.
Qed.

Lemma float_literal_amount k a :
  to_ascii k = a -> forallb amount_ascii a = true ->
  float_literal k = literal_of (signed_decimal a).
Proof.
  intros Hk Ha. unfold float_literal. rewrite Hk.
  rewrite strip_by_id.
  2:{ rewrite forallb_forall in *. intros c Hc. specialize (Ha c Hc).
      apply amount_ascii_spec in Ha. apply negb_true_iff.
      unfold c_isspace. apply orb_false_iff. split.
      - destruct (in_range c (9, 13)%N) eqn:E; [|reflexivity].
        apply in_range_spec in E. lia.
      - apply N.eqb_neq. lia. }
  rewrite drop_underscores_none by (exact Ha || discriminate).
  unfold signed_decimal, take_sign.
  destruct a as [|c t].
  - reflexivity.
  - cbn [forallb] in Ha. apply andb_prop in Ha as [Hc Ht].
    pose proof Hc as Hc'. apply amount_ascii_spec in Hc'.
    change (ch "-") with 45%N. change (ch "+") with 43%N.
    destruct (N.eqb_spec c 45) as [->|Hm].
    + apply signed_body_literal; exact Ht.
    + destruct (N.eqb_spec c 43); [lia|].
      apply signed_body_literal. cbn [forallb]. rewrite Hc, Ht. reflexivity.
Qed.

Lemma signed_decimal_alphabet s v :
  signed_decimal s = Some v -> forallb claimed_amount_char s = true.
Proof.
  assert (Hdig : forall l, forallb is_ascii_digit l = true ->
                   forallb claimed_amount_char l = true).
  { intros l Hl. rewrite forallb_forall in *. intros c Hc.
    unfold claimed_amount_char. rewrite (Hl c Hc). reflexivity. }
  assert (Hbody : forall neg body,
            with_sign neg (unsigned_decimal body) = Some v ->
            forallb claimed_amount_char body = true).
  { intros neg body. unfold unsigned_decimal. cbv zeta. intros H.
    rewrite <- (take_drop is_ascii_digit body), forallb_app.
    rewrite (Hdig _ (takewhile_forallb _ _)). cbn [andb].
    destruct (dropwhile is_ascii_digit body) as [|c fp]; [reflexivity|].
    destruct (N.eqb_spec c (ch ".")) as [->|]; [|discriminate]. cbn [andb] in H.
    destruct (forallb is_ascii_digit fp) eqn:Hfp; [|discriminate].
    cbn [forallb]. rewrite (Hdig _ Hfp). reflexivity. }
  unfold signed_decimal. destruct s as [|c t]; [discriminate|].
  destruct (N.eqb_spec c (ch "-")) as [->|].
  - intros H. apply Hbody in H. cbn [forallb]. rewrite H. reflexivity.
  - apply Hbody.
Qed.

Lemma to_ascii_kept k :
  forallb amount_char k = true ->
  match ascii_digits k with
  | Some a => to_ascii k = a /\ forallb claimed_amount_char a = true
  | None => exists p, to_ascii k = p ++ [ch "?"] /\ forallb claimed_amount_char p = true
  end.
Proof.
  induction k as [|c k IH]; [split; reflexivity|].
  cbn [forallb]. intros H. apply andb_prop in H as [Hc Hk]. specialize (IH Hk).
  cbn [ascii_digits to_ascii].
  destruct (N.ltb_spec c 127) as [Hlt|Hge].
  - rewrite (amount_char_ascii c Hlt) in Hc.
    destruct (ascii_digits k) as [a|].
    + destruct IH as [-> Ha]. cbn [option_map forallb]. rewrite Hc, Ha. split; reflexivity.
    + destruct IH as (p & -> & Hp). cbn [option_map]. exists (c :: p).
      cbn [forallb]. rewrite Hc, Hp. split; reflexivity.
  - rewrite (amount_char_not_space c Hc).
    destruct (decimal_value c) as [d|] eqn:Ed.
    + pose proof (decimal_value_bound _ _ Ed) as Hd.
      assert (Hcl : claimed_amount_char (48 + d)%N = true).
      { apply claimed_amount_char_spec. lia. }
      destruct (ascii_digits k) as [a|].
      * destruct IH as [-> Ha]. cbn [option_map forallb]. rewrite Hcl, Ha. split; reflexivity.
      * destruct IH as (p & -> & Hp). cbn [option_map]. exists ((48 + d)%N :: p).
        cbn [forallb]. rewrite Hcl, Hp. split; reflexivity.
    + exists []. split; reflexivity.
Qed.

Lemma claimed_amount_ascii l :
  forallb claimed_amount_char l = true -> forallb amount_ascii l = true.
Proof.
  intros H. rewrite forallb_forall in *. intros c Hc. unfold amount_ascii.
  rewrite (H c Hc). reflexivity.
Qed.

Lemma ascii_digits_id a :
  forallb claimed_amount_char a = true -> ascii_digits a = Some a.
Proof.
  induction a as [|c a IH]; [reflexivity|]. cbn [forallb ascii_digits]. intros H.
  apply andb_prop in H as [Hc H]. apply claimed_amount_char_spec in Hc.
  destruct (N.ltb_spec c 127); [|lia]. rewrite IH by exact H. reflexivity.
Qed.


Section SafeFloat.
Context {F : Type} `{Arith F}.

Lemma forallb_filter {A} (p : A -> bool) l : forallb p (filter p l) = true.
Proof.
  rewrite forallb_forall. intros a Ha. apply filter_In in Ha as [_ Ha]. exact Ha.
Qed.

Lemma safe_float_normalize x : safe_float x = Ok (normalize_amount x).
Proof.
  unfold safe_float, normalize_amount.
  rewrite filter_strip by apply amount_char_not_space.
  pose proof (forallb_filter amount_char x) as Hk.
  destruct (filter amount_char x) as [|c k] eqn:Ek; [reflexivity|].
  cbn [nonempty negb]. unfold py_float.
  pose proof (to_ascii_kept _ Hk) as Hto.
  destruct (ascii_digits (c :: k)) as [a|].
  - destruct Hto as [Hto Ha].
    rewrite (float_literal_amount _ a Hto (claimed_amount_ascii a Ha)).
    unfold decimal_or_zero.
    destruct (signed_decimal a) as [[[neg cf] e]|]; reflexivity.
  - destruct Hto as (p & Hto & Hp).
    rewrite (float_literal_amount _ _ Hto).
    + destruct (signed_decimal (p ++ [ch "?"])) as [v|] eqn:Es; [|reflexivity].
      apply signed_decimal_alphabet in Es. rewrite forallb_app in Es.
      apply andb_prop in Es as [_ Es]. discriminate Es.
    + rewrite forallb_app, (claimed_amount_ascii p Hp). reflexivity.
Qed.

Lemma normalize_amount_ascii x :
  ascii_digits_only x = true -> normalize_amount x = normalize_amount_claimed x.
Proof.
  intros Hx. unfold normalize_amount, normalize_amount_claimed.
  assert (Hf : filter amount_char x = filter claimed_amount_char x).
  { apply filter_ext_in. intros c Hc. unfold ascii_digits_only in Hx.
    rewrite forallb_forall in Hx. specialize (Hx c Hc).
    unfold amount_char, claimed_amount_char. f_equal. f_equal.
    destruct (isdigit c) eqn:Ed; cbn [implb] in Hx; [congruence|].
    destruct (is_ascii_digit c) eqn:Ea; [|reflexivity].
    apply ascii_digit_isdigit in Ea. congruence. }
  rewrite Hf, ascii_digits_id by apply forallb_filter. reflexivity.
Qed.

End SafeFloat.

(** C1 (amended). For every input text, [safe_float] keeps the characters
    for which [str.isdigit] holds - the ASCII digits and the digit
    characters of other scripts -, [.] and [-], in their order, and reads
    the result as a signed decimal number in which a decimal digit of any
    script counts as its ASCII digit; when nothing is kept, when a kept
    digit character has no decimal value, or when what is kept is not a
    number, the result is 0.0; the function never raises.  On a text none
    of whose digit characters lies outside ASCII this is the number claimed:
    keep the ASCII digits, [.] and [-], parse, default to 0.0.  The five
    examples evaluate as stated. *)
Theorem C1_safe_float_normalization {F : Type} `{Arith F} (x : pystr) :
  safe_float x = Ok (normalize_amount x)
  /\ (ascii_digits_only x = true -> safe_float x = Ok (normalize_amount_claimed x))
  /\ safe_float (rupee :: str "500.00") = Ok (flit 500 : spec_float)
  /\ safe_float (str "$1,234.50") = Ok (B64.of_dec false 12345 (-1))
  /\ safe_float (str " 300 ") = Ok (flit 300 : spec_float)
  /\ safe_float (str "") = Ok (flit 0 : spec_float)
  /\ safe_float (str "abc") = Ok (flit 0 : spec_float).
Proof.
  split; [apply safe_float_normalize|]. split.
  - intros Hx. rewrite safe_float_normalize, normalize_amount_ascii by exact Hx.
    reflexivity.
  - repeat split; vm_compute; reflexivity.
Qed.

Lemma C1_safe_float_witness :
  safe_float (str "$1,234.50")
  = Ok (normalize_amount_claimed (F:=spec_float) (str "$1,234.50")).
Proof.
  apply (proj1 (proj2 (C1_safe_float_normalization (F:=spec_float) (str "$1,234.50")))).
  vm_compute. reflexivity.
Defined.

(** C1 as stated fails: the Arabic-Indic digit three (U+0663) is no ASCII
    digit, yet [safe_float] keeps it and returns 3.0 where the claim
    gives 0.0. *)
Lemma C1_counterexample :
  safe_float [1635%N] = Ok (flit 3 : spec_float)
  /\ normalize_amount_claimed [1635%N] = (flit 0 : spec_float)
  /\ safe_float [1635%N] <> Ok (normalize_amount_claimed (F:=spec_float) [1635%N]).
Proof.
  repeat split; try (vm_compute; reflexivity).
  vm_compute. intros E. discriminate E.
Qed.

(* ===================================================================== *)
(** * Month keys *)
(* ===================================================================== *)

Lemma mapM_py_int_all segs :
  forallb is_int segs = true -> mapM py_int segs = Ok (List.map int_value segs).
Proof.
  induction segs as [|p segs IH]; [reflexivity|].
  cbn [forallb mapM List.map]. unfold is_int at 1, int_value at 1.
  destruct (py_int p) as [v|]; [|discriminate]. cbn [andb bind].
  intros Hs. rewrite IH by exact Hs. reflexivity.
Qed.

Lemma mapM_py_int_some segs :
  forallb is_int segs = false -> exists e, mapM py_int segs = Raise e.
Proof.
  induction segs as [|p segs IH]; [discriminate|].
  cbn [forallb mapM]. unfold is_int at 1.
  destruct (py_int p) as [v|e]; [|exists e; reflexivity]. cbn [andb bind].
  intros Hs. destruct (IH Hs) as [e ->]. exists e. reflexivity.
Qed.

(** The function never raises: it is the cascade of its three stages. *)
Lemma date_to_month_key_stages (fromisoformat : pystr -> result (Z * Z)) (s : pystr) :
  date_to_month_key fromisoformat s
  = Ok (month_key_stages split_stage fromisoformat s).
Proof.
  unfold date_to_month_key, month_key_stages, key_of_result, or_else.
  destruct (strptime_ymd s) as [d|e1]; [reflexivity|].
  destruct (fromisoformat s) as [d|e2]; [reflexivity|].
  unfold split_stage.
  destruct (forallb is_int _) eqn:E.
  - rewrite (mapM_py_int_all _ E). cbn [bind try_except].
    destruct (List.map int_value _) as [|y [|m l]]; reflexivity.
  - destruct (mapM_py_int_some _ E) as [e3 ->]. reflexivity.
Qed.

(** C2 (amended). For every date string, [date_to_month_key] tries in
    order (1) strict YYYY-MM-DD parsing, (2) the interpreter's ISO-8601
    parsing, (3) splitting on [-], dropping the blank segments and
    converting every remaining segment to an integer, the first two being
    year and month when all of them convert and at least two remain;
    (4) otherwise the result is the no-key sentinel.  A later stage is
    tried only when the earlier ones fail, and the function never raises,
    whatever the ISO-8601 parser does.  The three examples evaluate as
    stated. *)
Theorem C2_month_key_stages (fromisoformat : pystr -> result (Z * Z)) (s : pystr) :
  date_to_month_key fromisoformat s
  = Ok (month_key_stages split_stage fromisoformat s)
  /\ date_to_month_key fromisoformat (str "2024-03-15") = Ok (Some (str "2024-03"))
  /\ date_to_month_key fromisoformat_ref (str "2024-03") = Ok (Some (str "2024-03"))
  /\ date_to_month_key fromisoformat_ref (str "not-a-date") = Ok None.
Proof.
  split; [apply date_to_month_key_stages|].
  repeat split; vm_compute; reflexivity.
Qed.

(** C2 as stated fails: in "2024-03-xx" two numeric segments come first,
    but the third one does not convert and no key is returned. *)
Lemma C2_counterexample :
  date_to_month_key fromisoformat_ref (str "2024-03-xx") = Ok None
  /\ month_key_stages split_stage_claimed fromisoformat_ref (str "2024-03-xx")
     = Some (str "2024-03")
  /\ date_to_month_key fromisoformat_ref (str "2024-03-xx")
     <> Ok (month_key_stages split_stage_claimed fromisoformat_ref (str "2024-03-xx")).
Proof.
  repeat split; try (vm_compute; reflexivity).
  vm_compute. intros E. discriminate E.
Qed.

(* ===================================================================== *)
(** * SIP calculator: rejection *)
(* ===================================================================== *)

(** C7 (amended). The SIP calculator answers with the input error and
    computes nothing whenever the monthly contribution, the annual rate
    or the years is not numeric, the contribution is negative or the
    years are not positive.  A goal that is not numeric is not an input
    error: it is ignored, and the calculator does what it does when the
    goal is left empty. *)
Theorem C7_sip_rejection {F : Type} `{Arith F} (monthly annual years goal : pystr) :
  (sip_rejected (F:=F) monthly annual years = true ->
   on_calculate monthly annual years goal = InvalidInput)
  /\ (numeric (F:=F) goal = false ->
      on_calculate monthly annual years goal = on_calculate monthly annual years []).
Proof.
  split.
  - unfold sip_rejected, on_calculate, sip_validate.
    destruct (py_float (strip monthly)) as [P|]; [|reflexivity].
    destruct (py_float (strip annual)) as [r|]; [|reflexivity].
    cbn [bind]. destruct (fdiv r (flit 100)) as [a|]; [|reflexivity].
    cbn [bind]. destruct (py_float (strip years)) as [y|]; [|reflexivity].
    cbn [bind]. intros ->. reflexivity.
  - unfold numeric, on_calculate. intros Hg.
    destruct (sip_validate _ _ _) as [[[P a] y]|]; [|reflexivity].
    destruct (bind _ _) as [[[n mr] fv]|]; [|reflexivity].
    f_equal. destruct (py_float (strip goal)); [discriminate|].
    destruct (nonempty (strip goal)); reflexivity.
Qed.

Lemma C7_sip_rejection_witness :
  on_calculate (F:=spec_float) (str "-5") (str "12") (str "1") [] = InvalidInput
  /\ on_calculate (F:=spec_float) (str "1000") (str "12") (str "1") (str "abc")
     = on_calculate (str "1000") (str "12") (str "1") [].
Proof.
  split.
  - apply (proj1 (C7_sip_rejection (F:=spec_float) (str "-5") (str "12") (str "1") [])).
    vm_compute. reflexivity.
  - apply (proj2 (C7_sip_rejection (F:=spec_float) (str "1000") (str "12") (str "1")
                    (str "abc"))).
    vm_compute. reflexivity.
Defined.

(** C7 as stated fails: with a goal that is not numeric the calculator
    signals no error and displays the projection. *)
Lemma C7_counterexample :
  numeric (F:=spec_float) (str "abc") = false
  /\ on_calculate (F:=spec_float) (str "1000") (str "12") (str "1") (str "abc")
     = Displayed 12 (B64.of_dec false 1 (-2))
         (S754_finite false 7042002563818687 (-39)) None
  /\ on_calculate (F:=spec_float) (str "1000") (str "12") (str "1") (str "abc")
     <> InvalidInput.
Proof.
  repeat split; try (vm_compute; reflexivity).
  vm_compute. intros E. discriminate E.
Qed.

(* ===================================================================== *)
(** * Facts about binary64 *)
(* ===================================================================== *)

Module B64Facts.

Lemma binary_round_aux_sign sx mx ex lx :
  sx = false -> sign_clear (binary_round_aux B64.prec B64.emax sx mx ex lx).
Proof.
  intros ->. unfold binary_round_aux.
  destruct (shr_fexp _ _ _ _ _) as [mrs e].
  destruct (shr_fexp _ _ _ _ _) as [mrs' e'].
  destruct (shr_m mrs'); [reflexivity| |exact I].
  destruct (Z.leb _ _); reflexivity.
Qed.

Lemma positive_cases y :
  SFltb (S754_zero false) y = true ->
  y = S754_infinity false \/ exists m e, y = S754_finite false m e.
Proof.
  destruct y as [s|s| |s m e]; cbn; try discriminate.
  - destruct s; [discriminate|auto].
  - destruct s; [discriminate|eauto].
Qed.

Lemma mul_positive_sign y m e :
  SFltb (S754_zero false) y = true ->
  sign_clear (SFmul B64.prec B64.emax y (S754_finite false m e)).
Proof.
  intros Hy. destruct (positive_cases y Hy) as [->|(my & ey & ->)].
  - reflexivity.
  - cbn [SFmul xorb]. apply binary_round_aux_sign. reflexivity.
Qed.

Lemma floor_to_int x : sign_clear x -> B64.floor x = B64.to_int x.
Proof. destruct x as [s|s| |s m e]; cbn; intros H; subst; reflexivity. Qed.

Lemma not_negative P :
  SFleb (S754_zero false) P = true -> SFltb P (S754_zero false) = false.
Proof. destruct P as [[|]|[|]| |[|] m e]; cbn; try reflexivity; discriminate. Qed.

Lemma positive_not_le y :
  SFltb (S754_zero false) y = true -> SFleb y (S754_zero false) = false.
Proof. destruct y as [[|]|[|]| |[|] m e]; cbn; try reflexivity; discriminate. Qed.

Lemma div_nonzero x c :
  B64.is_zero c = false -> B64.div x c = Ok (SFdiv B64.prec B64.emax x c).
Proof. unfold B64.div. intros ->. reflexivity. Qed.

End B64Facts.

(* ===================================================================== *)
(** * SIP calculator: future value *)
(* ===================================================================== *)

Lemma flit_12 : flit 12 = f12.
Proof. vm_compute. reflexivity. Qed.
Lemma flit_100 : flit 100 = f100.
Proof. vm_compute. reflexivity. Qed.
Lemma b64_flit_0 : flit 0 = S754_zero false.
Proof. reflexivity. Qed.

(** C4 (amended). For every monthly contribution P >= 0, annual rate r
    and number of years > 0 read from the dialog, when none of the
    operations below raises in Python, the calculator derives
    periods = floor(years * 12) and monthlyRate = r/100/12 and displays
    FV = P * periods when monthlyRate == 0 and
    FV = P * (((1+monthlyRate)^periods - 1) / monthlyRate) * (1+monthlyRate)
    otherwise, in binary64 arithmetic; when one of these operations
    raises, the handler raises likewise and displays nothing.  For
    P=1000, r=12, years=1: periods = 12, monthlyRate = 0.01 and FV lies
    within 0.005 of 12809.33; for r = 0, FV is P * periods. *)
Theorem C4_sip_future_value (monthly annual years goal : pystr) (P r y : spec_float) :
  py_float (strip monthly) = Ok P ->
  py_float (strip annual) = Ok r ->
  py_float (strip years) = Ok y ->
  fleb (flit 0) P = true ->
  fltb (flit 0) y = true ->
  match sip_spec P r y with
  | Ok (periods, monthlyRate, FV) =>
      exists req,
        on_calculate monthly annual years goal = Displayed periods monthlyRate FV req
  | Raise e => on_calculate (F:=spec_float) monthly annual years goal = Uncaught e
  end
  /\ (exists FV,
        on_calculate (str "1000") (str "12") (str "1") []
        = Displayed 12 (B64.of_dec false 1 (-2)) FV None
        /\ fltb (B64.of_dec false 12809325 (-3)) FV = true
        /\ fltb FV (B64.of_dec false 12809335 (-3)) = true)
  /\ on_calculate (str "1000") (str "0") (str "1") []
     = Displayed 12 (flit 0) (flit 12000 : spec_float) None
  /\ (forall n : Z, future_value P (flit 0) n = (k <- of_int n ;; Ok (fmul P k))).
Proof.
  intros HP Hr Hy HP0 Hy0. split; [|split; [|split]].
  - cbn [fleb fltb binary64] in HP0, Hy0. rewrite b64_flit_0 in HP0, Hy0.
    set (mr := SFdiv B64.prec B64.emax (SFdiv B64.prec B64.emax r f100) f12).
    assert (Hspec : sip_spec P r y
                    = (n <- B64.to_int (SFmul B64.prec B64.emax y f12) ;;
                       fv <- future_value P mr n ;; Ok (n, mr, fv))).
    { unfold sip_spec. cbn [fdiv fmul ffloor binary64].
      rewrite flit_12, flit_100.
      rewrite B64Facts.floor_to_int by (apply B64Facts.mul_positive_sign; exact Hy0).
      destruct (B64.to_int _) as [n|e]; cbn [bind]; [|reflexivity].
      rewrite (B64Facts.div_nonzero r f100) by reflexivity. cbn [bind].
      rewrite (B64Facts.div_nonzero _ f12) by reflexivity. reflexivity. }
    assert (Hcalc : on_calculate monthly annual years goal
                    = match (n <- B64.to_int (SFmul B64.prec B64.emax y f12) ;;
                             fv <- future_value P mr n ;; Ok (n, mr, fv)) with
                      | Ok (n, mr', fv) =>
                          Displayed n mr' fv
                            (if nonempty (strip goal) then
                               match (g <- py_float (strip goal) ;;
                                      required_monthly g mr' n) with
                               | Ok req => Some req
                               | Raise _ => None
                               end
                             else None)
                      | Raise e => Uncaught e
                      end).
    { unfold on_calculate, sip_validate.
      rewrite HP, Hr, Hy. cbn [bind]. cbn [fdiv fmul to_int fltb fleb binary64].
      rewrite flit_12, flit_100, b64_flit_0.
      rewrite (B64Facts.div_nonzero r f100) by reflexivity. cbn [bind].
      rewrite (B64Facts.not_negative P HP0), (B64Facts.positive_not_le y Hy0). cbn [orb].
      destruct (B64.to_int _) as [n|e]; cbn [bind]; [|reflexivity].
      rewrite (B64Facts.div_nonzero _ f12) by reflexivity. reflexivity. }
    rewrite Hspec.
    destruct (B64.to_int _) as [n|e]; cbn [bind] in *; [|exact Hcalc].
    destruct (future_value P mr n) as [fv|e]; cbn [bind] in *; [|exact Hcalc].
    eexists. exact Hcalc.
  - eexists. split; [vm_compute; reflexivity|]. split; vm_compute; reflexivity.
  - vm_compute. reflexivity.
  - intros n. reflexivity.
Qed.

Lemma C4_sip_future_value_witness :
  exists req,
    on_calculate (str "500") (str "8") (str "2.5") (str "20000")
    = Displayed 30 (S754_finite false 7686143364045647 (-60))
        (S754_finite false 4578015440044319 (-38)) req.
Proof.
  assert (H1 : py_float (strip (str "500")) = Ok (B64.of_dec false 500 0))
    by (vm_compute; reflexivity).
  assert (H2 : py_float (strip (str "8")) = Ok (B64.of_dec false 8 0))
    by (vm_compute; reflexivity).
  assert (H3 : py_float (strip (str "2.5")) = Ok (B64.of_dec false 25 (-1)))
    by (vm_compute; reflexivity).
  assert (H4 : fleb (flit 0) (B64.of_dec false 500 0) = true)
    by (vm_compute; reflexivity).
  assert (H5 : fltb (flit 0) (B64.of_dec false 25 (-1)) = true)
    by (vm_compute; reflexivity).
  pose proof (C4_sip_future_value (str "500") (str "8") (str "2.5") (str "20000")
                (B64.of_dec false 500 0) (B64.of_dec false 8 0)
                (B64.of_dec false 25 (-1))) as Hc.
  specialize (Hc H1). specialize (Hc H2). specialize (Hc H3).
  specialize (Hc H4). specialize (Hc H5). destruct Hc as [Hc _].
  assert (E : sip_spec (B64.of_dec false 500 0) (B64.of_dec false 8 0)
                (B64.of_dec false 25 (-1))
              = Ok (30, S754_finite false 7686143364045647 (-60),
                    S754_finite false 4578015440044319 (-38)))
    by (vm_compute; reflexivity).
  rewrite E in Hc. exact Hc.
Defined.

(** C4 as stated fails for inputs the dialog accepts: at 1200% a year
    over 100 years the power (1+1)^1200 is out of the range of binary64,
    and for an infinite number of years [int(years * 12)] has no value.
    Python raises OverflowError in both cases, outside the [try] of the
    handler: no future value is computed and nothing is displayed. *)
Lemma C4_counterexample :
  py_float (F:=spec_float) (strip (str "1")) = Ok (flit 1)
  /\ py_float (F:=spec_float) (strip (str "1200")) = Ok (flit 1200)
  /\ py_float (F:=spec_float) (strip (str "100")) = Ok (flit 100)
  /\ fleb (F:=spec_float) (flit 0) (flit 1) = true
  /\ fltb (F:=spec_float) (flit 0) (flit 100) = true
  /\ sip_spec (F:=spec_float) (flit 1) (flit 1200) (flit 100) = Raise OverflowError
  /\ on_calculate (F:=spec_float) (str "1") (str "1200") (str "100") []
     = Uncaught OverflowError
  /\ py_float (F:=spec_float) (strip (str "inf")) = Ok (S754_infinity false)
  /\ fltb (F:=spec_float) (flit 0) (S754_infinity false) = true
  /\ on_calculate (F:=spec_float) (str "1") (str "12") (str "inf") []
     = Uncaught OverflowError.
Proof. repeat split; vm_compute; reflexivity. Qed.

(* ===================================================================== *)
(** * Whole numbers in binary64 *)
(* ===================================================================== *)

Module B64Whole.

Lemma iter_pos_nat {A} (f : A -> A) p : forall x,
  SpecFloat.iter_pos f p x = Nat.iter (Pos.to_nat p) f x.
Proof.
  induction p as [p IH|p IH|]; intros x; cbn [SpecFloat.iter_pos].
  - rewrite !IH, Pos2Nat.inj_xI, <- Nat.iter_add, <- Nat.iter_succ_r.
    f_equal. lia.
  - rewrite !IH, Pos2Nat.inj_xO, <- Nat.iter_add. f_equal. lia.
  - reflexivity.
Qed.

Lemma shl_shl m a b : shl (shl m a) b = shl m (a + b).
Proof. unfold shl. rewrite Nat.add_comm. symmetry. apply Nat.iter_add. Qed.

Lemma pos_iter_shl m p : Pos.iter xO m p = shl m (Pos.to_nat p).
Proof. apply Pos2Nat.inj_iter. Qed.

Lemma shl_value m n : Zpos (shl m n) = Zpos m * 2 ^ Z.of_nat n.
Proof.
  induction n as [|n IH]; [cbn; lia|].
  unfold shl in *. rewrite Nat.iter_succ.
  change (Zpos (Nat.iter n xO m)~0) with (2 * Zpos (Nat.iter n xO m)). rewrite IH.
  rewrite Nat2Z.inj_succ, Z.pow_succ_r by lia. lia.
Qed.

Lemma shl_digits m n :
  Zpos (digits2_pos (shl m n)) = Zpos (digits2_pos m) + Z.of_nat n.
Proof.
  induction n as [|n IH]; [cbn; lia|].
  unfold shl in *. rewrite Nat.iter_succ. cbn [digits2_pos].
  rewrite Pos2Z.inj_succ, IH. lia.
Qed.

(** Shifting right over zero bits loses nothing. *)
Lemma shr_shl m n :
  Nat.iter n shr_1 {| shr_m := Zpos (shl m n); shr_r := false; shr_s := false |}
  = {| shr_m := Zpos m; shr_r := false; shr_s := false |}.
Proof.
  induction n as [|n IH]; [reflexivity|].
  rewrite Nat.iter_succ_r. unfold shl. rewrite Nat.iter_succ. exact IH.
Qed.

Lemma digits_lower m : 2 ^ (Zpos (digits2_pos m) - 1) <= Zpos m.
Proof.
  induction m as [m IH|m IH|]; cbn [digits2_pos]; [| |cbn; lia].
  - rewrite Pos2Z.inj_succ. change (Zpos m~1) with (2 * Zpos m + 1).
    replace (Z.succ (Zpos (digits2_pos m)) - 1)
      with (Z.succ (Zpos (digits2_pos m) - 1)) by lia.
    rewrite Z.pow_succ_r by lia. lia.
  - rewrite Pos2Z.inj_succ. change (Zpos m~0) with (2 * Zpos m).
    replace (Z.succ (Zpos (digits2_pos m)) - 1)
      with (Z.succ (Zpos (digits2_pos m) - 1)) by lia.
    rewrite Z.pow_succ_r by lia. lia.
Qed.

Lemma digits_small m : Zpos m < 2 ^ 53 -> Zpos (digits2_pos m) <= 53.
Proof.
  intros Hm. destruct (Z.le_gt_cases (Zpos (digits2_pos m)) 53) as [H|H]; [exact H|].
  exfalso. pose proof (digits_lower m) as Hl.
  assert (2 ^ 53 <= 2 ^ (Zpos (digits2_pos m) - 1))
    by (apply Z.pow_le_mono_r; lia).
  lia.
Qed.

Section Round.
Variable s : bool.
Variable m : positive.
Hypothesis small : Zpos (digits2_pos m) <= 53.

Lemma fexp_digits :
  fexp B64.prec B64.emax (Zpos (digits2_pos m)) = Zpos (digits2_pos m) - 53.
Proof. unfold fexp, emin, B64.prec, B64.emax. lia. Qed.

Lemma shr_fexp_exact k :
  (fill m <= k)%nat ->
  shr_fexp B64.prec B64.emax (Zpos (shl m k)) (- Z.of_nat k) loc_Exact
  = ({| shr_m := Zpos (shl m (fill m)); shr_r := false; shr_s := false |},
     Zpos (digits2_pos m) - 53).
Proof.
  intros Hk. unfold shr_fexp. cbn [Zdigits2 shr_record_of_loc].
  rewrite shl_digits.
  replace (Zpos (digits2_pos m) + Z.of_nat k + - Z.of_nat k)
    with (Zpos (digits2_pos m)) by lia.
  rewrite fexp_digits. unfold shr.
  destruct (Zpos (digits2_pos m) - 53 - - Z.of_nat k) as [|p|p] eqn:En.
  - f_equal; [|lia]. f_equal. f_equal. f_equal. unfold fill. lia.
  - rewrite iter_pos_nat.
    replace k with (fill m + Pos.to_nat p)%nat by (unfold fill; lia).
    rewrite <- shl_shl, shr_shl. f_equal. unfold fill. lia.
  - unfold fill in Hk. lia.
Qed.

Lemma round_aux_exact k :
  (fill m <= k)%nat ->
  binary_round_aux B64.prec B64.emax s (Zpos (shl m k)) (- Z.of_nat k) loc_Exact
  = S754_finite s (shl m (fill m)) (Zpos (digits2_pos m) - 53).
Proof.
  intros Hk. unfold binary_round_aux. rewrite (shr_fexp_exact k Hk).
  cbn [shr_m loc_of_shr_record round_nearest_even].
  replace (Zpos (digits2_pos m) - 53) with (- Z.of_nat (fill m)) at 1
    by (unfold fill; lia).
  rewrite (shr_fexp_exact (fill m) (le_n _)). cbn [shr_m].
  destruct (Z.leb_spec (Zpos (digits2_pos m) - 53) (B64.emax - B64.prec)) as [_|H];
    [reflexivity|].
  unfold B64.emax, B64.prec in H. lia.
Qed.

(** Rounding [m * 2^k] at the exponent [-k] gives [m], whatever [k]. *)
Lemma round_exact k :
  binary_round B64.prec B64.emax s (shl m k) (- Z.of_nat k)
  = S754_finite s (shl m (fill m)) (Zpos (digits2_pos m) - 53).
Proof.
  unfold binary_round. rewrite shl_digits.
  replace (Zpos (digits2_pos m) + Z.of_nat k + - Z.of_nat k)
    with (Zpos (digits2_pos m)) by lia.
  rewrite fexp_digits. unfold shl_align.
  destruct (Zpos (digits2_pos m) - 53 - - Z.of_nat k) as [|p|p] eqn:En.
  - apply round_aux_exact. unfold fill. lia.
  - apply round_aux_exact. unfold fill. lia.
  - rewrite pos_iter_shl, shl_shl.
    replace (Zpos (digits2_pos m) - 53) with (- Z.of_nat (k + Pos.to_nat p)) at 1
      by lia.
    apply round_aux_exact. unfold fill. lia.
Qed.

End Round.

(** The float of a whole number of at most 53 bits. *)
Lemma whole_pos m :
  Zpos m < 2 ^ 53 ->
  whole (Zpos m)
  = S754_finite false (shl m (Z.to_nat (53 - Zpos (digits2_pos m))))
      (Zpos (digits2_pos m) - 53).
Proof.
  intros Hm. unfold whole. cbn [binary_normalize].
  apply (round_exact false m (digits_small m Hm) 0).
Qed.

Lemma whole_neg m :
  Zpos m < 2 ^ 53 ->
  whole (Zneg m)
  = S754_finite true (shl m (Z.to_nat (53 - Zpos (digits2_pos m))))
      (Zpos (digits2_pos m) - 53).
Proof.
  intros Hm. unfold whole. cbn [binary_normalize].
  apply (round_exact true m (digits_small m Hm) 0).
Qed.

(** Normalizing [z * 2^k] at the exponent [-k] gives the float of [z]. *)
Lemma normalize_whole z k :
  Z.abs z < 2 ^ 53 ->
  binary_normalize B64.prec B64.emax (z * 2 ^ Z.of_nat k) (- Z.of_nat k) false
  = whole z.
Proof.
  intros Hz. destruct z as [|m|m].
  - reflexivity.
  - rewrite whole_pos by exact Hz. rewrite <- shl_value. cbn [binary_normalize].
    apply round_exact, digits_small. exact Hz.
  - rewrite whole_neg by exact Hz.
    replace (Zneg m * 2 ^ Z.of_nat k) with (Zneg (shl m k))
      by (rewrite <- !Pos2Z.opp_pos, shl_value; lia).
    cbn [binary_normalize]. apply round_exact, digits_small. exact Hz.
Qed.

(** The mantissa of a whole number brought to a lower exponent. *)
Lemma align_whole m (ez : Z) :
  Zpos (digits2_pos m) <= 53 -> ez <= Zpos (digits2_pos m) - 53 ->
  fst (shl_align (shl m (Z.to_nat (53 - Zpos (digits2_pos m))))
         (Zpos (digits2_pos m) - 53) ez)
  = shl m (Z.to_nat (- ez)).
Proof.
  intros Hd He. unfold shl_align.
  destruct (ez - (Zpos (digits2_pos m) - 53)) as [|p|p] eqn:E; cbn [fst].
  - f_equal. lia.
  - lia.
  - rewrite pos_iter_shl, shl_shl. f_equal. lia.
Qed.

Lemma whole_finite z :
  z <> 0 -> Z.abs z < 2 ^ 53 ->
  whole z
  = S754_finite (Z.ltb z 0)
      (shl (Z.to_pos (Z.abs z))
         (Z.to_nat (53 - Zpos (digits2_pos (Z.to_pos (Z.abs z))))))
      (Zpos (digits2_pos (Z.to_pos (Z.abs z))) - 53).
Proof.
  destruct z as [|m|m]; intros Hz Hm; [contradiction| |].
  - apply whole_pos. exact Hm.
  - apply whole_neg. exact Hm.
Qed.

Lemma cond_shl z k :
  z <> 0 ->
  cond_Zopp (Z.ltb z 0) (Zpos (shl (Z.to_pos (Z.abs z)) k)) = z * 2 ^ Z.of_nat k.
Proof.
  destruct z as [|m|m]; intros Hz; [contradiction| |];
    cbn [Z.ltb Z.compare Z.abs Z.to_pos cond_Zopp]; rewrite shl_value.
  - reflexivity.
  - change (Zneg m) with (- Zpos m). lia.
Qed.

(** Whole numbers add exactly as long as the sum has at most 53 bits. *)
Lemma add_whole a b :
  Z.abs a < 2 ^ 53 -> Z.abs b < 2 ^ 53 -> Z.abs (a + b) < 2 ^ 53 ->
  SFadd B64.prec B64.emax (whole a) (whole b) = whole (a + b).
Proof.
  intros Ha Hb Hab.
  destruct (Z.eq_dec a 0) as [->|Na].
  { rewrite Z.add_0_l. destruct (Z.eq_dec b 0) as [->|Nb]; [reflexivity|].
    rewrite (whole_finite b Nb Hb). reflexivity. }
  destruct (Z.eq_dec b 0) as [->|Nb].
  { rewrite Z.add_0_r, (whole_finite a Na Ha). reflexivity. }
  rewrite (whole_finite a Na Ha), (whole_finite b Nb Hb).
  assert (Da : Zpos (digits2_pos (Z.to_pos (Z.abs a))) <= 53)
    by (apply digits_small; lia).
  assert (Db : Zpos (digits2_pos (Z.to_pos (Z.abs b))) <= 53)
    by (apply digits_small; lia).
  cbn [SFadd].
  set (ez := Z.min (Zpos (digits2_pos (Z.to_pos (Z.abs a))) - 53)
               (Zpos (digits2_pos (Z.to_pos (Z.abs b))) - 53)).
  rewrite (align_whole _ ez Da), (align_whole _ ez Db) by (unfold ez; lia).
  rewrite (cond_shl a _ Na), (cond_shl b _ Nb), <- Z.mul_add_distr_r.
  set (K := Z.to_nat (- ez)).
  assert (Ez : ez = - Z.of_nat K) by (unfold K, ez; lia).
  rewrite Ez. apply normalize_whole. exact Hab.
Qed.









End B64Whole.

(* ===================================================================== *)
(** * SIP calculator: the goal inverts the future value *)
(* ===================================================================== *)

Module ExactFacts.
Open Scope Q_scope.






End ExactFacts.

Section Goal.
Context {F : Type} `{Arith F}.


(** The future value is the contribution times the same factor, up to
    the order of the multiplications. *)
Lemma future_value_factor (P mr : F) (periods : Z) :
  future_value P mr periods
  = if feqb mr (flit 0) then n <- of_int periods ;; Ok (fmul P n)
    else
      pw <- fpow (fadd (flit 1) mr) periods ;;
      q <- fdiv (fsub pw (flit 1)) mr ;;
      Ok (fmul (fmul P q) (fadd (flit 1) mr)).
Proof. reflexivity. Qed.

End Goal.




(** Through the handler: 1000 a month at 0% over a year, and the goal
    of 12000. *)
Example goal_at_zero_rate :
  on_calculate (F:=spec_float) (str "1000") (str "0") (str "1") (str "12000")
  = Displayed 12 (flit 0) (whole 12000) (Some (whole 1000)).
Proof. vm_compute. reflexivity. Qed.


(* ===================================================================== *)
(** * Facts about the aggregation *)
(* ===================================================================== *)

Section Aggregation.
Context {F : Type} `{Arith F}.
Variable fromisoformat : pystr -> result (Z * Z).
Variable now : pystr.

Lemma safe_float_amount r : safe_float (Amount r) = Ok (amount_of r).
Proof.
  unfold amount_of. rewrite safe_float_normalize. reflexivity.
Qed.

Lemma month_key_of r :
  exists k, date_to_month_key fromisoformat (Date r) = Ok k
            /\ key_or k now = month_of fromisoformat now r.
Proof.
  unfold month_of.
  rewrite (date_to_month_key_stages fromisoformat (Date r)).
  eexists. split; reflexivity.
Qed.

(** The loop never raises; it folds the rows into the three tables. *)
Lemma aggregate_fold expenses : forall acc,
  aggregate fromisoformat now expenses acc
  = Ok {| category_totals := fold_left add_category expenses (category_totals acc);
          month_totals :=
            fold_left (add_month fromisoformat now) expenses (month_totals acc);
          month_category :=
            fold_left (add_month_category fromisoformat now) expenses
              (month_category acc) |}.
Proof.
  induction expenses as [|r rest IH]; intros acc.
  - destruct acc; reflexivity.
  - cbn [aggregate fold_left]. rewrite safe_float_amount. cbn [bind].
    destruct (month_key_of r) as (k & -> & Hk). cbn [bind].
    rewrite IH. cbn [category_totals month_totals month_category].
    rewrite Hk. reflexivity.
Qed.

(** Keys of a table after an addition. *)
Lemma dict_add_keys k a (d : totals F) :
  List.map fst (dict_add k a d)
  = if existsb (str_eqb k) (List.map fst d) then List.map fst d
    else List.map fst d ++ [k].
Proof.
  induction d as [|[k' v] d IH]; [reflexivity|].
  cbn [dict_add List.map fst existsb].
  destruct (str_eqb k k'); [reflexivity|].
  cbn [List.map fst orb]. rewrite IH.
  destruct (existsb _ _); reflexivity.
Qed.

Lemma first_seen_ext ks : forall s1 s2,
  (forall k, existsb (str_eqb k) s1 = existsb (str_eqb k) s2) ->
  first_seen ks s1 = first_seen ks s2.
Proof.
  induction ks as [|k ks IH]; intros s1 s2 Hs; [reflexivity|].
  cbn [first_seen]. rewrite (Hs k).
  destruct (existsb _ s2); [apply IH; exact Hs|].
  f_equal. apply IH. intros k'. cbn [existsb]. rewrite Hs. reflexivity.
Qed.

Lemma existsb_snoc k (l : list pystr) x :
  existsb (str_eqb k) (l ++ [x]) = (str_eqb k x || existsb (str_eqb k) l)%bool.
Proof.
  rewrite existsb_app. cbn [existsb]. rewrite orb_false_r. apply orb_comm.
Qed.

Lemma fold_keys (key : row -> pystr) (add : totals F -> row -> totals F) :
  (forall t r, add t r = dict_add (key r) (amount_of r) t) ->
  forall expenses t,
    List.map fst (fold_left add expenses t)
    = List.map fst t ++ first_seen (List.map key expenses) (List.map fst t).
Proof.
  intros Hadd. induction expenses as [|r rest IH]; intros t.
  - cbn. rewrite app_nil_r. reflexivity.
  - cbn [fold_left List.map first_seen]. rewrite IH, Hadd, dict_add_keys.
    destruct (existsb (str_eqb (key r)) (List.map fst t)) eqn:E; [reflexivity|].
    rewrite <- app_assoc. cbn [app]. f_equal. f_equal.
    apply first_seen_ext. intros k. rewrite existsb_snoc. reflexivity.
Qed.

End Aggregation.

(* ===================================================================== *)
(** * Sums and buckets *)
(* ===================================================================== *)

Lemma str_eqb_refl a : str_eqb a a = true.
Proof. apply str_eqb_eq. reflexivity. Qed.

Lemma str_eqb_sym a b : str_eqb a b = str_eqb b a.
Proof.
  destruct (str_eqb a b) eqn:E1, (str_eqb b a) eqn:E2; try reflexivity.
  - apply str_eqb_eq in E1. subst. rewrite str_eqb_refl in E2. discriminate.
  - apply str_eqb_eq in E2. subst. rewrite str_eqb_refl in E1. discriminate.
Qed.

Lemma str_eqb_trans_false a b c :
  str_eqb a b = true -> str_eqb a c = str_eqb b c.
Proof. intros E. apply str_eqb_eq in E. subst. reflexivity. Qed.

Lemma existsb_str_In k (l : list pystr) : existsb (str_eqb k) l = true <-> In k l.
Proof.
  rewrite existsb_exists. split.
  - intros (x & Hx & E). apply str_eqb_eq in E. subst. exact Hx.
  - intros Hk. exists k. split; [exact Hk|apply str_eqb_refl].
Qed.

Section Sums.
Context {F : Type} `{Arith F}.

Lemma sum_from_fold (vs : list F) : forall acc,
  sum_from acc vs = fold_left fadd vs acc.
Proof.
  induction vs as [|v vs IH]; intros acc; [reflexivity|].
  cbn [sum_from fold_left]. apply IH.
Qed.

(** [sum(values)] is the values added from the left, starting from 0. *)
Lemma fsum_total (vs : list F) : fsum vs = total vs.
Proof. unfold fsum, total. symmetry. apply sum_from_fold. Qed.

End Sums.

Section Buckets.
Context {F : Type} `{Arith F}.

(** What one addition does to the total of bucket [k]. *)
Lemma get_dict_add k k' a (d : totals F) :
  get_or k (dict_add k' a d) (flit 0)
  = if str_eqb k' k then fadd (get_or k d (flit 0)) a else get_or k d (flit 0).
Proof.
  unfold get_or. induction d as [|[k0 v] d IH]; cbn [dict_add dict_lookup].
  - rewrite (str_eqb_sym k k'). destruct (str_eqb k' k); reflexivity.
  - destruct (str_eqb k' k0) eqn:E0; cbn [dict_lookup].
    + rewrite (str_eqb_trans_false _ _ k E0), (str_eqb_sym k k0).
      destruct (str_eqb k0 k); reflexivity.
    + destruct (str_eqb k k0) eqn:E1.
      * apply str_eqb_eq in E1. subst k0. rewrite E0. reflexivity.
      * exact IH.
Qed.

(** The total of bucket [k] after the rows: the amounts of its rows
    added onto what it held, in the order of the rows. *)
Lemma get_fold (key : row -> pystr) k expenses : forall t : totals F,
  get_or k (fold_left (fun t r => dict_add (key r) (amount_of r) t) expenses t) (flit 0)
  = sum_from (get_or k t (flit 0))
      (List.map amount_of (filter (fun r => str_eqb (key r) k) expenses)).
Proof.
  induction expenses as [|r rows IH]; intros t; [reflexivity|].
  cbn [fold_left filter]. rewrite IH, get_dict_add.
  destruct (str_eqb (key r) k); reflexivity.
Qed.

(** The inner table of month [m] after one addition. *)
Lemma get_dict_add2 m m' c a (d : list (pystr * totals F)) :
  get_or m (dict_add2 m' c a d) []
  = if str_eqb m' m then dict_add c a (get_or m d []) else get_or m d [].
Proof.
  unfold get_or. induction d as [|[m0 inner] d IH]; cbn [dict_add2 dict_lookup].
  - rewrite (str_eqb_sym m m'). destruct (str_eqb m' m); reflexivity.
  - destruct (str_eqb m' m0) eqn:E0; cbn [dict_lookup].
    + rewrite (str_eqb_trans_false _ _ m E0), (str_eqb_sym m m0).
      destruct (str_eqb m0 m); reflexivity.
    + destruct (str_eqb m m0) eqn:E1.
      * apply str_eqb_eq in E1. subst m0. rewrite E0. reflexivity.
      * exact IH.
Qed.

Lemma dict_add_NoDup k a (d : totals F) :
  NoDup (List.map fst d) -> NoDup (List.map fst (dict_add k a d)).
Proof.
  intros Hd. rewrite dict_add_keys.
  destruct (existsb (str_eqb k) (List.map fst d)) eqn:E; [exact Hd|].
  apply NoDup_app; [exact Hd|constructor; [intros []|constructor]|].
  intros x Hx [<-|[]]. apply existsb_str_In in Hx. congruence.
Qed.

Lemma fold_add_NoDup (key : row -> pystr) rows : forall t : totals F,
  NoDup (List.map fst t) ->
  NoDup (List.map fst
           (fold_left (fun t r => dict_add (key r) (amount_of r) t) rows t)).
Proof.
  induction rows as [|r rows IH]; intros t Ht; [exact Ht|].
  cbn [fold_left]. apply IH, dict_add_NoDup, Ht.
Qed.

(** In a dict every entry is found under its key. *)
Lemma get_In (d : totals F) (default : F) :
  NoDup (List.map fst d) ->
  forall kv, In kv d -> get_or (fst kv) d default = snd kv.
Proof.
  induction d as [|[k0 v0] d IH]; intros Hnd kv Hkv; [destruct Hkv|].
  inversion Hnd as [|? ? Hnin Hnd']; subst.
  unfold get_or. cbn [dict_lookup].
  destruct Hkv as [<-|Hkv]; cbn [fst snd].
  - rewrite str_eqb_refl. reflexivity.
  - destruct (str_eqb (fst kv) k0) eqn:E.
    + apply str_eqb_eq in E. subst k0. exfalso. apply Hnin.
      apply in_map. exact Hkv.
    + apply (IH Hnd' kv Hkv).
Qed.

(** The table the loop builds from nothing: one entry for each key in
    the order of first occurrence, holding the amounts of the rows of
    that key added in the order of the rows. *)
Lemma table_closed (key : row -> pystr) expenses :
  fold_left (fun t r => dict_add (key r) (amount_of r) t) expenses ([] : totals F)
  = List.map
      (fun k => (k, total (List.map amount_of
                             (filter (fun r => str_eqb (key r) k) expenses))))
      (first_seen (List.map key expenses) []).
Proof.
  set (add := fun (t : totals F) r => dict_add (key r) (amount_of r) t).
  set (t := fold_left add expenses []).
  assert (Hkeys : List.map fst t = first_seen (List.map key expenses) []).
  { apply (fold_keys key add). reflexivity. }
  assert (Hnd : NoDup (List.map fst t)).
  { apply (fold_add_NoDup key expenses []). constructor. }
  rewrite <- Hkeys, map_map.
  rewrite <- (map_id t) at 1. apply map_ext_in. intros [k v] Hkv.
  cbn [fst]. f_equal.
  pose proof (get_In t (flit 0) Hnd (k, v) Hkv) as E. cbn [fst snd] in E.
  rewrite <- E. apply (get_fold key k expenses []).
Qed.

End Buckets.

(** ** Every row is in one bucket *)

Lemma first_seen_In k ks : forall seen,
  In k ks -> In k seen \/ In k (first_seen ks seen).
Proof.
  induction ks as [|k0 ks IH]; intros seen Hk; [destruct Hk|].
  cbn [first_seen]. destruct (existsb (str_eqb k0) seen) eqn:E.
  - destruct Hk as [->|Hk]; [left; apply existsb_str_In; exact E|].
    apply IH, Hk.
  - destruct Hk as [->|Hk]; [right; left; reflexivity|].
    destruct (IH (k0 :: seen) Hk) as [[->|Hs]|Hf].
    + right. left. reflexivity.
    + left. exact Hs.
    + right. right. exact Hf.
Qed.

Lemma first_seen_NoDup ks : forall seen,
  NoDup (first_seen ks seen)
  /\ forall k, In k (first_seen ks seen) -> ~ In k seen.
Proof.
  induction ks as [|k0 ks IH]; intros seen.
  - split; [constructor|intros k []].
  - cbn [first_seen]. destruct (existsb (str_eqb k0) seen) eqn:E; [apply IH|].
    destruct (IH (k0 :: seen)) as [Hnd Hout]. split.
    + constructor; [|exact Hnd]. intros Hin. apply (Hout k0 Hin). left. reflexivity.
    + intros k [<-|Hk] Hs.
      * apply existsb_str_In in Hs. congruence.
      * apply (Hout k Hk). right. exact Hs.
Qed.

Section Partition.
Variable key : row -> pystr.

Lemma bucket_other r l ks :
  ~ In (key r) ks -> flat_map (bucket key (r :: l)) ks = flat_map (bucket key l) ks.
Proof.
  induction ks as [|k ks IH]; intros Hout; [reflexivity|].
  cbn [flat_map]. rewrite IH by (intros Hin; apply Hout; right; exact Hin).
  f_equal. unfold bucket. cbn [filter].
  destruct (str_eqb (key r) k) eqn:E; [|reflexivity].
  apply str_eqb_eq in E. exfalso. apply Hout. left. symmetry. exact E.
Qed.

Lemma bucket_step r l ks :
  NoDup ks -> In (key r) ks ->
  Permutation (flat_map (bucket key (r :: l)) ks) (r :: flat_map (bucket key l) ks).
Proof.
  induction 1 as [|k ks Hout Hnd IH]; intros Hin; [destruct Hin|].
  cbn [flat_map]. destruct (str_eqb (key r) k) eqn:E.
  - apply str_eqb_eq in E. subst k.
    rewrite (bucket_other r l ks Hout).
    unfold bucket at 1. cbn [filter]. rewrite str_eqb_refl. reflexivity.
  - destruct Hin as [Hk|Hin];
      [rewrite <- Hk, str_eqb_refl in E; discriminate E|].
    unfold bucket at 1. cbn [filter]. rewrite E.
    rewrite (IH Hin). symmetry. apply Permutation_middle.
Qed.

Lemma bucket_nil ks : flat_map (bucket key []) ks = [].
Proof. induction ks as [|k ks IH]; [reflexivity|exact IH]. Qed.

(** The buckets of the keys, one after the other, hold every row
    once. *)
Lemma buckets_partition l :
  Permutation
    (flat_map (fun k => filter (fun r => str_eqb (key r) k) l)
       (first_seen (List.map key l) []))
    l.
Proof.
  change (Permutation (flat_map (bucket key l) (first_seen (List.map key l) [])) l).
  assert (Hnd : NoDup (first_seen (List.map key l) []))
    by apply first_seen_NoDup.
  assert (Hall : forall r, In r l -> In (key r) (first_seen (List.map key l) [])).
  { intros r Hr.
    destruct (first_seen_In (key r) (List.map key l) []) as [[]|Hk];
      [apply in_map; exact Hr|exact Hk]. }
  revert Hnd Hall. generalize (first_seen (List.map key l) []) as ks.
  induction l as [|r l IH]; intros ks Hnd Hall.
  - rewrite bucket_nil. constructor.
  - rewrite (bucket_step r l ks Hnd) by (apply Hall; left; reflexivity).
    apply perm_skip, IH; [exact Hnd|].
    intros r' Hr'. apply Hall. right. exact Hr'.
Qed.

End Partition.

(** ** Sums in exact arithmetic *)

Module ExactSums.
Open Scope Q_scope.

Lemma fold_plus l : forall a, fold_left Qplus l a == a + fold_left Qplus l 0.
Proof.
  induction l as [|v l IH]; intros a; cbn [fold_left].
  - ring.
  - rewrite (IH (a + v)), (IH (0 + v)). ring.
Qed.

Lemma total_cons v l : total (F:=Q) (v :: l) == v + total l.
Proof.
  unfold total. rewrite !sum_from_fold. cbn [fold_left fadd exactQ].
  rewrite fold_plus, (fold_plus l (flit 0)).
  change (flit (F:=Q) 0) with (0 * 1). ring.
Qed.

Lemma total_nil : total (F:=Q) [] == 0.
Proof. reflexivity. Qed.

Lemma total_dict_add k a d :
  total (List.map snd (dict_add (F:=Q) k a d)) == total (List.map snd d) + a.
Proof.
  induction d as [|[k' v] d IH]; cbn [dict_add List.map snd].
  - rewrite total_cons, total_nil. cbn [fadd exactQ].
    change (flit (F:=Q) 0) with (0 * 1). ring.
  - destruct (str_eqb k k'); cbn [List.map snd]; rewrite !total_cons.
    + cbn [fadd exactQ]. ring.
    + rewrite IH. ring.
Qed.

Lemma total_fold (key : row -> pystr) expenses : forall t,
  total (List.map snd
          (fold_left (fun t r => dict_add (F:=Q) (key r) (amount_of r) t) expenses t))
  == total (List.map snd t) + total (List.map amount_of expenses).
Proof.
  induction expenses as [|r rest IH]; intros t; cbn [fold_left List.map].
  - rewrite total_nil. ring.
  - rewrite IH, total_dict_add, total_cons. ring.
Qed.

End ExactSums.

(** ** Sums of whole numbers *)

Module WholeSums.

Lemma zsum_cons z zs : zsum (z :: zs) = z + zsum zs.
Proof. reflexivity. Qed.

Lemma zabs_cons z zs : zabs (z :: zs) = Z.abs z + zabs zs.
Proof. reflexivity. Qed.

Lemma zabs_nonneg zs : 0 <= zabs zs.
Proof. induction zs as [|z zs IH]; [reflexivity|rewrite zabs_cons; lia]. Qed.

Lemma zsum_bound zs : Z.abs (zsum zs) <= zabs zs.
Proof.
  induction zs as [|z zs IH]; [reflexivity|rewrite zsum_cons, zabs_cons; lia].
Qed.

Lemma zsum_app a b : zsum (a ++ b) = zsum a + zsum b.
Proof.
  induction a as [|z a IH]; [reflexivity|].
  cbn [app]. rewrite !zsum_cons, IH. lia.
Qed.

Lemma zabs_app a b : zabs (a ++ b) = zabs a + zabs b.
Proof.
  induction a as [|z a IH]; [reflexivity|].
  cbn [app]. rewrite !zabs_cons, IH. lia.
Qed.

Lemma zsum_perm a b : Permutation a b -> zsum a = zsum b.
Proof. induction 1; rewrite ?zsum_cons; lia. Qed.

Lemma zabs_perm a b : Permutation a b -> zabs a = zabs b.
Proof. induction 1; rewrite ?zabs_cons; lia. Qed.

Lemma zabs_filter {A} (f : A -> Z) (p : A -> bool) l :
  zabs (List.map f (filter p l)) <= zabs (List.map f l).
Proof.
  induction l as [|x l IH]; [reflexivity|].
  cbn [filter List.map]. rewrite zabs_cons.
  destruct (p x); cbn [List.map]; rewrite ?zabs_cons; lia.
Qed.

(** The sums of the parts add up to the sum of the whole. *)
Lemma zsum_flat_map {A K} (f : A -> Z) (part : K -> list A) ks :
  zsum (List.map (fun k => zsum (List.map f (part k))) ks)
  = zsum (List.map f (flat_map part ks)).
Proof.
  induction ks as [|k ks IH]; [reflexivity|].
  cbn [List.map flat_map]. rewrite zsum_cons, map_app, zsum_app, <- IH. reflexivity.
Qed.

Lemma zabs_flat_map {A K} (f : A -> Z) (part : K -> list A) ks :
  zabs (List.map (fun k => zsum (List.map f (part k))) ks)
  <= zabs (List.map f (flat_map part ks)).
Proof.
  induction ks as [|k ks IH]; [reflexivity|].
  cbn [List.map flat_map]. rewrite zabs_cons, map_app, zabs_app.
  pose proof (zsum_bound (List.map f (part k))). lia.
Qed.

(** Binary64 adds whole numbers exactly while the absolute values add up
    to less than 2^53. *)
Lemma sum_from_whole zs : forall acc,
  Z.abs acc + zabs zs < 2 ^ 53 ->
  sum_from (whole acc) (List.map whole zs) = whole (acc + zsum zs).
Proof.
  induction zs as [|z zs IH]; intros acc Hb; cbn [List.map sum_from].
  - cbn [zsum fold_right]. rewrite Z.add_0_r. reflexivity.
  - rewrite zabs_cons in Hb. rewrite zsum_cons.
    pose proof (zabs_nonneg zs).
    cbn [fadd binary64]. rewrite B64Whole.add_whole by lia.
    rewrite IH by lia. f_equal. lia.
Qed.

Lemma total_whole zs :
  zabs zs < 2 ^ 53 -> total (List.map whole zs) = whole (zsum zs).
Proof.
  intros Hb. unfold total. change (flit 0) with (whole 0).
  rewrite sum_from_whole by (cbn [Z.abs]; lia). reflexivity.
Qed.

Section Rows.
Variable units : row -> Z.
Variable expenses : list row.
Hypothesis whole_amounts :
  forall r, In r expenses -> amount_of r = whole (units r).
Hypothesis within : zabs (List.map units expenses) < 2 ^ 53.

Lemma total_rows : total (List.map amount_of expenses) = whole (zsum (List.map units expenses)).
Proof.
  rewrite (map_ext_in _ _ _ whole_amounts), <- map_map.
  apply total_whole. exact within.
Qed.

Lemma total_bucket (p : row -> bool) :
  total (List.map amount_of (filter p expenses))
  = whole (zsum (List.map units (filter p expenses))).
Proof.
  rewrite (map_ext_in amount_of (fun r => whole (units r))).
  - rewrite <- map_map. apply total_whole.
    pose proof (zabs_filter units p expenses). lia.
  - intros r Hr. apply whole_amounts. apply filter_In in Hr. apply Hr.
Qed.

(** The totals of the buckets of any key add up, in binary64, to the
    float of the sum of the units. *)
Lemma total_table (key : row -> pystr) :
  total (List.map snd
           (List.map
              (fun k => (k, total (List.map amount_of
                                     (filter (fun r => str_eqb (key r) k) expenses))))
              (first_seen (List.map key expenses) [])))
  = whole (zsum (List.map units expenses)).
Proof.
  rewrite map_map. cbn [snd].
  rewrite (map_ext _ (fun k => whole (zsum (List.map units (bucket key expenses k)))))
    by (intros k; apply total_bucket).
  rewrite <- (map_map (fun k => zsum (List.map units (bucket key expenses k))) whole).
  pose proof (buckets_partition key expenses) as Hp.
  fold (bucket key expenses) in Hp.
  change (fun k => filter (fun r => str_eqb (key r) k) expenses)
    with (bucket key expenses) in Hp.
  pose proof (Permutation_map units Hp) as Hu.
  rewrite total_whole.
  - f_equal. rewrite zsum_flat_map. apply zsum_perm. exact Hu.
  - pose proof (zabs_flat_map units (bucket key expenses)
                  (first_seen (List.map key expenses) [])) as Hle.
    rewrite (zabs_perm _ _ Hu) in Hle. lia.
Qed.

End Rows.

End WholeSums.

(** C3 (amended). For every list of expense rows [update_charts] builds
    its tables without raising.  There is one category total for each
    category, a blank category counting as "Uncategorized", and one
    month total for each month key, a row whose date gives no month key
    counting for the current month, in the order in which they first
    occur; each total is the sum of [safe_float(r["Amount"])] over the
    rows of its bucket, added in the order of the rows in binary64; and
    every row is in exactly one category bucket and in exactly one month
    bucket.  When every amount is a whole number and the absolute values
    of the amounts add up to less than 2^53, the sum of the category
    totals, the sum of the month totals and the sum of the amounts over
    all rows, computed in binary64, are equal: each is the float of the
    sum of the whole numbers.  The three sums are also equal when the
    amounts are added exactly, over the rationals. *)
Theorem C3_totals_conserved (fromisoformat : pystr -> result (Z * Z))
  (sorted_unordered : totals spec_float -> totals spec_float)
  (now : pystr) (expenses : list row) :
  exists c : charts spec_float,
    update_charts fromisoformat sorted_unordered now expenses = Ok c
    /\ category_totals (totals_of c)
       = List.map
           (fun k => (k, total (List.map amount_of (filter (in_category k) expenses))))
           (first_seen (List.map category_of expenses) [])
    /\ month_totals (totals_of c)
       = List.map
           (fun m => (m, total (List.map amount_of
                                  (filter (in_month fromisoformat now m) expenses))))
           (first_seen (List.map (month_of fromisoformat now) expenses) [])
    /\ Permutation
         (flat_map (fun k => filter (in_category k) expenses)
            (first_seen (List.map category_of expenses) []))
         expenses
    /\ Permutation
         (flat_map (fun m => filter (in_month fromisoformat now m) expenses)
            (first_seen (List.map (month_of fromisoformat now) expenses) []))
         expenses
    /\ (forall units : row -> Z,
          (forall r, In r expenses -> amount_of r = whole (units r)) ->
          zabs (List.map units expenses) < 2 ^ 53 ->
          total (List.map snd (category_totals (totals_of c)))
          = total (List.map amount_of expenses)
          /\ total (List.map snd (month_totals (totals_of c)))
             = total (List.map amount_of expenses)
          /\ total (List.map amount_of expenses)
             = whole (zsum (List.map units expenses)))
    /\ (forall unordered : totals Q -> totals Q,
        exists e : charts Q,
          update_charts fromisoformat unordered now expenses = Ok e
          /\ (total (List.map snd (category_totals (totals_of e)))
              == total (List.map amount_of expenses))%Q
          /\ (total (List.map snd (month_totals (totals_of e)))
              == total (List.map amount_of expenses))%Q).
Proof.
  unfold update_charts. rewrite aggregate_fold. cbn [bind].
  eexists. split; [reflexivity|].
  cbn [totals_of category_totals month_totals].
  split; [apply (table_closed category_of expenses)|].
  split; [apply (table_closed (month_of fromisoformat now) expenses)|].
  split; [apply (buckets_partition category_of expenses)|].
  split; [apply (buckets_partition (month_of fromisoformat now) expenses)|].
  split.
  - intros units Hw Hb.
    rewrite (WholeSums.total_rows units expenses Hw Hb).
    unfold add_category, add_month.
    rewrite (table_closed category_of expenses),
      (table_closed (month_of fromisoformat now) expenses).
    rewrite (WholeSums.total_table units expenses Hw Hb category_of),
      (WholeSums.total_table units expenses Hw Hb (month_of fromisoformat now)).
    repeat split.
  - intros unordered. rewrite aggregate_fold. cbn [bind].
    eexists. split; [reflexivity|].
    cbn [totals_of category_totals month_totals]. split.
    + unfold add_category.
      rewrite (ExactSums.total_fold category_of expenses []).
      cbn [List.map]. rewrite ExactSums.total_nil. ring.
    + unfold add_month.
      rewrite (ExactSums.total_fold (month_of fromisoformat now) expenses []).
      cbn [List.map]. rewrite ExactSums.total_nil. ring.
Qed.

(** The whole amounts 10, 20, 4 and 6 in three categories and two
    months. *)
Lemma C3_totals_conserved_witness :
  exists c : charts spec_float,
    update_charts fromisoformat_ref (fun l => l) (str "2026-11") tied_rows = Ok c
    /\ total (List.map snd (category_totals (totals_of c))) = flit 40
    /\ total (List.map snd (month_totals (totals_of c))) = flit 40.
Proof.
  destruct (C3_totals_conserved fromisoformat_ref (fun l => l) (str "2026-11")
              tied_rows) as (c & Hc & _ & _ & _ & _ & Hw & _).
  exists c. split; [exact Hc|].
  destruct (Hw (fun r => match B64.to_int (amount_of r) with
                         | Ok z => z
                         | Raise _ => 0
                         end)) as (H1 & H2 & H3).
  - intros r [<-|[<-|[<-|[<-|[]]]]]; vm_compute; reflexivity.
  - vm_compute. reflexivity.
  - rewrite H1, H2, H3. split; vm_compute; reflexivity.
Defined.

(** C3 as stated fails in the arithmetic of the program.  With the
    amounts 0.1 in category A and 0.2 and 0.3 in category B, all in one
    month, the category totals 0.1 and 0.5 add up to 0.6, the single
    month total and the sum over the rows are 0.6000000000000001.  With
    1e308 and 1e308 in category A and -1e308 between them in category B
    the total of A overflows: the category totals add up to infinity, the
    month total and the sum over the rows are 1e308. *)
Lemma C3_counterexample :
  (exists c : charts spec_float,
     update_charts fromisoformat_ref (fun l => l) (str "2026-11") decimal_rows = Ok c
     /\ total (List.map snd (category_totals (totals_of c)))
        = S754_finite false 5404319552844595 (-53)
     /\ total (List.map snd (month_totals (totals_of c)))
        = S754_finite false 5404319552844596 (-53)
     /\ total (List.map amount_of decimal_rows)
        = S754_finite false 5404319552844596 (-53)
     /\ feqb (total (List.map snd (category_totals (totals_of c))))
             (total (List.map snd (month_totals (totals_of c)))) = false)
  /\ (exists c : charts spec_float,
        update_charts fromisoformat_ref (fun l => l) (str "2026-11") huge_rows = Ok c
        /\ total (List.map snd (category_totals (totals_of c)))
           = S754_infinity false
        /\ total (List.map snd (month_totals (totals_of c)))
           = B64.of_dec false 1 308
        /\ total (List.map amount_of huge_rows) = B64.of_dec false 1 308).
Proof.
  split.
  - eexists. split; [vm_compute; reflexivity|].
    repeat split; vm_compute; reflexivity.
  - eexists. split; [vm_compute; reflexivity|].
    repeat split; vm_compute; reflexivity.
Qed.

(* ===================================================================== *)
(** * The order of binary64 *)
(* ===================================================================== *)

Module B64Order.

Ltac compare_cases :=
  repeat match goal with
  | H : context [Pos.compare_cont Eq ?a ?b] |- _ =>
      change (Pos.compare_cont Eq a b) with (Pos.compare a b) in H
  | |- context [Pos.compare_cont Eq ?a ?b] =>
      change (Pos.compare_cont Eq a b) with (Pos.compare a b)
  end;
  repeat match goal with
  | H : context [Z.compare ?a ?b] |- _ => destruct (Z.compare_spec a b)
  | |- context [Z.compare ?a ?b] => destruct (Z.compare_spec a b)
  | H : context [Pos.compare ?a ?b] |- _ => destruct (Pos.compare_spec a b)
  | |- context [Pos.compare ?a ?b] => destruct (Pos.compare_spec a b)
  end;
  cbn in *; subst; try reflexivity; try discriminate; try lia.

Ltac float_cases x := destruct x as [[|]|[|]| |[|] ? ?].

Lemma SFltb_asym x y : SFltb x y = true -> SFltb y x = false.
Proof.
  unfold SFltb. float_cases x; float_cases y; cbn;
    try reflexivity; try discriminate; compare_cases.
Qed.

Lemma SFltb_trans x y z : SFltb x y = true -> SFltb y z = true -> SFltb x z = true.
Proof.
  unfold SFltb. float_cases x; float_cases y; cbn;
    try discriminate; float_cases z; cbn;
    try reflexivity; try discriminate; compare_cases.
Qed.

(** Not being less is transitive through a number. *)
Lemma SFltb_negtrans x y z :
  is_nan y = false ->
  SFltb x y = false -> SFltb y z = false -> SFltb x z = false.
Proof.
  unfold SFltb. float_cases x; float_cases y; cbn;
    try discriminate; try reflexivity; float_cases z; cbn;
    try reflexivity; try discriminate; intros _; compare_cases.
Qed.

(** Being at most is not being above. *)
Lemma SFleb_not_lt x y : SFleb y x = true -> SFltb x y = false.
Proof.
  unfold SFleb, SFltb. float_cases x; float_cases y; cbn;
    try reflexivity; try discriminate; compare_cases.
Qed.

(** Among numbers, what is not less is at least. *)
Lemma SFltb_false_le x y :
  is_nan x = false -> is_nan y = false -> SFltb x y = false -> SFleb y x = true.
Proof.
  unfold SFleb, SFltb. float_cases x; float_cases y; cbn;
    try reflexivity; try discriminate; intros _ _; compare_cases.
Qed.

(** A number equals itself. *)
Lemma SFeqb_refl x : is_nan x = false -> SFeqb x x = true.
Proof.
  unfold SFeqb. float_cases x; cbn; try reflexivity; try discriminate;
    intros _; compare_cases.
Qed.

(** NaN is neither at most nor at least anything. *)
Lemma SFleb_nan_l x : SFleb S754_nan x = false.
Proof. float_cases x; reflexivity. Qed.

Lemma SFleb_nan_r x : SFleb x S754_nan = false.
Proof. float_cases x; reflexivity. Qed.

End B64Order.

(* ===================================================================== *)
(** * Sorting the category totals *)
(* ===================================================================== *)

Lemma before_nil {A} (a b : A) : ~ before a b [].
Proof. intros (l1 & l2 & l3 & E). destruct l1; discriminate E. Qed.

Lemma before_cons {A} (a b x : A) l :
  before a b (x :: l) <-> (x = a /\ In b l) \/ before a b l.
Proof.
  split.
  - intros (l1 & l2 & l3 & E). destruct l1 as [|y l1]; cbn in E.
    + injection E as -> ->. left. split; [reflexivity|].
      apply in_or_app. right. left. reflexivity.
    + injection E as -> ->. right. exists l1, l2, l3. reflexivity.
  - intros [[-> Hb]|(l1 & l2 & l3 & ->)].
    + apply in_split in Hb as (l2 & l3 & ->). exists [], l2, l3. reflexivity.
    + exists (x :: l1), l2, l3. reflexivity.
Qed.

Section Sorting.
Context {F : Type} `{Arith F}.

Hypothesis fltb_asym : forall x y : F, fltb x y = true -> fltb y x = false.
Hypothesis fltb_trans :
  forall x y z : F, fltb x y = true -> fltb y z = true -> fltb x z = true.

Lemma insert_desc_perm x (l : totals F) : Permutation (insert_desc x l) (x :: l).
Proof.
  induction l as [|y t IH]; cbn [insert_desc]; [reflexivity|].
  destruct (fltb (snd y) (snd x)); [reflexivity|].
  rewrite IH. apply perm_swap.
Qed.

Lemma fold_insert_perm (l : totals F) : forall acc,
  Permutation (fold_left (fun acc x => insert_desc x acc) l acc) (acc ++ l).
Proof.
  induction l as [|x l IH]; intros acc; cbn [fold_left].
  - rewrite app_nil_r. reflexivity.
  - rewrite IH, insert_desc_perm. apply Permutation_middle.
Qed.

Lemma sorted_desc_perm (t : totals F) : Permutation (sorted_desc t) t.
Proof. apply (fold_insert_perm t []). Qed.

Lemma insert_desc_In x (l : totals F) z :
  In z (insert_desc x l) <-> z = x \/ In z l.
Proof.
  split; intros Hz.
  - apply (Permutation_in z (insert_desc_perm x l)) in Hz.
    destruct Hz as [<-|Hz]; auto.
  - apply (Permutation_in z (Permutation_sym (insert_desc_perm x l))).
    destruct Hz as [->|Hz]; [left; reflexivity|right; exact Hz].
Qed.

Lemma insert_desc_sorted x (l : totals F) :
  StronglySorted not_less l -> StronglySorted not_less (insert_desc x l).
Proof.
  induction 1 as [|y t Hs IH Hy]; cbn [insert_desc].
  - constructor; constructor.
  - destruct (fltb (snd y) (snd x)) eqn:E.
    + constructor; [constructor; assumption|].
      constructor; [apply fltb_asym; exact E|].
      rewrite Forall_forall in *. intros z Hz. unfold not_less.
      destruct (fltb (snd x) (snd z)) eqn:E'; [|reflexivity].
      rewrite <- (Hy z Hz). symmetry. apply (fltb_trans _ _ _ E E').
    + constructor; [exact IH|].
      rewrite Forall_forall in *. intros z Hz.
      apply insert_desc_In in Hz as [->|Hz]; [exact E|apply Hy; exact Hz].
Qed.

Lemma fold_insert_sorted (l : totals F) : forall acc,
  StronglySorted not_less acc ->
  StronglySorted not_less (fold_left (fun acc x => insert_desc x acc) l acc).
Proof.
  induction l as [|x l IH]; intros acc Hacc; cbn [fold_left]; [exact Hacc|].
  apply IH, insert_desc_sorted, Hacc.
Qed.

Lemma sorted_desc_sorted (t : totals F) : StronglySorted not_less (sorted_desc t).
Proof. apply fold_insert_sorted. constructor. Qed.

(** An insertion never moves the entries that are already there. *)
Lemma insert_desc_keeps a b c (l : totals F) :
  before a b l -> before a b (insert_desc c l).
Proof.
  induction l as [|y t IH]; intros Hab; [destruct (before_nil _ _ Hab)|].
  cbn [insert_desc]. destruct (fltb (snd y) (snd c)).
  - apply before_cons. right. exact Hab.
  - apply before_cons in Hab as [[-> Hb]|Hab]; apply before_cons.
    + left. split; [reflexivity|]. apply insert_desc_In. right. exact Hb.
    + right. apply IH, Hab.
Qed.

Lemma fold_insert_keeps a b (l : totals F) : forall acc,
  before a b acc -> before a b (fold_left (fun acc x => insert_desc x acc) l acc).
Proof.
  induction l as [|x l IH]; intros acc Hacc; cbn [fold_left]; [exact Hacc|].
  apply IH, insert_desc_keeps, Hacc.
Qed.

Section Stable.
Variables a b : pystr * F.
Hypothesis through_a : forall y : F,
  fltb y (snd a) = false -> fltb (snd a) (snd b) = false -> fltb y (snd b) = false.
Hypothesis a_not_less : not_less a b.

(** A new entry goes behind the entries it is not above. *)
Lemma insert_desc_behind (l : totals F) :
  StronglySorted not_less l -> In a l -> before a b (insert_desc b l).
Proof.
  induction 1 as [|y t Hs IH Hy]; intros Ha; [destruct Ha|].
  cbn [insert_desc]. destruct (fltb (snd y) (snd b)) eqn:E.
  - exfalso. destruct Ha as [->|Ha].
    + unfold not_less in a_not_less. congruence.
    + rewrite Forall_forall in Hy.
      rewrite (through_a (snd y) (Hy a Ha) a_not_less) in E. discriminate E.
  - apply before_cons. destruct Ha as [->|Ha].
    + left. split; [reflexivity|]. apply insert_desc_In. left. reflexivity.
    + right. apply IH, Ha.
Qed.

Lemma fold_insert_behind (l : totals F) : forall acc,
  StronglySorted not_less acc -> In a acc -> In b l ->
  before a b (fold_left (fun acc x => insert_desc x acc) l acc).
Proof.
  induction l as [|x l IH]; intros acc Hacc Ha Hb; [destruct Hb|].
  cbn [fold_left]. destruct Hb as [->|Hb].
  - apply fold_insert_keeps, insert_desc_behind; assumption.
  - apply IH; [apply insert_desc_sorted, Hacc| |exact Hb].
    apply insert_desc_In. right. exact Ha.
Qed.

Lemma fold_insert_stable (l : totals F) : forall acc,
  StronglySorted not_less acc -> before a b l ->
  before a b (fold_left (fun acc x => insert_desc x acc) l acc).
Proof.
  induction l as [|x l IH]; intros acc Hacc Hab; [destruct (before_nil _ _ Hab)|].
  cbn [fold_left]. apply before_cons in Hab as [[-> Hb]|Hab].
  - apply fold_insert_behind; [apply insert_desc_sorted, Hacc| |exact Hb].
    apply insert_desc_In. left. reflexivity.
  - apply IH; [apply insert_desc_sorted, Hacc|exact Hab].
Qed.

Lemma sorted_desc_stable (t : totals F) :
  before a b t -> before a b (sorted_desc t).
Proof. apply fold_insert_stable. constructor. Qed.

End Stable.
End Sorting.

(** ** The pie *)

Section Pie.
Context {F : Type} `{Arith F}.

Lemma pie_input_slices (s : totals F) : pie_input s = pie_of s.
Proof.
  unfold pie_input, pie_of, slices, others_sum.
  destruct (Nat.ltb_spec 6 (List.length s)) as [Hlt|Hle].
  - rewrite !fsum_total, !map_app. reflexivity.
  - rewrite (firstn_all2 s) by exact Hle. rewrite fsum_total. reflexivity.
Qed.

End Pie.

(** ** Sorting numbers *)

Lemma numbers_In t a : numbers t = true -> In a t -> is_nan (snd a) = false.
Proof.
  unfold numbers. rewrite forallb_forall. intros Ht Ha.
  apply negb_true_iff, (Ht a Ha).
Qed.

Lemma numbers_comparable t : numbers t = true -> comparable t = true.
Proof.
  intros Ht. unfold comparable, is_number. apply forallb_forall. intros a Ha.
  apply B64Order.SFeqb_refl, (numbers_In t a Ht Ha).
Qed.

Lemma not_numbers_incomparable t : numbers t = false -> comparable t = false.
Proof.
  intros Ht. destruct (comparable t) eqn:E; [|reflexivity].
  rewrite <- Ht. symmetry. unfold numbers. apply forallb_forall. intros a Ha.
  unfold comparable, is_number in E. rewrite forallb_forall in E.
  specialize (E a Ha). cbn [feqb binary64] in E.
  destruct (snd a); [reflexivity|reflexivity|discriminate E|reflexivity].
Qed.

Lemma before_In_l {A} (a b : A) l : before a b l -> In a l.
Proof.
  intros (l1 & l2 & l3 & ->). apply in_or_app. right. left. reflexivity.
Qed.

Lemma StronglySorted_In_impl {A} (R R' : A -> A -> Prop) l :
  (forall a b, In a l -> In b l -> R a b -> R' a b) ->
  StronglySorted R l -> StronglySorted R' l.
Proof.
  intros Himp Hs. induction Hs as [|x l Hs IH Hx]; constructor.
  - apply IH. intros a b Ha Hb. apply Himp; right; assumption.
  - rewrite Forall_forall in *. intros y Hy.
    apply Himp; [left; reflexivity|right; exact Hy|apply Hx, Hy].
Qed.

(** In a sorted list any two different entries are related one way or
    the other. *)
Lemma StronglySorted_related {A} (R : A -> A -> Prop) l a b :
  StronglySorted R l -> In a l -> In b l -> a = b \/ R a b \/ R b a.
Proof.
  induction 1 as [|x l Hs IH Hx]; intros Ha Hb; [destruct Ha|].
  rewrite Forall_forall in Hx.
  destruct Ha as [->|Ha], Hb as [->|Hb].
  - left. reflexivity.
  - right. left. apply Hx, Hb.
  - right. right. apply Hx, Ha.
  - apply IH; assumption.
Qed.

(** What [sorted] returns for totals that are numbers: the totals
    rearranged, in descending order, entries of which the earlier is at
    least the later keeping their order. *)
Lemma sorted_by_value_numbers
  (sorted_unordered : totals spec_float -> totals spec_float)
  (t : totals spec_float) :
  numbers t = true ->
  Permutation (sorted_by_value sorted_unordered t) t
  /\ StronglySorted at_least (sorted_by_value sorted_unordered t)
  /\ forall a b, before a b t -> at_least a b ->
                 before a b (sorted_by_value sorted_unordered t).
Proof.
  intros Ht. unfold sorted_by_value. rewrite (numbers_comparable t Ht).
  split; [apply sorted_desc_perm|]. split.
  - apply (StronglySorted_In_impl not_less).
    + intros a b Ha Hb Hab.
      apply B64Order.SFltb_false_le; [| |exact Hab];
        apply (numbers_In t _ Ht);
        apply (Permutation_in _ (sorted_desc_perm t)); assumption.
    + apply sorted_desc_sorted.
      * exact B64Order.SFltb_asym.
      * exact B64Order.SFltb_trans.
  - intros a b Hab Hle. apply sorted_desc_stable.
    + exact B64Order.SFltb_asym.
    + exact B64Order.SFltb_trans.
    + intros y. apply B64Order.SFltb_negtrans.
      apply (numbers_In t a Ht), (before_In_l a b), Hab.
    + apply B64Order.SFleb_not_lt. exact Hle.
    + exact Hab.
Qed.

(** C6 (amended). For every expense list [update_charts] computes its
    chart inputs, and the totals it charts are those of the loop,
    standing in the order in which the categories first occur.  When no
    category total is NaN the sorted list is a rearrangement of the
    totals in descending order (every entry is at least every later
    one) and stable (of two entries of the totals the earlier stays
    before the later when it is at least the later, so ties keep the
    first-encountered order); when a total is NaN the sorted list is
    what the sort leaves of them.  The top N are the first N of the
    sorted list, at most N entries, and the bars are the top 10.  The
    pie shows the sorted categories themselves when there are at most
    six, else the first six followed by "Others", whose value is the sum
    of the totals of all the categories beyond the sixth; when the
    slices sum to zero the pie is the single slice "No data" of
    value 1. *)
Theorem C6_category_pie (fromisoformat : pystr -> result (Z * Z))
  (sorted_unordered : totals spec_float -> totals spec_float)
  (now : pystr) (expenses : list row) :
  exists (c : charts spec_float) (s : totals spec_float),
    update_charts fromisoformat sorted_unordered now expenses = Ok c
    /\ aggregate fromisoformat now expenses
         {| category_totals := []; month_totals := []; month_category := [] |}
       = Ok (totals_of c)
    /\ List.map fst (category_totals (totals_of c))
       = first_seen (List.map category_of expenses) []
    /\ (numbers (category_totals (totals_of c)) = true ->
        Permutation s (category_totals (totals_of c))
        /\ StronglySorted at_least s
        /\ forall a b,
             before a b (category_totals (totals_of c)) -> at_least a b ->
             before a b s)
    /\ (numbers (category_totals (totals_of c)) = false ->
        s = sorted_unordered (category_totals (totals_of c)))
    /\ (forall n,
          top_categories sorted_unordered n (category_totals (totals_of c))
          = firstn n s
          /\ (List.length (firstn n s) <= n)%nat)
    /\ bar_cats c = list_or (List.map fst (firstn 10 s)) [str "No data"]
    /\ bar_vals c = list_or (List.map snd (firstn 10 s)) [flit 0]
    /\ ((6 < List.length s)%nat ->
        slices s = firstn 6 s ++ [(str "Others", total (List.map snd (skipn 6 s)))])
    /\ ((List.length s <= 6)%nat -> slices s = s)
    /\ (feqb (total (List.map snd (slices s))) (flit 0) = true ->
        pie_labels c = [str "No data"] /\ pie_sizes c = [flit 1])
    /\ (feqb (total (List.map snd (slices s))) (flit 0) = false ->
        pie_labels c = List.map fst (slices s)
        /\ pie_sizes c = List.map snd (slices s)).
Proof.
  unfold update_charts. rewrite aggregate_fold. cbn [bind].
  set (t := fold_left add_category expenses ([] : totals spec_float)).
  eexists. exists (sorted_by_value sorted_unordered t).
  split; [reflexivity|].
  cbn [totals_of category_totals bar_cats bar_vals pie_labels pie_sizes].
  split; [reflexivity|].
  split; [apply (fold_keys category_of add_category); reflexivity|].
  split; [apply sorted_by_value_numbers|].
  split.
  { intros Hn. unfold sorted_by_value.
    rewrite (not_numbers_incomparable t Hn). reflexivity. }
  split; [intros n; split; [reflexivity|apply firstn_le_length]|].
  split; [reflexivity|]. split; [reflexivity|].
  rewrite pie_input_slices. unfold pie_of.
  split.
  { intros Hlt. unfold slices, others_sum.
    destruct (Nat.ltb_spec 6 (List.length (sorted_by_value sorted_unordered t)));
      [reflexivity|lia]. }
  split.
  { intros Hle. unfold slices.
    destruct (Nat.ltb_spec 6 (List.length (sorted_by_value sorted_unordered t)));
      [lia|reflexivity]. }
  subst t. split; intros ->; split; reflexivity.
Qed.

Lemma C6_category_pie_witness :
  before (str "Food", B64.of_dec false 10 0) (str "Books", B64.of_dec false 10 0)
    (sorted_by_value (fun l => l)
       [(str "Food", B64.of_dec false 10 0);
        (str "Rent", B64.of_dec false 20 0);
        (str "Books", B64.of_dec false 10 0)]).
Proof.
  destruct (C6_category_pie fromisoformat_ref (fun l => l) (str "2026-11") tied_rows)
    as (c & s & Hc & _ & _ & Hsorted & _ & Htop & _).
  assert (E : category_totals (totals_of c)
              = [(str "Food", B64.of_dec false 10 0);
                 (str "Rent", B64.of_dec false 20 0);
                 (str "Books", B64.of_dec false 10 0)]).
  { vm_compute in Hc. injection Hc as <-. vm_compute. reflexivity. }
  rewrite E in Hsorted, Htop.
  destruct (Htop 3%nat) as [Hs _].
  assert (Es : s = sorted_by_value (fun l => l)
                     [(str "Food", B64.of_dec false 10 0);
                      (str "Rent", B64.of_dec false 20 0);
                      (str "Books", B64.of_dec false 10 0)]).
  { destruct (Hsorted ltac:(vm_compute; reflexivity)) as (Hp & _).
    apply Permutation_length in Hp. cbn [List.length] in Hp.
    assert (Hf : firstn 3 s = s) by (apply firstn_all2; rewrite Hp; constructor).
    rewrite <- Hf, <- Hs. vm_compute. reflexivity. }
  rewrite <- Es.
  apply (proj2 (proj2 (Hsorted ltac:(vm_compute; reflexivity)))).
  - exists [], [(str "Rent", B64.of_dec false 20 0)], []. reflexivity.
  - vm_compute. reflexivity.
Defined.

(** C6 as stated fails for an expense list with a NaN total: with the
    amounts 1e400 and -1e400, which [float] reads as plus and minus
    infinity, in category B, between a category A of 1 and a category C
    of 2, the total of B is NaN, and no arrangement of the three totals
    is descending, NaN being neither at least nor at most any number. *)
Lemma C6_counterexample :
  exists c : charts spec_float,
    update_charts fromisoformat_ref (fun l => l) (str "2026-11") nan_rows = Ok c
    /\ category_totals (totals_of c)
       = [(str "A", flit 1); (str "B", S754_nan); (str "C", flit 2)]
    /\ numbers (category_totals (totals_of c)) = false
    /\ forall s, Permutation s (category_totals (totals_of c)) ->
                 ~ StronglySorted at_least s.
Proof.
  eexists. split; [vm_compute; reflexivity|].
  cbn [totals_of category_totals].
  split; [vm_compute; reflexivity|]. split; [vm_compute; reflexivity|].
  intros s Hp Hs.
  assert (Hb : In (str "B", S754_nan) s).
  { apply (Permutation_in _ (Permutation_sym Hp)). right. left. reflexivity. }
  assert (Ha : In (str "A", flit 1 : spec_float) s).
  { apply (Permutation_in _ (Permutation_sym Hp)). left. reflexivity. }
  destruct (StronglySorted_related at_least s _ _ Hs Hb Ha) as [E|[E|E]].
  - discriminate E.
  - unfold at_least in E. cbn [snd fleb binary64] in E.
    rewrite B64Order.SFleb_nan_r in E. discriminate E.
  - unfold at_least in E. cbn [snd fleb binary64] in E.
    rewrite B64Order.SFleb_nan_l in E. discriminate E.
Qed.

(** Seven categories of one unit each: six slices and "Others"; no rows
    at all: the placeholder. *)
Example pie_of_seven :
  (c <- update_charts (F:=spec_float) fromisoformat_ref (fun l => l) (str "2026-11")
          (List.map (fun k => {| Date := str "2024-01-01"; Category := [k];
                                 Amount := str "1"; Note := [] |})
             (str "abcdefgh")) ;;
   Ok (pie_labels c, List.map B64.to_int (pie_sizes c)))
  = Ok (List.map (fun k => [k]) (str "abcdef") ++ [str "Others"],
        [Ok 1; Ok 1; Ok 1; Ok 1; Ok 1; Ok 1; Ok 2])
  /\ (c <- update_charts (F:=spec_float) fromisoformat_ref (fun l => l)
            (str "2026-11") [] ;;
      Ok (bar_cats c, pie_labels c, pie_sizes c, category_totals (totals_of c)))
     = Ok ([str "No data"], [str "No data"], [flit 1], []).
Proof. split; vm_compute; reflexivity. Qed.

(* ===================================================================== *)
(** * Appending and editing rows *)
(* ===================================================================== *)

(** Appending a record to what [write_expenses] wrote is writing the
    rows with one more at the end. *)
Lemma add_expense_written d c a n rows st :
  add_expense d c a n (write_expenses rows st)
  = write_expenses (rows ++ [Build_row d c a n]) st.
Proof.
  unfold add_expense, write_expenses. cbn [ensure_csv_exists file_text].
  rewrite map_app, concat_app. cbn [List.map List.concat record_of_row
    Date Category Amount Note].
  rewrite app_nil_r, <- app_assoc. reflexivity.
Qed.

Lemma add_expense_missing d c a n :
  add_expense d c a n None = write_expenses [Build_row d c a n] None.
Proof.
  unfold add_expense, write_expenses.
  cbn [ensure_csv_exists file_text List.map List.concat record_of_row
       Date Category Amount Note].
  rewrite app_nil_r. reflexivity.
Qed.

(** Reading after an append to what [write_expenses] wrote. *)
Lemma read_after_add d c a n rows st :
  rows_within_limit (rows ++ [Build_row d c a n]) = true ->
  snd (read_expenses (add_expense d c a n (write_expenses rows st)))
  = Ok (List.map normalize_row rows ++ [normalize_row (Build_row d c a n)]).
Proof.
  intros Hlim. rewrite add_expense_written, read_after_write by exact Hlim.
  cbn [snd]. rewrite map_app. reflexivity.
Qed.

(** X1. [add_expense] appends: on the file that [write_expenses] wrote
    for some rows, and on a missing file, the next [read_expenses]
    returns the rows that were there, in their order, followed by the
    new row, each as the read boundary normalizes it - provided no cell
    is longer than the reader's limit. *)
Theorem add_expense_appends (d c a n : pystr) (rows : list row) (st : store) :
  rows_within_limit (rows ++ [Build_row d c a n]) = true ->
  snd (read_expenses (add_expense d c a n (write_expenses rows st)))
  = Ok (List.map normalize_row rows ++ [normalize_row (Build_row d c a n)])
  /\ snd (read_expenses (add_expense d c a n None))
     = Ok [normalize_row (Build_row d c a n)].
Proof.
  intros Hlim. split.
  - apply read_after_add. exact Hlim.
  - rewrite add_expense_missing, read_after_write; [reflexivity|].
    unfold rows_within_limit in *. rewrite forallb_app in Hlim.
    apply andb_prop in Hlim as [_ Hlim]. exact Hlim.
Qed.

Lemma add_expense_appends_witness :
  snd (read_expenses
         (add_expense (str "2024-04-02") (str " Tea ") (str "$3.50") []
            (write_expenses sample_rows None)))
  = Ok (List.map normalize_row sample_rows
        ++ [normalize_row (Build_row (str "2024-04-02") (str " Tea ") (str "$3.50") [])]).
Proof.
  apply (proj1 (add_expense_appends (str "2024-04-02") (str " Tea ") (str "$3.50") []
                  sample_rows None ltac:(vm_compute; reflexivity))).
Defined.

(** A row made of trimmed cells with an amount is read as it is. *)
Lemma normalize_trimmed d c a n :
  nonempty (strip a) = true ->
  normalize_row (Build_row (strip d) (strip c) (strip a) (strip n))
  = Build_row (strip d) (strip c) (strip a) (strip n).
Proof.
  intros Ha. unfold normalize_row, cell_or. cbn [Date Category Amount Note].
  rewrite Ha.
  assert (Hs : forall f, strip (if nonempty (strip f) then strip f else []) = strip f).
  { intros f. destruct (strip f) eqn:E; [reflexivity|]. cbn [nonempty].
    rewrite <- E. apply strip_idem. }
  rewrite !Hs, strip_idem. reflexivity.
Qed.

Lemma rows_within_limit_app l1 l2 :
  rows_within_limit (l1 ++ l2) = (rows_within_limit l1 && rows_within_limit l2)%bool.
Proof. apply forallb_app. Qed.

Section Edit.
Context {F : Type} `{Arith F}.

(** X2. An edit within range replaces the row at the index by the
    trimmed texts of the four controls and keeps every other row in its
    place; when the new cells are within the reader's limit, reading the
    file again returns the rows in that order, the edited row exactly as
    entered. *)
Theorem on_save_applied (index : Z) (d c a n : pystr) (st st1 : store)
  (rows : list row) :
  read_expenses st = (st1, Ok rows) ->
  index_ok index rows = true ->
  (nonempty (strip d) && nonempty (strip c) && nonempty (strip a))%bool = true ->
  forallb within_limit [strip d; strip c; strip a; strip n] = true ->
  exists earlier old later,
    rows = earlier ++ old :: later
    /\ List.length earlier = Z.to_nat index
    /\ on_save index d c a n st
       = (write_expenses
            (earlier ++ Build_row (strip d) (strip c) (strip a) (strip n) :: later)
            st1, Applied)
    /\ snd (read_expenses
              (write_expenses
                 (earlier ++ Build_row (strip d) (strip c) (strip a) (strip n) :: later)
                 st1))
       = Ok (List.map normalize_row earlier
             ++ Build_row (strip d) (strip c) (strip a) (strip n)
             :: List.map normalize_row later)
    /\ (forall x, In x rows -> nonempty (Amount x) = true -> normalize_row x = x).
Proof.
  intros Hread Hidx Hne Hlim.
  destruct (index_ok_split index rows Hidx) as (earlier & old & later & Hrows & Hlen & _ & Hrep).
  exists earlier, old, later.
  apply andb_prop in Hne as [Hne Ha]. apply andb_prop in Hne as [Hd Hc].
  split; [exact Hrows|]. split; [exact Hlen|]. split; [|split].
  - unfold on_save. rewrite Hd, Hc, Ha. cbn [negb orb].
    destruct (safe_float_total (strip a)) as [v ->].
    rewrite Hread, Hidx, Hrep. reflexivity.
  - rewrite read_after_write.
    + cbn [snd]. rewrite map_app. cbn [List.map].
      rewrite normalize_trimmed by exact Ha. reflexivity.
    + pose proof (read_expenses_within _ _ _ Hread) as Hrl.
      rewrite Hrows in Hrl. rewrite rows_within_limit_app in Hrl.
      apply andb_prop in Hrl as [He Hl].
      rewrite rows_within_limit_app, He. cbn [andb].
      unfold rows_within_limit in *.
      cbn [forallb] in Hl. apply andb_prop in Hl as [_ Hl].
      cbn [forallb record_of_row Date Category Amount Note] in *.
      rewrite Hl, Hlim. reflexivity.
  - intros x Hx Hax. destruct (read_expenses_In _ _ _ _ Hread Hx) as (fns & rec & ->).
    apply normalize_read_row; exact Hax.
Qed.

(** X3. The amount check of the edit dialog rejects nothing: whatever
    the index, the texts and the file, [on_save] never answers "Please
    enter a valid amount"; when date, category and amount are not blank
    and the file can be read, the edit is applied if the index is within
    range and answers "Row unavailable." otherwise, whatever the amount
    text is. *)
Theorem on_save_never_invalid (index : Z) (d c a n : pystr) (st : store) :
  snd (on_save index d c a n st) <> InvalidAmount
  /\ ((nonempty (strip d) && nonempty (strip c) && nonempty (strip a))%bool = true ->
      forall st1 rows, read_expenses st = (st1, Ok rows) ->
        snd (on_save index d c a n st)
        = if index_ok index rows then Applied else RowUnavailable).
Proof.
  split.
  - unfold on_save.
    destruct (_ || _)%bool; [discriminate|].
    destruct (safe_float_total (strip a)) as [v ->].
    destruct (read_expenses st) as [st1 [rows|e]]; [|discriminate].
    destruct (index_ok index rows); discriminate.
  - intros Hne st1 rows Hread.
    apply andb_prop in Hne as [Hne Ha]. apply andb_prop in Hne as [Hd Hc].
    unfold on_save. rewrite Hd, Hc, Ha. cbn [negb orb].
    destruct (safe_float_total (strip a)) as [v ->].
    rewrite Hread. destruct (index_ok index rows); reflexivity.
Qed.

(** X4. An edit or a delete that is not applied changes no row: if
    [on_save] or [on_delete] answers anything but "Saved."/"Deleted.",
    [read_expenses] returns afterwards what it returned before. *)
Theorem unapplied_edit_keeps_rows (index : Z) (d c a n : pystr) (confirm : bool)
  (st : store) :
  (snd (on_save index d c a n st) <> Applied ->
   snd (read_expenses (fst (on_save index d c a n st))) = snd (read_expenses st))
  /\ (snd (on_delete index confirm st) <> Applied ->
      snd (read_expenses (fst (on_delete index confirm st))) = snd (read_expenses st)).
Proof.
  split.
  - unfold on_save.
    destruct (_ || _)%bool; [reflexivity|].
    destruct (safe_float_total (strip a)) as [v ->].
    destruct (read_expenses st) as [st1 res] eqn:Hread.
    pose proof (read_expenses_again _ _ _ Hread) as Hagain.
    destruct res as [rows|e]; cbn [fst snd].
    + destruct (index_ok index rows); cbn [fst snd]; [congruence|].
      intros _. rewrite Hagain. reflexivity.
    + intros _. rewrite Hagain. reflexivity.
  - unfold on_delete. destruct confirm; [|reflexivity].
    destruct (read_expenses st) as [st1 res] eqn:Hread.
    pose proof (read_expenses_again _ _ _ Hread) as Hagain.
    destruct res as [rows|e]; cbn [fst snd].
    + destruct (index_ok index rows); cbn [fst snd]; [congruence|].
      intros _. rewrite Hagain. reflexivity.
    + intros _. rewrite Hagain. reflexivity.
Qed.

End Edit.

Lemma on_save_applied_witness :
  exists earlier old later,
    sample_rows = earlier ++ old :: later
    /\ List.length earlier = 1%nat
    /\ on_save (F:=spec_float) 1 (str " 2024-03-17 ") (str "Rent") (str "abc") []
         sample_store
       = (write_expenses
            (earlier ++ Build_row (str "2024-03-17") (str "Rent") (str "abc") []
             :: later) sample_store, Applied).
Proof.
  destruct (on_save_applied (F:=spec_float) 1 (str " 2024-03-17 ") (str "Rent")
              (str "abc") [] sample_store sample_store sample_rows
              ltac:(vm_compute; reflexivity) ltac:(vm_compute; reflexivity)
              ltac:(vm_compute; reflexivity) ltac:(vm_compute; reflexivity))
    as (earlier & old & later & Hrows & Hlen & Hsave & _).
  exists earlier, old, later. split; [exact Hrows|]. split; [exact Hlen|].
  exact Hsave.
Defined.

Lemma on_save_never_invalid_witness :
  snd (on_save (F:=spec_float) 5 (str "2024-03-17") (str "Rent") (str "abc") []
         sample_store)
  = RowUnavailable.
Proof.
  apply (proj2 (on_save_never_invalid (F:=spec_float) 5 (str "2024-03-17")
                  (str "Rent") (str "abc") [] sample_store)
           ltac:(vm_compute; reflexivity) sample_store sample_rows
           ltac:(vm_compute; reflexivity)).
Defined.

Lemma unapplied_edit_keeps_rows_witness :
  snd (read_expenses (fst (on_delete 7 true sample_store)))
  = snd (read_expenses sample_store).
Proof.
  apply (proj2 (unapplied_edit_keeps_rows (F:=spec_float) 7 [] [] [] [] true
                  sample_store)).
  vm_compute. intros E. discriminate E.
Defined.

(* ===================================================================== *)
(** * The tables of the charts, bucket by bucket *)
(* ===================================================================== *)

Section Months.
Context {F : Type} `{Arith F}.
Variable fromisoformat : pystr -> result (Z * Z).
Variable now : pystr.

(** The inner table of a month is the category table of the rows of
    that month. *)
Lemma inner_table m expenses : forall t : list (pystr * totals F),
  get_or m (fold_left (add_month_category fromisoformat now) expenses t) []
  = fold_left add_category (filter (in_month fromisoformat now m) expenses)
      (get_or m t []).
Proof.
  induction expenses as [|r rows IH]; intros t; [reflexivity|].
  cbn [fold_left filter]. rewrite IH.
  unfold add_month_category. rewrite get_dict_add2.
  unfold in_month.
  destruct (str_eqb (month_of fromisoformat now r) m); reflexivity.
Qed.

Lemma dict_add2_keys m c a (d : list (pystr * totals F)) :
  List.map fst (dict_add2 m c a d)
  = if existsb (str_eqb m) (List.map fst d) then List.map fst d
    else List.map fst d ++ [m].
Proof.
  induction d as [|[m' v] d IH]; [reflexivity|].
  cbn [dict_add2 List.map fst existsb].
  destruct (str_eqb m m'); [reflexivity|].
  cbn [List.map fst orb]. rewrite IH.
  destruct (existsb _ _); reflexivity.
Qed.

Lemma month_category_keys expenses : forall t : list (pystr * totals F),
  List.map fst (fold_left (add_month_category fromisoformat now) expenses t)
  = List.map fst t
    ++ first_seen (List.map (month_of fromisoformat now) expenses) (List.map fst t).
Proof.
  induction expenses as [|r rest IH]; intros t.
  - cbn. rewrite app_nil_r. reflexivity.
  - cbn [fold_left List.map first_seen]. rewrite IH.
    unfold add_month_category. rewrite dict_add2_keys.
    destruct (existsb (str_eqb (month_of fromisoformat now r)) (List.map fst t))
      eqn:E; [reflexivity|].
    rewrite <- app_assoc. cbn [app]. f_equal. f_equal.
    apply first_seen_ext. intros k. rewrite existsb_snoc. reflexivity.
Qed.

End Months.

(** X5. Bucket by bucket, in the arithmetic of the program: the total
    [update_charts] holds for a category is the sum of the amounts of
    the rows of that category, added in the order of the rows, and the
    total of a month is the sum of the amounts of the rows of that
    month; a bucket no row falls into reads as 0.  The month-by-category
    table has one inner table for each month, in the order in which the
    months first occur, and the inner table of a month holds, for each
    category of the rows of that month in the order of first
    occurrence, the sum of the amounts of the rows of that month and
    category. *)
Theorem bucket_totals {F : Type} `{Arith F}
  (fromisoformat : pystr -> result (Z * Z))
  (sorted_unordered : totals F -> totals F)
  (now : pystr) (expenses : list row) :
  exists c : charts F,
    update_charts fromisoformat sorted_unordered now expenses = Ok c
    /\ (forall k,
          get_or k (category_totals (totals_of c)) (flit 0)
          = total (List.map amount_of (filter (in_category k) expenses)))
    /\ (forall m,
          get_or m (month_totals (totals_of c)) (flit 0)
          = total (List.map amount_of
                     (filter (in_month fromisoformat now m) expenses)))
    /\ List.map fst (month_category (totals_of c))
       = first_seen (List.map (month_of fromisoformat now) expenses) []
    /\ (forall m,
          get_or m (month_category (totals_of c)) []
          = List.map
              (fun k =>
                 (k, total (List.map amount_of
                              (filter (in_category k)
                                 (filter (in_month fromisoformat now m) expenses)))))
              (first_seen
                 (List.map category_of
                    (filter (in_month fromisoformat now m) expenses)) [])).
Proof.
  unfold update_charts. rewrite aggregate_fold. cbn [bind].
  eexists. split; [reflexivity|].
  cbn [totals_of category_totals month_totals month_category].
  split; [|split; [|split]].
  - intros k. apply (get_fold category_of k expenses []).
  - intros m. apply (get_fold (month_of fromisoformat now) m expenses []).
  - apply (month_category_keys fromisoformat now expenses []).
  - intros m. rewrite inner_table.
    apply (table_closed category_of
             (filter (in_month fromisoformat now m) expenses)).
Qed.

(** In binary64: the rows of 0.1, 0.2 and 0.3 by category and by month. *)
Example buckets_of_decimal_rows :
  (c <- update_charts (F:=spec_float) fromisoformat_ref (fun l => l)
          (str "2026-11") decimal_rows ;;
   Ok (get_or (str "B") (category_totals (totals_of c)) (flit 0),
       get_or (str "Z") (category_totals (totals_of c)) (flit 0)))
  = Ok (B64.of_dec false 5 (-1), flit 0).
Proof. vm_compute. reflexivity. Qed.

(* ===================================================================== *)
(** * SIP calculator: periods under a month *)
(* ===================================================================== *)

Module B64Zero.

Lemma mul_zero_r x s :
  isfinite x = true -> B64.is_zero (SFmul B64.prec B64.emax x (S754_zero s)) = true.
Proof. destruct x; cbn; try discriminate; reflexivity. Qed.

Lemma mul_zero_l x z :
  isfinite x = true -> B64.is_zero z = true ->
  B64.is_zero (SFmul B64.prec B64.emax z x) = true.
Proof. destruct z; try discriminate. destruct x; cbn; try discriminate; reflexivity. Qed.

Lemma div_zero_l x s :
  isfinite x = true -> B64.is_zero x = false ->
  B64.is_zero (SFdiv B64.prec B64.emax (S754_zero s) x) = true.
Proof. destruct x; cbn; try discriminate; reflexivity. Qed.

Lemma one_minus_one : SFsub B64.prec B64.emax B64.one B64.one = S754_zero false.
Proof. vm_compute. reflexivity. Qed.

Lemma eq_zero_is_zero x :
  isfinite x = true -> SFeqb x (S754_zero false) = B64.is_zero x.
Proof. destruct x as [[|]|[|]| |[|] m e]; cbn; try discriminate; reflexivity. Qed.

End B64Zero.

(** The steps of [on_calculate] once the three numbers are read and
    pass the validation. *)
Lemma on_calculate_steps (monthly annual years goal : pystr) (P r y : spec_float) :
  py_float (strip monthly) = Ok P ->
  py_float (strip annual) = Ok r ->
  py_float (strip years) = Ok y ->
  fleb (flit 0) P = true ->
  fltb (flit 0) y = true ->
  on_calculate monthly annual years goal
  = let mr := SFdiv B64.prec B64.emax (SFdiv B64.prec B64.emax r f100) f12 in
    match (n <- B64.to_int (SFmul B64.prec B64.emax y f12) ;;
           fv <- future_value P mr n ;; Ok (n, mr, fv)) with
    | Ok (n, mr', fv) =>
        Displayed n mr' fv
          (if nonempty (strip goal) then
             match (g <- py_float (strip goal) ;; required_monthly g mr' n) with
             | Ok req => Some req
             | Raise _ => None
             end
           else None)
    | Raise e => Uncaught e
    end.
Proof.
  intros HP Hr Hy HP0 Hy0.
  cbn [fleb fltb binary64] in HP0, Hy0. rewrite b64_flit_0 in HP0, Hy0.
  unfold on_calculate, sip_validate.
  rewrite HP, Hr, Hy. cbn [bind]. cbn [fdiv fmul to_int fltb fleb binary64].
  rewrite flit_12, flit_100, b64_flit_0.
  rewrite (B64Facts.div_nonzero r f100) by reflexivity. cbn [bind].
  rewrite (B64Facts.not_negative P HP0), (B64Facts.positive_not_le y Hy0). cbn [orb].
  destruct (B64.to_int _) as [n|e]; cbn [bind]; [|reflexivity].
  rewrite (B64Facts.div_nonzero _ f12) by reflexivity. reflexivity.
Qed.

Section NoPeriods.
Variables P mr : spec_float.
Hypothesis P_finite : isfinite P = true.
Hypothesis mr_finite : isfinite mr = true.
Hypothesis growth_finite : isfinite (fadd (flit 1) mr) = true.

Lemma future_value_no_periods :
  exists fv, future_value P mr 0 = Ok fv /\ B64.is_zero fv = true.
Proof.
  unfold future_value.
  cbn [feqb fadd fsub fmul fdiv fpow of_int binary64] in *.
  rewrite b64_flit_0, (B64Zero.eq_zero_is_zero mr mr_finite).
  destruct (B64.is_zero mr) eqn:Ez.
  - change (B64.of_int 0) with (Ok (S754_zero false) : result spec_float).
    cbn [bind]. eexists. split; [reflexivity|].
    apply B64Zero.mul_zero_r. exact P_finite.
  - change (B64.pow (SFadd B64.prec B64.emax (flit 1) mr) 0)
      with (Ok B64.one : result spec_float).
    cbn [bind]. change (flit 1) with B64.one in *.
    rewrite B64Zero.one_minus_one.
    unfold B64.div. rewrite Ez. cbn [bind].
    pose proof (B64Zero.div_zero_l mr false mr_finite Ez) as Hq.
    eexists. split; [reflexivity|].
    apply B64Zero.mul_zero_l; [exact growth_finite|].
    destruct (SFdiv _ _ _ _); try discriminate Hq.
    apply B64Zero.mul_zero_r. exact P_finite.
Qed.

Lemma required_monthly_no_periods goal :
  required_monthly goal mr 0 = Raise ZeroDivisionError.
Proof.
  unfold required_monthly.
  cbn [feqb fadd fsub fmul fdiv fpow of_int binary64] in *.
  rewrite b64_flit_0, (B64Zero.eq_zero_is_zero mr mr_finite).
  destruct (B64.is_zero mr) eqn:Ez.
  - reflexivity.
  - change (B64.pow (SFadd B64.prec B64.emax (flit 1) mr) 0)
      with (Ok B64.one : result spec_float).
    cbn [bind]. change (flit 1) with B64.one in *.
    rewrite B64Zero.one_minus_one.
    unfold B64.div at 1. rewrite Ez. cbn [bind].
    pose proof (B64Zero.div_zero_l mr false mr_finite Ez) as Hq.
    pose proof (B64Zero.mul_zero_l _ _ growth_finite Hq) as Hfac.
    unfold B64.div. rewrite Hfac. reflexivity.
Qed.

End NoPeriods.

(** X7. A period under one month.  When the years entered are positive
    but [int(years * 12)] is 0, and the contribution, the monthly rate
    and 1 + rate are finite numbers, the calculator displays 0 periods
    and a corpus of zero, and shows no required contribution whatever
    the goal entered: computing it divides by zero, which the handler
    swallows. *)
Theorem sip_under_a_month (monthly annual years goal : pystr) (P r y : spec_float) :
  py_float (strip monthly) = Ok P ->
  py_float (strip annual) = Ok r ->
  py_float (strip years) = Ok y ->
  fleb (flit 0) P = true ->
  fltb (flit 0) y = true ->
  to_int (fmul y (flit 12)) = Ok 0 ->
  isfinite P = true ->
  isfinite (SFdiv B64.prec B64.emax (SFdiv B64.prec B64.emax r f100) f12) = true ->
  isfinite (fadd (flit 1)
              (SFdiv B64.prec B64.emax (SFdiv B64.prec B64.emax r f100) f12)) = true ->
  exists fv,
    on_calculate monthly annual years goal
    = Displayed 0 (SFdiv B64.prec B64.emax (SFdiv B64.prec B64.emax r f100) f12) fv None
    /\ B64.is_zero fv = true.
Proof.
  intros HP Hr Hy HP0 Hy0 Hn HPf Hmrf H1f.
  rewrite (on_calculate_steps monthly annual years goal P r y HP Hr Hy HP0 Hy0).
  cbn [fmul to_int binary64] in Hn. rewrite flit_12 in Hn.
  cbv zeta. rewrite Hn. cbn [bind].
  destruct (future_value_no_periods P _ HPf Hmrf H1f) as (fv & -> & Hfv).
  cbn [bind]. exists fv. split; [|exact Hfv]. f_equal.
  destruct (nonempty (strip goal)); [|reflexivity].
  destruct (py_float (strip goal)) as [g|]; [|reflexivity]. cbn [bind].
  rewrite (required_monthly_no_periods _ Hmrf H1f). reflexivity.
Qed.

Lemma sip_under_a_month_witness :
  exists fv,
    on_calculate (str "1000") (str "12") (str "0.05") (str "5000")
    = Displayed 0 (B64.of_dec false 1 (-2)) fv None
    /\ B64.is_zero fv = true.
Proof.
  assert (H1 : py_float (strip (str "1000")) = Ok (B64.of_dec false 1000 0))
    by (vm_compute; reflexivity).
  assert (H2 : py_float (strip (str "12")) = Ok (B64.of_dec false 12 0))
    by (vm_compute; reflexivity).
  assert (H3 : py_float (strip (str "0.05")) = Ok (B64.of_dec false 5 (-2)))
    by (vm_compute; reflexivity).
  pose proof (sip_under_a_month (str "1000") (str "12") (str "0.05") (str "5000")
                (B64.of_dec false 1000 0) (B64.of_dec false 12 0)
                (B64.of_dec false 5 (-2)) H1 H2 H3) as Hc.
  specialize (Hc ltac:(vm_compute; reflexivity)).
  specialize (Hc ltac:(vm_compute; reflexivity)).
  specialize (Hc ltac:(vm_compute; reflexivity)).
  specialize (Hc ltac:(vm_compute; reflexivity)).
  specialize (Hc ltac:(vm_compute; reflexivity)).
  specialize (Hc ltac:(vm_compute; reflexivity)).
  assert (E : SFdiv B64.prec B64.emax
                (SFdiv B64.prec B64.emax (B64.of_dec false 12 0) f100) f12
              = B64.of_dec false 1 (-2)) by (vm_compute; reflexivity).
  rewrite E in Hc. exact Hc.
Defined.

(* ===================================================================== *)
(** * Digits *)
(* ===================================================================== *)

Module Digits.
Open Scope N_scope.

Lemma digits_value_fold ds : digits_value ds = fold_left digit_step ds 0.
Proof. reflexivity. Qed.

Lemma fold_uint_acc u : forall acc : positive,
  fold_left digit_step (uint_chars u) (Npos acc) = Npos (Pos.of_uint_acc u acc).
Proof.
  induction u; intros acc; cbn [uint_chars fold_left Pos.of_uint_acc];
    try reflexivity;
    match goal with
    | |- fold_left digit_step _ ?a = N.pos (Pos.of_uint_acc _ ?b) =>
        replace a with (N.pos b) by (unfold digit_step; lia); apply IHu
    end.
Qed.

Lemma fold_uint u : fold_left digit_step (uint_chars u) 0 = N.of_uint u.
Proof.
  induction u; cbn [uint_chars fold_left]; try reflexivity;
    try (match goal with
         | |- fold_left digit_step _ ?a = _ =>
             let p := eval vm_compute in a in change a with p
         end;
         first [exact IHu | apply fold_uint_acc]).
Qed.

(** Reading the digits of a number gives the number. *)
Lemma digits_value_N_chars n : digits_value (N_chars n) = n.
Proof.
  rewrite digits_value_fold. unfold N_chars. rewrite fold_uint.
  apply DecimalN.Unsigned.of_to.
Qed.

Lemma uint_chars_digits u : forallb is_ascii_digit (uint_chars u) = true.
Proof. induction u; cbn [uint_chars forallb]; try reflexivity; exact IHu. Qed.

Lemma N_chars_digits n : forallb is_ascii_digit (N_chars n) = true.
Proof. apply uint_chars_digits. Qed.

Lemma N_chars_nonempty n : N_chars n <> [].
Proof.
  intros E. pose proof (digits_value_N_chars n) as H. rewrite E in H.
  cbn in H. subst n. discriminate E.
Qed.

Lemma digits_value_zeros k ds : digits_value (repeat 48 k ++ ds) = digits_value ds.
Proof.
  rewrite !digits_value_fold, fold_left_app.
  replace (fold_left digit_step (repeat 48 k) 0) with 0; [reflexivity|].
  induction k; [reflexivity|]. cbn [repeat fold_left]. exact IHk.
Qed.

Lemma repeat_digits k : forallb is_ascii_digit (repeat 48 k) = true.
Proof. induction k; [reflexivity|]. cbn [repeat forallb]. exact IHk. Qed.

End Digits.

(* ===================================================================== *)
(** * Numbers written with two decimals *)
(* ===================================================================== *)

Module Fixed.

(** The parts of [fixed2 n]: digits, the point, two digits. *)
Lemma fixed2_parts n :
  exists ip fp,
    fixed2 n = ip ++ ch "." :: fp
    /\ forallb is_ascii_digit ip = true /\ forallb is_ascii_digit fp = true
    /\ ip <> [] /\ List.length fp = 2%nat
    /\ digits_value (ip ++ fp) = n.
Proof.
  unfold fixed2. cbv zeta.
  set (ds := (repeat 48%N (3 - List.length (N_chars n)) ++ N_chars n)%list).
  assert (Hlen : (3 <= List.length ds)%nat).
  { unfold ds. rewrite length_app, repeat_length. unfold pystr, char in *. lia. }
  assert (Hd : forallb is_ascii_digit ds = true).
  { unfold ds. rewrite forallb_app, Digits.repeat_digits, Digits.N_chars_digits.
    reflexivity. }
  exists (firstn (List.length ds - 2) ds), (skipn (List.length ds - 2) ds).
  rewrite <- (firstn_skipn (List.length ds - 2) ds), forallb_app in Hd.
  apply andb_prop in Hd as [Hd1 Hd2].
  repeat split; try assumption.
  - intros E. apply (f_equal (@List.length _)) in E.
    rewrite length_firstn in E. simpl in E. lia.
  - rewrite length_skipn. lia.
  - rewrite firstn_skipn. unfold ds. rewrite Digits.digits_value_zeros.
    apply Digits.digits_value_N_chars.
Qed.

Lemma digits_claimed l :
  forallb is_ascii_digit l = true -> forallb claimed_amount_char l = true.
Proof.
  intros Hl. rewrite forallb_forall in *. intros c Hc.
  unfold claimed_amount_char. rewrite (Hl c Hc). reflexivity.
Qed.

Lemma fixed2_alphabet s n :
  forallb claimed_amount_char (sign_chars s ++ fixed2 n) = true.
Proof.
  destruct (fixed2_parts n) as (ip & fp & -> & Hip & Hfp & _).
  rewrite !forallb_app. cbn [forallb].
  rewrite (digits_claimed _ Hip), (digits_claimed _ Hfp).
  destruct s; reflexivity.
Qed.

Lemma unsigned_fixed2 n : unsigned_decimal (fixed2 n) = Some (n, -2).
Proof.
  destruct (fixed2_parts n) as (ip & fp & -> & Hip & Hfp & Hne & Hlen & Hval).
  unfold unsigned_decimal. cbv zeta.
  assert (Ht : takewhile is_ascii_digit (ip ++ ch "." :: fp) = ip).
  { clear -Hip. induction ip as [|c ip IH]; [reflexivity|].
    cbn [forallb] in Hip. apply andb_prop in Hip as [Hc Hip].
    cbn [app takewhile]. rewrite Hc, IH by exact Hip. reflexivity. }
  assert (Hdr : dropwhile is_ascii_digit (ip ++ ch "." :: fp) = ch "." :: fp).
  { clear -Hip. induction ip as [|c ip IH]; [reflexivity|].
    cbn [forallb] in Hip. apply andb_prop in Hip as [Hc Hip].
    cbn [app dropwhile]. rewrite Hc. apply IH; exact Hip. }
  rewrite Ht, Hdr, N.eqb_refl, Hfp, Hval, Hlen.
  destruct ip; [congruence|]. reflexivity.
Qed.

Lemma signed_fixed2 s n :
  signed_decimal (sign_chars s ++ fixed2 n) = Some (s, n, -2).
Proof.
  destruct s; cbn [sign_chars app].
  - unfold signed_decimal. rewrite N.eqb_refl, unsigned_fixed2. reflexivity.
  - pose proof (unsigned_fixed2 n) as Hu.
    destruct (fixed2_parts n) as (ip & fp & E & Hip & _ & Hne & _).
    unfold signed_decimal. rewrite Hu. rewrite E.
    destruct ip as [|c ip]; [congruence|]. cbn [app].
    cbn [forallb] in Hip. apply andb_prop in Hip as [Hc _].
    apply is_ascii_digit_spec in Hc. change (ch "-") with 45%N.
    destruct (N.eqb_spec c 45); [lia|reflexivity].
Qed.

(** [float] reads a number written with two decimals. *)
Lemma py_float_fixed2 {F} `{Arith F} s n :
  py_float (sign_chars s ++ fixed2 n) = Ok (of_dec s n (-2)).
Proof.
  unfold py_float.
  pose proof (fixed2_alphabet s n) as Ha.
  rewrite (float_literal_amount _ _ (to_ascii_id _ (claimed_amount_ascii _ Ha))
             (claimed_amount_ascii _ Ha)).
  rewrite signed_fixed2. reflexivity.
Qed.

Lemma zero_text s : (sign_chars s ++ str "0.00")%list = (sign_chars s ++ fixed2 0)%list.
Proof. reflexivity. Qed.

(** What [float] reads from [format(x, ".2f")]. *)
Lemma py_float_format_2f x :
  py_float (F:=spec_float) (format_2f x) = Ok (in_cents x).
Proof.
  destruct x as [s|s| |s m e]; cbn [format_2f in_cents].
  - rewrite zero_text, (py_float_fixed2 (F:=spec_float)). reflexivity.
  - destruct s; vm_compute; reflexivity.
  - vm_compute. reflexivity.
  - exact (py_float_fixed2 (F:=spec_float) s (cents m e)).
Qed.

Lemma not_space_claimed c : claimed_amount_char c = true -> isspace c = false.
Proof.
  intros Hc. apply amount_char_not_space. unfold amount_char.
  unfold claimed_amount_char in Hc.
  apply orb_true_iff in Hc as [Hc|Hc]; [|rewrite Hc; apply orb_true_r].
  apply orb_true_iff in Hc as [Hc|Hc].
  - rewrite (ascii_digit_isdigit _ Hc). reflexivity.
  - rewrite Hc, orb_true_r. reflexivity.
Qed.

(** A text without white space is left alone by [strip]. *)
Lemma strip_no_space s :
  forallb (fun c => negb (isspace c)) s = true -> strip s = s.
Proof. apply (strip_by_id isspace). Qed.

Lemma format_2f_no_space x :
  forallb (fun c => negb (isspace c)) (format_2f x) = true.
Proof.
  destruct x as [s|s| |s m e]; cbn [format_2f].
  - destruct s; reflexivity.
  - destruct s; reflexivity.
  - reflexivity.
  - pose proof (fixed2_alphabet s (cents m e)) as Ha.
    rewrite forallb_forall in *. intros c Hc.
    rewrite (not_space_claimed c (Ha c Hc)). reflexivity.
Qed.

Lemma format_2f_nonempty x : nonempty (format_2f x) = true.
Proof.
  destruct x as [s|s| |s m e]; cbn [format_2f]; try (destruct s; reflexivity);
    try reflexivity.
  destruct (fixed2_parts (cents m e)) as (ip & fp & -> & _).
  destruct s, ip; reflexivity.
Qed.

End Fixed.

(* ===================================================================== *)
(** * The amount text of the entry window *)
(* ===================================================================== *)

Lemma filter_all {A} (p : A -> bool) l : forallb p l = true -> filter p l = l.
Proof.
  induction l as [|a l IH]; [reflexivity|]. cbn [forallb filter]. intros H.
  apply andb_prop in H as [Ha H]. rewrite Ha, IH by exact H. reflexivity.
Qed.

Lemma filter_none {A} (p : A -> bool) l :
  forallb (fun a => negb (p a)) l = true -> filter p l = [].
Proof.
  induction l as [|a l IH]; [reflexivity|]. cbn [forallb filter]. intros H.
  apply andb_prop in H as [Ha H]. apply negb_true_iff in Ha.
  rewrite Ha. apply IH; exact H.
Qed.

Lemma claimed_is_amount_char c : claimed_amount_char c = true -> amount_char c = true.
Proof.
  unfold claimed_amount_char, amount_char. intros Hc.
  apply orb_true_iff in Hc as [Hc|Hc]; [|rewrite Hc; apply orb_true_r].
  apply orb_true_iff in Hc as [Hc|Hc].
  - rewrite (ascii_digit_isdigit _ Hc). reflexivity.
  - rewrite Hc, orb_true_r. reflexivity.
Qed.

Lemma format_2f_alphabet x :
  isfinite x = true -> forallb claimed_amount_char (format_2f x) = true.
Proof.
  destruct x as [s|s| |s m e]; try discriminate; intros _; cbn [format_2f].
  - destruct s; reflexivity.
  - apply Fixed.fixed2_alphabet.
Qed.

Lemma decimal_format_2f x :
  isfinite x = true -> decimal_or_zero (format_2f x) = in_cents x.
Proof.
  destruct x as [s|s| |s m e]; try discriminate; intros _;
    cbn [format_2f in_cents]; unfold decimal_or_zero.
  - rewrite Fixed.zero_text, Fixed.signed_fixed2. reflexivity.
  - rewrite Fixed.signed_fixed2. reflexivity.
Qed.

(** What [safe_float] keeps of a currency sign followed by an amount
    with two decimals. *)
Lemma kept_of_amount_text cur x :
  isfinite x = true ->
  filter amount_char (strip (cur ++ format_2f x))
  = filter amount_char cur ++ format_2f x.
Proof.
  intros Hx. rewrite filter_strip by apply amount_char_not_space.
  rewrite filter_app. f_equal. apply filter_all.
  pose proof (format_2f_alphabet x Hx) as Ha.
  rewrite forallb_forall in *. intros c Hc.
  apply claimed_is_amount_char, Ha, Hc.
Qed.

Lemma safe_float_amount_text cur x :
  isfinite x = true ->
  forallb (fun c => negb (amount_char c)) cur = true ->
  safe_float (strip (cur ++ format_2f x)) = Ok (in_cents x).
Proof.
  intros Hx Hcur. rewrite safe_float_normalize. f_equal.
  unfold normalize_amount.
  rewrite (kept_of_amount_text cur x Hx), (filter_none _ _ Hcur). cbn [app].
  rewrite ascii_digits_id by (apply format_2f_alphabet; exact Hx).
  apply decimal_format_2f; exact Hx.
Qed.

Lemma py_float_nil {F} `{Arith F} : py_float (F:=F) [] = Raise ValueError.
Proof. reflexivity. Qed.

(** X8. What the entry window stores.  When the category is not blank,
    the amount text is a finite number and the file is one that
    [write_expenses] wrote, [on_add_expense] appends one row and the next
    [read_expenses] returns the old rows followed by it: its date is the
    date of the picker, its category and note are the trimmed texts, its
    amount text is the currency followed by the amount with two decimals;
    and when the currency holds no digit, point or minus sign,
    [safe_float] reads that text as the amount rounded to two decimals
    (ties to even on the binary value). No cell may exceed the reader's
    limit. *)
Theorem entry_stores_cents (year month day : Z) (cat amt_txt note cur : pystr)
  (amt : spec_float) (rows : list row) (st0 : store) :
  nonempty (strip cat) = true ->
  py_float (strip amt_txt) = Ok amt ->
  isfinite amt = true ->
  rows_within_limit
    (rows ++ [Build_row (picker_date year month day) (strip cat)
                (cur ++ format_2f amt) (strip note)]) = true ->
  exists st' r,
    on_add_expense year month day cat amt_txt note cur (write_expenses rows st0)
    = (st', Added)
    /\ snd (read_expenses st') = Ok (List.map normalize_row rows ++ [r])
    /\ Date r = strip (picker_date year month day)
    /\ Category r = strip cat
    /\ Note r = strip note
    /\ Amount r = strip (cur ++ format_2f amt)
    /\ (forallb (fun c => negb (amount_char c)) cur = true ->
        safe_float (Amount r) = Ok (in_cents amt)).
Proof.
  intros Hcat Hamt Hfin Hlim.
  assert (Hne : nonempty (strip amt_txt) = true).
  { destruct (strip amt_txt); [|reflexivity].
    rewrite py_float_nil in Hamt. discriminate Hamt. }
  eexists. eexists. split; [|split].
  - unfold on_add_expense. rewrite Hcat, Hne, Hamt, Hfin. reflexivity.
  - apply (read_after_add _ _ _ _ rows st0 Hlim).
  - unfold normalize_row, cell_or. cbn [Date Category Amount Note].
    assert (Hs : forall f, strip (if nonempty (strip f) then strip f else []) = strip f).
    { intros f. destruct (strip f) eqn:E; [reflexivity|]. cbn [nonempty].
      rewrite <- E. apply strip_idem. }
    rewrite !Hs.
    assert (Ha : nonempty (cur ++ format_2f amt) = true).
    { pose proof (Fixed.format_2f_nonempty amt) as Hf.
      destruct cur; [exact Hf|reflexivity]. }
    rewrite Ha.
    split; [destruct (picker_date year month day); reflexivity|].
    split; [reflexivity|]. split; [reflexivity|]. split; [reflexivity|].
    intros Hcur. apply safe_float_amount_text; assumption.
Qed.

Lemma entry_stores_cents_witness :
  exists st' r,
    on_add_expense 2024 3 2 (str " Tea ") (str "3.456") [] (str "$")
      (write_expenses sample_rows None)
    = (st', Added)
    /\ snd (read_expenses st') = Ok (List.map normalize_row sample_rows ++ [r])
    /\ Date r = str "2024-04-02"
    /\ Category r = str "Tea"
    /\ Amount r = str "$3.46"
    /\ safe_float (Amount r) = Ok (B64.of_dec false 346 (-2)).
Proof.
  assert (H2 : py_float (strip (str "3.456")) = Ok (B64.of_dec false 3456 (-3)))
    by (vm_compute; reflexivity).
  pose proof (entry_stores_cents 2024 3 2 (str " Tea ") (str "3.456") [] (str "$")
                (B64.of_dec false 3456 (-3)) sample_rows None
                ltac:(vm_compute; reflexivity) H2) as Hc.
  specialize (Hc ltac:(vm_compute; reflexivity)).
  specialize (Hc ltac:(vm_compute; reflexivity)).
  destruct Hc as (st' & r & Hadd & Hread & Hd & Hcat & _ & Ha & Hsafe).
  exists st', r. split; [exact Hadd|]. split; [exact Hread|].
  split; [rewrite Hd; vm_compute; reflexivity|].
  split; [rewrite Hcat; vm_compute; reflexivity|].
  split; [rewrite Ha; vm_compute; reflexivity|].
  rewrite (Hsafe ltac:(vm_compute; reflexivity)). vm_compute. reflexivity.
Defined.

(** X9. What the entry window refuses.  [on_add_expense] appends a row
    exactly when the category is not blank and [float] reads the trimmed
    amount text as a finite number; a blank category or amount, a text
    that is no number, and a text that [float] reads as infinite or NaN
    are refused, and a refusal leaves the file as it is, not even
    creating it. *)
Theorem entry_refusals (year month day : Z) (cat amt_txt note cur : pystr)
  (st : store) :
  (snd (on_add_expense year month day cat amt_txt note cur st) = Added
   <-> nonempty (strip cat) = true
       /\ exists amt, py_float (strip amt_txt) = Ok amt /\ isfinite amt = true)
  /\ (snd (on_add_expense year month day cat amt_txt note cur st) <> Added ->
      fst (on_add_expense year month day cat amt_txt note cur st) = st)
  /\ (forall amt, py_float (strip amt_txt) = Ok amt -> isfinite amt = false ->
      nonempty (strip cat) = true ->
      on_add_expense year month day cat amt_txt note cur st
      = (st, InvalidEntryAmount)).
Proof.
  unfold on_add_expense. split; [|split].
  - split.
    + destruct (nonempty (strip cat)); cbn [negb orb]; [|discriminate].
      destruct (nonempty (strip amt_txt)); cbn [negb]; [|discriminate].
      destruct (py_float (strip amt_txt)) as [amt|]; [|discriminate].
      destruct (isfinite amt) eqn:Ef; [|discriminate].
      intros _. split; [reflexivity|]. exists amt. split; [reflexivity|exact Ef].
    + intros (Hcat & amt & Hamt & Hfin). rewrite Hcat. cbn [negb orb].
      destruct (strip amt_txt) eqn:E.
      * rewrite py_float_nil in Hamt. discriminate Hamt.
      * cbn [nonempty negb]. rewrite Hamt, Hfin. reflexivity.
  - destruct (_ || _)%bool; [reflexivity|].
    destruct (py_float (strip amt_txt)) as [amt|]; [|reflexivity].
    destruct (isfinite amt); [|reflexivity]. cbn [snd]. congruence.
  - intros amt Hamt Hfin Hcat. rewrite Hcat. cbn [negb orb].
    destruct (strip amt_txt) eqn:E.
    + rewrite py_float_nil in Hamt. discriminate Hamt.
    + cbn [nonempty negb]. rewrite Hamt, Hfin. reflexivity.
Qed.

Lemma entry_refusals_witness :
  on_add_expense 2024 3 2 (str "Tea") (str "1e999") [] (str "$") None
  = (None, InvalidEntryAmount).
Proof.
  apply (proj2 (proj2 (entry_refusals 2024 3 2 (str "Tea") (str "1e999") []
                         (str "$") None)) (S754_infinity false));
    vm_compute; reflexivity.
Defined.

(** X10. The currency options and [safe_float].  For every finite
    amount, the amount text the entry window stores with one of the
    currency options is read by [safe_float] as the amount rounded to
    two decimals - except with the first option, as the source file
    spells it: its last character, U+00B9, is a digit for [str.isdigit]
    but no decimal digit, so [safe_float] keeps it, [float] rejects the
    text and the amount counts as 0.0. *)
Theorem currency_options_read_back (cur : pystr) (amt : spec_float) :
  In cur CURRENCY_OPTIONS -> isfinite amt = true ->
  safe_float (strip (cur ++ format_2f amt))
  = Ok (if str_eqb cur [226; 8218; 185]%N then flit 0 else in_cents amt).
Proof.
  intros Hin Hfin. cbn [CURRENCY_OPTIONS In] in Hin.
  destruct Hin as [<-|Hin].
  - replace (str_eqb [226; 8218; 185]%N [226; 8218; 185]%N) with true
      by (vm_compute; reflexivity).
    rewrite safe_float_normalize. f_equal.
    unfold normalize_amount. rewrite (kept_of_amount_text _ amt Hfin).
    reflexivity.
  - repeat (destruct Hin as [<-|Hin];
            [apply (safe_float_amount_text _ amt Hfin); vm_compute; reflexivity|]).
    destruct Hin.
Qed.

Lemma currency_options_read_back_witness :
  safe_float (strip ([226; 8218; 185]%N ++ format_2f (B64.of_dec false 500 0)))
  = Ok (flit 0 : spec_float)
  /\ safe_float (strip (str "AED" ++ format_2f (B64.of_dec false 500 0)))
     = Ok (B64.of_dec false 500 0).
Proof.
  split.
  - apply (currency_options_read_back [226; 8218; 185]%N (B64.of_dec false 500 0));
      [left; reflexivity|vm_compute; reflexivity].
  - refine (eq_trans
              (currency_options_read_back (str "AED") (B64.of_dec false 500 0) _ _) _).
    + cbn [CURRENCY_OPTIONS In]. do 5 right. left. reflexivity.
    + vm_compute. reflexivity.
    + vm_compute. reflexivity.
Defined.

(* ===================================================================== *)
(** * Incomes *)
(* ===================================================================== *)

(** ** Dicts *)

Section Dict.
Context {V : Type}.
Implicit Types d : list (pystr * V).

Lemma dict_set_keys k v d :
  List.map fst (dict_set k v d)
  = if existsb (str_eqb k) (List.map fst d) then List.map fst d
    else List.map fst d ++ [k].
Proof.
  induction d as [|[k' v'] d IH]; [reflexivity|].
  cbn [dict_set List.map fst existsb].
  destruct (str_eqb k k'); [reflexivity|].
  cbn [List.map fst orb]. rewrite IH.
  destruct (existsb _ _); reflexivity.
Qed.

Lemma dict_set_NoDup k v d :
  NoDup (List.map fst d) -> NoDup (List.map fst (dict_set k v d)).
Proof.
  intros Hd. rewrite dict_set_keys.
  destruct (existsb (str_eqb k) (List.map fst d)) eqn:E; [exact Hd|].
  apply NoDup_app; [exact Hd|constructor; [intros []|constructor]|].
  intros x Hx [<-|[]]. apply existsb_str_In in Hx. congruence.
Qed.

Lemma dict_set_new k v d :
  ~ In k (List.map fst d) -> dict_set k v d = d ++ [(k, v)].
Proof.
  induction d as [|[k' v'] d IH]; intros Hk; [reflexivity|].
  cbn [dict_set]. cbn [List.map fst In] in Hk.
  destruct (str_eqb k k') eqn:E.
  - apply str_eqb_eq in E. subst. exfalso. apply Hk. left. reflexivity.
  - cbn [app]. rewrite IH by tauto. reflexivity.
Qed.

(** [d[k] = v; d.get(k')] *)
Lemma dict_lookup_set k k' v d :
  dict_lookup k' (dict_set k v d)
  = if str_eqb k' k then Some v else dict_lookup k' d.
Proof.
  induction d as [|[k0 v0] d IH]; cbn [dict_set dict_lookup].
  - destruct (str_eqb k' k); reflexivity.
  - destruct (str_eqb k k0) eqn:E0; cbn [dict_lookup].
    + apply str_eqb_eq in E0. subst k0. destruct (str_eqb k' k); reflexivity.
    + destruct (str_eqb k' k0) eqn:E1; [|exact IH].
      apply str_eqb_eq in E1. subst k0.
      rewrite (str_eqb_sym k' k), E0. reflexivity.
Qed.

Lemma dict_lookup_In k v d : dict_lookup k d = Some v -> In (k, v) d.
Proof.
  induction d as [|[k0 v0] d IH]; cbn [dict_lookup]; [discriminate|].
  destruct (str_eqb k k0) eqn:E.
  - apply str_eqb_eq in E. subst. intros [= ->]. left. reflexivity.
  - intros Hl. right. apply IH, Hl.
Qed.

End Dict.

Lemma dict_lookup_map {V W} (f : V -> W) k (d : list (pystr * V)) :
  dict_lookup k (List.map (fun kv => (fst kv, f (snd kv))) d)
  = option_map f (dict_lookup k d).
Proof.
  induction d as [|[k0 v0] d IH]; [reflexivity|].
  cbn [List.map dict_lookup fst snd]. destruct (str_eqb k k0); [reflexivity|exact IH].
Qed.

(** Entries with distinct keys, set one after the other, stand in their
    order. *)
Lemma fold_set_distinct (l : incomes) : forall acc,
  NoDup (List.map fst (acc ++ l)) -> fold_left set_income l acc = (acc ++ l)%list.
Proof.
  induction l as [|[k v] l IH]; intros acc Hnd; cbn [fold_left].
  - rewrite app_nil_r. reflexivity.
  - unfold set_income at 2. cbn [fst snd].
    rewrite dict_set_new.
    + rewrite IH; rewrite <- app_assoc; [reflexivity|exact Hnd].
    + rewrite map_app in Hnd. cbn [List.map fst] in Hnd.
      apply NoDup_remove_2 in Hnd. intros Hk. apply Hnd.
      apply in_or_app. left. exact Hk.
Qed.

(** ** Reading what was written *)

Lemma income_of_written kv :
  writable_income kv = true ->
  income_of_record INCOME_HEADERS (income_record kv) = (fst kv, in_cents (snd kv)).
Proof.
  unfold writable_income. intros H. apply andb_prop in H as [Hk _].
  destruct kv as [k v]. cbn [fst snd] in *.
  unfold income_of_record, income_record. cbn [fst snd].
  change (Csv.dict_get (str "Month") INCOME_HEADERS [k; format_2f v]) with (Some k).
  change (Csv.dict_get (str "Income") INCOME_HEADERS [k; format_2f v])
    with (Some (format_2f v)).
  unfold cell_or. rewrite Fixed.format_2f_nonempty.
  rewrite (Fixed.strip_no_space _ (Fixed.format_2f_no_space v)).
  rewrite Fixed.py_float_format_2f. f_equal.
  destruct k as [|c k]; [reflexivity|]. cbn [nonempty].
  apply strip_trimmed. exact Hk.
Qed.

Lemma income_text d :
  Csv.writerow INCOME_HEADERS
    ++ List.concat (List.map (fun kv => Csv.writerow (income_record kv)) d)
  = List.concat (List.map Csv.writerow (INCOME_HEADERS :: List.map income_record d)).
Proof. cbn [List.map List.concat]. rewrite map_map. reflexivity. Qed.

Lemma income_records_wide d :
  forallb writable_income d = true ->
  forallb CsvScan.wide (INCOME_HEADERS :: List.map income_record d) = true.
Proof.
  intros Hd. cbn [forallb].
  replace (CsvScan.wide INCOME_HEADERS) with true by (vm_compute; reflexivity).
  cbn [andb]. induction d as [|kv d IH]; [reflexivity|].
  cbn [forallb] in Hd. apply andb_prop in Hd as [Hkv Hd].
  cbn [List.map forallb]. rewrite IH by exact Hd.
  unfold writable_income in Hkv. apply andb_prop in Hkv as [_ Hkv].
  unfold CsvScan.wide. rewrite Hkv. reflexivity.
Qed.

Lemma incomes_of_written d :
  forallb writable_income d = true -> NoDup (List.map fst d) ->
  incomes_of_records (INCOME_HEADERS :: List.map income_record d) = cents_of d.
Proof.
  intros Hd Hnd. cbn [incomes_of_records].
  assert (Hf : filter nonempty (List.map income_record d) = List.map income_record d).
  { apply filter_all. rewrite forallb_forall. intros r Hr.
    apply in_map_iff in Hr as [kv [<- _]]. reflexivity. }
  rewrite Hf, map_map.
  assert (Hm : List.map (fun kv => income_of_record INCOME_HEADERS (income_record kv)) d
               = cents_of d).
  { unfold cents_of. apply map_ext_in. intros kv Hkv. apply income_of_written.
    rewrite forallb_forall in Hd. apply Hd, Hkv. }
  rewrite Hm. rewrite (fold_set_distinct (cents_of d) []); [reflexivity|].
  cbn [app]. unfold cents_of. rewrite map_map. cbn [fst]. exact Hnd.
Qed.

Lemma read_incomes_written d st :
  forallb writable_income d = true -> NoDup (List.map fst d) ->
  read_incomes (write_incomes d st) = (write_incomes d st, Ok (cents_of d)).
Proof.
  intros Hd Hnd. unfold read_incomes, write_incomes.
  cbn [ensure_csv_exists file_text]. f_equal.
  rewrite income_text, CsvFacts.reader_all_written by (apply income_records_wide; exact Hd).
  cbn [bind]. rewrite incomes_of_written by assumption. reflexivity.
Qed.

(** X11. Incomes written and read again.  For a dict of incomes whose
    month keys carry no white space around them, every cell being within
    the reader's limit, [read_incomes] after [write_incomes] returns the
    same months in the same order, each amount rounded to two decimals
    (ties to even on the binary value); infinities and NaN come back as
    they are. *)
Theorem incomes_roundtrip (d : incomes) (st : store) :
  forallb writable_income d = true ->
  NoDup (List.map fst d) ->
  snd (read_incomes (write_incomes d st)) = Ok (cents_of d)
  /\ List.map fst (cents_of d) = List.map fst d
  /\ (forall k, dict_lookup k (cents_of d) = option_map in_cents (dict_lookup k d)).
Proof.
  intros Hd Hnd. split; [|split].
  - rewrite read_incomes_written by assumption. reflexivity.
  - unfold cents_of. rewrite map_map. reflexivity.
  - intros k. apply (dict_lookup_map in_cents).
Qed.

Lemma incomes_roundtrip_witness :
  snd (read_incomes
         (write_incomes [(str "2024-03", B64.of_dec false 12345 (-1));
                         (str "2024-04", B64.of_dec false 125 (-3))] None))
  = Ok [(str "2024-03", B64.of_dec false 12345 (-1));
        (str "2024-04", B64.of_dec false 12 (-2))].
Proof.
  refine (eq_trans
            (proj1 (incomes_roundtrip
                      [(str "2024-03", B64.of_dec false 12345 (-1));
                       (str "2024-04", B64.of_dec false 125 (-3))] None _ _)) _).
  - vm_compute. reflexivity.
  - cbn [List.map fst].
    constructor; [intros [E|[]]; discriminate E|].
    constructor; [intros []|constructor].
  - vm_compute. reflexivity.
Defined.

(** ** What [read_incomes] returns *)

Lemma fold_set_NoDup (l : incomes) : forall acc,
  NoDup (List.map fst acc) -> NoDup (List.map fst (fold_left set_income l acc)).
Proof.
  induction l as [|kv l IH]; intros acc Hacc; [exact Hacc|].
  cbn [fold_left]. apply IH. apply dict_set_NoDup. exact Hacc.
Qed.

Lemma fold_set_keys_In k (l : incomes) : forall acc,
  In k (List.map fst (fold_left set_income l acc)) ->
  In k (List.map fst acc) \/ In k (List.map fst l).
Proof.
  induction l as [|kv l IH]; intros acc Hk; [left; exact Hk|].
  cbn [fold_left] in Hk. apply IH in Hk as [Hk|Hk].
  - unfold set_income in Hk. rewrite dict_set_keys in Hk.
    destruct (existsb _ _); [left; exact Hk|].
    apply in_app_or in Hk as [Hk|[<-|[]]]; [left; exact Hk|].
    right. left. reflexivity.
  - right. right. exact Hk.
Qed.

Lemma incomes_of_records_keys recs k :
  CsvScan.bounded_records recs ->
  In k (List.map fst (incomes_of_records recs)) ->
  no_outer_space k = true /\ within_limit k = true.
Proof.
  intros Hb Hk. destruct recs as [|fns data]; [destruct Hk|].
  cbn [incomes_of_records] in Hk.
  apply fold_set_keys_In in Hk as [[]|Hk].
  rewrite map_map in Hk. apply in_map_iff in Hk as (rec & <- & Hrec).
  apply filter_In in Hrec as [Hrec _].
  unfold income_of_record. cbn [fst]. split.
  - unfold cell_or. apply strip_no_outer_space.
  - inversion Hb as [|? ? _ Hdata]; subst. rewrite Forall_forall in Hdata.
    apply (cell_or_within [] _ rec); [reflexivity|apply Hdata; exact Hrec|].
    destruct (Csv.dict_get _ _ _) eqn:E; [|exact I].
    apply ReaderBound.dict_get_In in E. exact E.
Qed.

Lemma read_incomes_keys st st1 d :
  read_incomes st = (st1, Ok d) ->
  NoDup (List.map fst d)
  /\ (forall k, In k (List.map fst d) ->
        no_outer_space k = true /\ within_limit k = true).
Proof.
  unfold read_incomes. intros [= _ H].
  destruct (Csv.reader_all _) as [recs|] eqn:E; cbn [bind] in H; [|discriminate].
  injection H as <-. split.
  - destruct recs as [|fns data]; [constructor|].
    cbn [incomes_of_records]. apply fold_set_NoDup. constructor.
  - intros k. apply incomes_of_records_keys.
    eapply ReaderBound.bounded_reader_all; exact E.
Qed.

Lemma ensure_income_idem st :
  ensure_csv_exists INCOME_HEADERS (ensure_csv_exists INCOME_HEADERS st)
  = ensure_csv_exists INCOME_HEADERS st.
Proof. destruct st; reflexivity. Qed.

(** ** Keys of the date picker *)

Lemma format_0d_alphabet w n :
  forallb (fun c => is_ascii_digit c || N.eqb c (ch "-"))%bool (format_0d w n) = true.
Proof.
  assert (Hd : forall l, forallb is_ascii_digit l = true ->
            forallb (fun c => is_ascii_digit c || N.eqb c (ch "-"))%bool l = true).
  { intros l Hl. rewrite forallb_forall in *. intros c Hc.
    rewrite (Hl c Hc). reflexivity. }
  unfold format_0d. destruct (n <? 0); cbn [forallb]; rewrite ?forallb_app;
    rewrite (Hd _ (Digits.repeat_digits _)), (Hd _ (Digits.N_chars_digits _));
    reflexivity.
Qed.

Lemma range_forall (P : Z -> bool) (n : Z) :
  forallb P (List.map Z.of_nat (seq 0 (Z.to_nat n))) = true ->
  forall z, 0 <= z < n -> P z = true.
Proof.
  intros H z Hz. rewrite forallb_forall in H. apply H.
  apply in_map_iff. exists (Z.to_nat z). split; [lia|].
  apply in_seq. lia.
Qed.

Lemma year_length y : 0 <= y <= 9999 -> List.length (format_0d 4 y) = 4%nat.
Proof.
  intros Hy. apply Nat.eqb_eq.
  apply (range_forall four_digits 10000); [vm_compute; reflexivity|lia].
Qed.

Lemma month_length m : 0 <= m <= 99 -> List.length (format_0d 2 m) = 2%nat.
Proof.
  intros Hm. apply Nat.eqb_eq.
  apply (range_forall two_digits_of 100); [vm_compute; reflexivity|lia].
Qed.

Lemma no_space_no_outer s :
  forallb (fun c => negb (isspace c)) s = true -> no_outer_space s = true.
Proof.
  intros H. rewrite <- (Fixed.strip_no_space s H). apply strip_no_outer_space.
Qed.

Lemma month_key_no_space y m :
  forallb (fun c => negb (isspace c)) (month_key y m) = true.
Proof.
  unfold month_key. rewrite forallb_app. cbn [forallb].
  assert (Hf : forall w n, forallb (fun c => negb (isspace c)) (format_0d w n) = true).
  { intros w n. pose proof (format_0d_alphabet w n) as Ha.
    rewrite forallb_forall in *. intros c Hc. specialize (Ha c Hc).
    rewrite (Fixed.not_space_claimed c); [reflexivity|].
    unfold claimed_amount_char.
    apply orb_true_iff in Ha as [Ha|Ha]; rewrite Ha; [reflexivity|apply orb_true_r]. }
  rewrite !Hf. reflexivity.
Qed.

Lemma month_key_within y m :
  0 <= y <= 9999 -> 0 <= m <= 99 -> within_limit (month_key y m) = true.
Proof.
  intros Hy Hm. unfold within_limit, month_key.
  rewrite length_app. cbn [List.length].
  rewrite (year_length y Hy), (month_length m Hm). reflexivity.
Qed.

(** X12. Setting the income of a month.  For a date of the picker in
    the years 0 to 9999, an income text that [float] reads and an income
    file that the reader accepts, [on_set_income] saves: the next
    [read_incomes] returns the incomes read before with the month of the
    picker set to the amount, every amount rounded to two decimals; the
    other months keep their place, a new month comes last.  The amounts
    must fit the reader's limit when written, which holds for every
    binary64 number. *)
Theorem income_saved_and_read (year month : Z) (txt : pystr) (a : spec_float)
  (st st1 : store) (d : incomes) :
  0 <= year <= 9999 -> 0 <= month <= 11 ->
  py_float (strip txt) = Ok a ->
  read_incomes st = (st1, Ok d) ->
  forallb (fun kv => within_limit (format_2f (snd kv)))
    (dict_set (month_key year (month + 1)) a d) = true ->
  exists st',
    on_set_income year month txt st = (st', IncomeSaved)
    /\ snd (read_incomes st')
       = Ok (cents_of (dict_set (month_key year (month + 1)) a d))
    /\ dict_lookup (month_key year (month + 1))
         (cents_of (dict_set (month_key year (month + 1)) a d))
       = Some (in_cents a)
    /\ (forall k, k <> month_key year (month + 1) ->
          dict_lookup k (cents_of (dict_set (month_key year (month + 1)) a d))
          = option_map in_cents (dict_lookup k d))
    /\ List.map fst (dict_set (month_key year (month + 1)) a d)
       = if existsb (str_eqb (month_key year (month + 1))) (List.map fst d)
         then List.map fst d
         else List.map fst d ++ [month_key year (month + 1)].
Proof.
  intros Hy Hm Ha Hread Hfmt.
  set (key := month_key year (month + 1)) in *.
  assert (Hne : nonempty (strip txt) = true).
  { destruct (strip txt); [|reflexivity].
    rewrite py_float_nil in Ha. discriminate Ha. }
  destruct (read_incomes_keys _ _ _ Hread) as [Hnd Hkeys].
  assert (Hkey : no_outer_space key = true /\ within_limit key = true).
  { split; [apply no_space_no_outer, month_key_no_space|].
    apply month_key_within; lia. }
  assert (Hw : forallb writable_income (dict_set key a d) = true).
  { rewrite forallb_forall in *. intros kv Hkv.
    assert (Hk : no_outer_space (fst kv) = true /\ within_limit (fst kv) = true).
    { assert (Hin : In (fst kv) (List.map fst (dict_set key a d)))
        by (apply in_map; exact Hkv).
      rewrite dict_set_keys in Hin.
      destruct (existsb _ _); [apply Hkeys; exact Hin|].
      apply in_app_or in Hin as [Hin|[<-|[]]]; [apply Hkeys; exact Hin|exact Hkey]. }
    unfold writable_income, income_record. cbn [forallb].
    destruct Hk as [-> ->]. rewrite (Hfmt kv Hkv). reflexivity. }
  exists (write_incomes (dict_set key a d) st1).
  split; [|split; [|split; [|split]]].
  - unfold on_set_income. fold key. rewrite Hne, Ha. cbn [negb].
    unfold set_income_for_month. rewrite Hread. reflexivity.
  - rewrite read_incomes_written; [reflexivity|exact Hw|].
    apply dict_set_NoDup. exact Hnd.
  - unfold cents_of. rewrite (dict_lookup_map in_cents), dict_lookup_set.
    rewrite str_eqb_refl. reflexivity.
  - intros k Hk. unfold cents_of.
    rewrite (dict_lookup_map in_cents), dict_lookup_set.
    destruct (str_eqb k key) eqn:E; [|reflexivity].
    apply str_eqb_eq in E. congruence.
  - apply dict_set_keys.
Qed.

Lemma income_saved_and_read_witness :
  exists st',
    on_set_income 2024 2 (str " 2500.129 ")
      (write_incomes [(str "2024-03", B64.of_dec false 1000 0);
                      (str "2024-04", B64.of_dec false 7 0)] None)
    = (st', IncomeSaved)
    /\ snd (read_incomes st')
       = Ok [(str "2024-03", B64.of_dec false 250013 (-2));
             (str "2024-04", B64.of_dec false 7 0)].
Proof.
  pose proof (income_saved_and_read 2024 2 (str " 2500.129 ")
                (B64.of_dec false 2500129 (-3))
                (write_incomes [(str "2024-03", B64.of_dec false 1000 0);
                                (str "2024-04", B64.of_dec false 7 0)] None)
                (write_incomes [(str "2024-03", B64.of_dec false 1000 0);
                                (str "2024-04", B64.of_dec false 7 0)] None)
                [(str "2024-03", B64.of_dec false 1000 0);
                 (str "2024-04", B64.of_dec false 7 0)]
                ltac:(lia) ltac:(lia)) as Hc.
  specialize (Hc ltac:(vm_compute; reflexivity)).
  specialize (Hc ltac:(vm_compute; reflexivity)).
  specialize (Hc ltac:(vm_compute; reflexivity)).
  destruct Hc as (st' & Hset & Hread & _).
  exists st'. split; [exact Hset|]. rewrite Hread. vm_compute. reflexivity.
Defined.

(** ** Duplicate months *)

Lemma fold_set_lookup m (l : incomes) : forall acc,
  dict_lookup m (fold_left set_income l acc)
  = match find (fun kv => str_eqb m (fst kv)) (rev l) with
    | Some kv => Some (snd kv)
    | None => dict_lookup m acc
    end.
Proof.
  induction l as [|kv l IH] using rev_ind; intros acc; [reflexivity|].
  rewrite fold_left_app, rev_app_distr. cbn [fold_left rev app find].
  unfold set_income at 1. rewrite dict_lookup_set.
  destruct (str_eqb m (fst kv)); [reflexivity|apply IH].
Qed.

(** X13. What [read_incomes] makes of a file.  Whenever the csv reader
    accepts the income file, [read_incomes] returns a dict and never
    raises: each month key appears once; the income of a month is that
    of the last record of the month in the file, the month being the
    trimmed Month cell and the income what [float] reads from the trimmed
    Income cell - 0.0 when the cell is missing or empty or [float]
    rejects it; a missing file is created and gives the empty dict. *)
Theorem read_incomes_last_wins (st : store) (fieldnames : list pystr)
  (data : list (list pystr)) :
  Csv.reader_all (file_text (ensure_csv_exists INCOME_HEADERS st))
  = Ok (fieldnames :: data) ->
  exists d,
    snd (read_incomes st) = Ok d
    /\ NoDup (List.map fst d)
    /\ (forall m,
          dict_lookup m d
          = option_map snd
              (find (fun kv => str_eqb m (fst kv))
                 (rev (List.map (income_of_record fieldnames)
                         (filter nonempty data)))))
    /\ (forall rec,
          Csv.dict_get (str "Income") fieldnames rec = None
          \/ Csv.dict_get (str "Income") fieldnames rec = Some []
          \/ (exists v e, Csv.dict_get (str "Income") fieldnames rec = Some v
                          /\ py_float (F:=spec_float) (strip v) = Raise e) ->
          snd (income_of_record fieldnames rec) = flit 0)
    /\ read_incomes None = (Some (Csv.writerow INCOME_HEADERS), Ok []).
Proof.
  intros Hread. eexists. split; [|split; [|split; [|split]]].
  - unfold read_incomes. cbn [snd]. rewrite Hread. reflexivity.
  - cbn [incomes_of_records]. apply fold_set_NoDup. constructor.
  - intros m. cbn [incomes_of_records]. rewrite fold_set_lookup.
    destruct (find _ _); reflexivity.
  - intros rec Hrec. unfold income_of_record. cbn [snd].
    destruct Hrec as [->|[->|(v & e & -> & Hv)]].
    + reflexivity.
    + reflexivity.
    + unfold cell_or. destruct v as [|c v]; [reflexivity|].
      cbn [nonempty]. rewrite Hv. reflexivity.
  - vm_compute. reflexivity.
Qed.

Lemma read_incomes_last_wins_witness :
  exists d,
    snd (read_incomes
           (Some (str "Month,Income" ++ [Csv.LF]
                  ++ str "2024-03, 100 " ++ [Csv.LF]
                  ++ str "2024-04,abc" ++ [Csv.LF]
                  ++ str " 2024-03 ,250.5" ++ [Csv.LF])%list)) = Ok d
    /\ dict_lookup (str "2024-03") d = Some (B64.of_dec false 2505 (-1))
    /\ dict_lookup (str "2024-04") d = Some (flit 0).
Proof.
  destruct (read_incomes_last_wins
              (Some (str "Month,Income" ++ [Csv.LF]
                     ++ str "2024-03, 100 " ++ [Csv.LF]
                     ++ str "2024-04,abc" ++ [Csv.LF]
                     ++ str " 2024-03 ,250.5" ++ [Csv.LF])%list)
              [str "Month"; str "Income"]
              [[str "2024-03"; str " 100 "]; [str "2024-04"; str "abc"];
               [str " 2024-03 "; str "250.5"]]
              ltac:(vm_compute; reflexivity)) as (d & Hd & _ & Hlook & _).
  exists d. split; [exact Hd|]. rewrite !Hlook. split; vm_compute; reflexivity.
Defined.

(* ===================================================================== *)
(** * The date of the picker and its month *)
(* ===================================================================== *)

Lemma match_ymd_year a b c d t :
  forallb isdecimal [a; b; c; d] = true ->
  match_ymd (a :: b :: c :: d :: t)
  = match md_tail t with
    | Some md => Some (group_int [a; b; c; d], fst md, snd md)
    | None => None
    end.
Proof.
  intros Hy. unfold match_ymd, md_tail, re_Y. rewrite Hy. cbn [obind fst snd].
  destruct (re_lit (ch "-") t) as [r1|]; cbn [obind]; [|reflexivity].
  destruct (re_m r1) as [m|]; cbn [obind]; [|reflexivity].
  destruct (re_lit (ch "-") (snd m)) as [r2|]; cbn [obind]; [|reflexivity].
  destruct (re_d r2) as [dd|]; cbn [obind]; [|reflexivity].
  destruct (nonempty (snd dd)); reflexivity.
Qed.

Lemma years_ok y : 0 <= y <= 9999 -> year_ok y = true.
Proof.
  intros Hy. apply (range_forall year_ok 10000); [vm_compute; reflexivity|lia].
Qed.

Lemma tails_ok m d : 0 <= m <= 11 -> 1 <= d <= 31 -> tail_ok m d = true.
Proof.
  intros Hm Hd.
  assert (H : days_ok m = true)
    by (apply (range_forall days_ok 12); [vm_compute; reflexivity|lia]).
  unfold days_ok in H.
  pose proof (range_forall _ 32 H d ltac:(lia)) as Hmd. cbn beta in Hmd.
  destruct (Z.ltb_spec d 1); [lia|exact Hmd].
Qed.

Lemma strptime_picker y m d :
  0 <= y <= 9999 -> 0 <= m <= 11 -> 1 <= d <= 31 ->
  strptime_ymd (picker_date y m d)
  = if valid_date y (m + 1) d then Ok (y, m + 1) else Raise ValueError.
Proof.
  intros Hy Hm Hd. pose proof (years_ok y Hy) as Hyok.
  pose proof (tails_ok m d Hm Hd) as Htok.
  unfold strptime_ymd, picker_date. unfold year_ok in Hyok.
  destruct (format_0d 4 y) as [|a [|b [|c [|dd [|? ?]]]]]; try discriminate Hyok.
  apply andb_prop in Hyok as [Hdec Hval]. apply Z.eqb_eq in Hval.
  cbn [app]. rewrite (match_ymd_year _ _ _ _ _ Hdec).
  unfold tail_ok in Htok.
  destruct (md_tail _) as [[m' d']|]; [|discriminate Htok].
  apply andb_prop in Htok as [Em Ed]. apply Z.eqb_eq in Em, Ed.
  cbn [fst snd]. rewrite Hval, Em, Ed. reflexivity.
Qed.

Lemma valid_date_range y m d :
  valid_date y m d = true -> 1 <= y <= 9999 /\ 1 <= m <= 12 /\ 1 <= d <= 31.
Proof.
  unfold valid_date, days_in_month. intros H.
  repeat (apply andb_prop in H as [H ?]).
  repeat match goal with
         | X : (_ <=? _) = true |- _ => apply Z.leb_le in X
         end.
  destruct (m =? 2); [destruct (is_leap y); lia|].
  destruct (_ || _)%bool; lia.
Qed.

Lemma picker_date_no_space y m d :
  forallb (fun c => negb (isspace c)) (picker_date y m d) = true.
Proof.
  unfold picker_date.
  assert (Hf : forall w n, forallb (fun c => negb (isspace c)) (format_0d w n) = true).
  { intros w n. pose proof (format_0d_alphabet w n) as Ha.
    rewrite forallb_forall in *. intros c Hc. specialize (Ha c Hc).
    rewrite (Fixed.not_space_claimed c); [reflexivity|].
    unfold claimed_amount_char.
    apply orb_true_iff in Ha as [Ha|Ha]; rewrite Ha; [reflexivity|apply orb_true_r]. }
  rewrite forallb_app. cbn [forallb]. rewrite forallb_app. cbn [forallb].
  rewrite !Hf. reflexivity.
Qed.

(** X14. Expenses and incomes meet under the same month.  For every
    date of the calendar chosen in the picker, the date text that
    [on_add_expense] stores is read by [date_to_month_key] - at its
    first stage, whatever the ISO parser does - as the very month key
    under which [on_set_income] files the income of that date; so a row
    that carries this date, trimmed as [read_expenses] returns it, falls
    into that month. *)
Theorem picker_month_agrees (fromisoformat : pystr -> result (Z * Z))
  (now : pystr) (year month day : Z) :
  valid_date year (month + 1) day = true ->
  date_to_month_key fromisoformat (picker_date year month day)
  = Ok (Some (month_key year (month + 1)))
  /\ (forall r, Date r = strip (picker_date year month day) ->
        month_of fromisoformat now r = month_key year (month + 1))
  /\ (forall txt st a,
        py_float (F:=spec_float) (strip txt) = Ok a ->
        fst (on_set_income year month txt st)
        = fst (set_income_for_month (month_key year (month + 1)) a st)).
Proof.
  intros Hv. destruct (valid_date_range _ _ _ Hv) as (Hy & Hm & Hd).
  assert (Hkey : date_to_month_key fromisoformat (picker_date year month day)
                 = Ok (Some (month_key year (month + 1)))).
  { unfold date_to_month_key.
    rewrite strptime_picker by lia. rewrite Hv. reflexivity. }
  split; [exact Hkey|]. split.
  - intros r Hr. unfold month_of.
    rewrite Hr, (Fixed.strip_no_space _ (picker_date_no_space year month day)), Hkey.
    unfold key_or, str_or, month_key.
    destruct (format_0d 4 year); reflexivity.
  - intros txt st a Ha. unfold on_set_income.
    destruct (strip txt) eqn:E; [rewrite py_float_nil in Ha; discriminate Ha|].
    cbn [nonempty negb]. rewrite Ha.
    destruct (set_income_for_month _ a st) as [st' [u|e]]; reflexivity.
Qed.

Lemma picker_month_agrees_witness :
  date_to_month_key fromisoformat_ref (picker_date 2024 1 29)
  = Ok (Some (str "2024-02")).
Proof.
  apply (proj1 (picker_month_agrees fromisoformat_ref [] 2024 1 29
                  ltac:(vm_compute; reflexivity))).
Defined.

(* ===================================================================== *)
(** * The order of strings *)
(* ===================================================================== *)

Module StrOrder.

Lemma irrefl a : str_ltb a a = false.
Proof.
  induction a as [|x a IH]; [reflexivity|]. cbn [str_ltb].
  rewrite N.ltb_irrefl, N.eqb_refl. exact IH.
Qed.

Lemma trans a : forall b c,
  str_ltb a b = true -> str_ltb b c = true -> str_ltb a c = true.
Proof.
  induction a as [|x a IH]; intros [|y b] [|z c]; cbn [str_ltb];
    try discriminate; try reflexivity.
  destruct (N.ltb_spec x y) as [Hxy|Hxy].
  - intros _. destruct (N.ltb_spec y z) as [Hyz|Hyz].
    + intros _. destruct (N.ltb_spec x z); [reflexivity|lia].
    + destruct (N.eqb_spec y z) as [->|]; [|discriminate].
      intros _. destruct (N.ltb_spec x z); [reflexivity|lia].
  - destruct (N.eqb_spec x y) as [->|]; [|discriminate]. intros Hab.
    destruct (N.ltb_spec y z); [reflexivity|].
    destruct (N.eqb_spec y z); [|discriminate]. apply IH; exact Hab.
Qed.

(** Two strings neither of which is less than the other are equal. *)
Lemma total a : forall b,
  str_ltb a b = false -> str_ltb b a = false -> a = b.
Proof.
  induction a as [|x a IH]; intros [|y b]; cbn [str_ltb];
    try discriminate; try reflexivity.
  destruct (N.ltb_spec x y) as [Hxy|Hxy]; [discriminate|].
  destruct (N.ltb_spec y x) as [Hyx|Hyx]; [discriminate|].
  assert (x = y) by lia. subst y. rewrite N.eqb_refl.
  intros Hab Hba. f_equal. apply IH; assumption.
Qed.

Lemma asym a b : str_ltb a b = true -> str_ltb b a = false.
Proof.
  intros Hab. destruct (str_ltb b a) eqn:Hba; [|reflexivity].
  pose proof (trans _ _ _ Hab Hba) as H. rewrite irrefl in H. discriminate H.
Qed.

Lemma le_trans a b c : str_le a b -> str_le b c -> str_le a c.
Proof.
  unfold str_le. intros Hab Hbc.
  destruct (str_ltb c a) eqn:Hca; [|reflexivity].
  destruct (str_ltb b c) eqn:Hbc'.
  - rewrite (trans _ _ _ Hbc' Hca) in Hab. discriminate Hab.
  - rewrite (total _ _ Hbc' Hbc) in Hab. congruence.
Qed.

(** ** Sorting *)

Lemma str_insert_perm x l : Permutation (insert_asc x l) (x :: l).
Proof.
  induction l as [|y t IH]; cbn [insert_asc]; [reflexivity|].
  destruct (str_ltb x y); [reflexivity|].
  rewrite IH. apply perm_swap.
Qed.

Lemma str_fold_insert_perm l : forall acc,
  Permutation (fold_left (fun acc x => insert_asc x acc) l acc) (acc ++ l).
Proof.
  induction l as [|x l IH]; intros acc; cbn [fold_left].
  - rewrite app_nil_r. reflexivity.
  - rewrite IH, str_insert_perm. apply Permutation_middle.
Qed.

Lemma str_sorted_perm l : Permutation (sorted_strs l) l.
Proof. apply (str_fold_insert_perm l []). Qed.

Lemma str_insert_sorted x l :
  StronglySorted str_le l -> StronglySorted str_le (insert_asc x l).
Proof.
  induction 1 as [|y t Hs IH Hy]; cbn [insert_asc].
  - constructor; constructor.
  - destruct (str_ltb x y) eqn:E.
    + constructor; [constructor; assumption|].
      constructor; [apply asym; exact E|].
      rewrite Forall_forall in *. intros z Hz.
      apply (le_trans x y z); [apply asym; exact E|apply Hy; exact Hz].
    + constructor; [exact IH|].
      rewrite Forall_forall in *. intros z Hz.
      apply (Permutation_in z (str_insert_perm x t)) in Hz.
      destruct Hz as [<-|Hz]; [exact E|apply Hy; exact Hz].
Qed.

Lemma str_fold_insert_sorted l : forall acc,
  StronglySorted str_le acc ->
  StronglySorted str_le (fold_left (fun acc x => insert_asc x acc) l acc).
Proof.
  induction l as [|x l IH]; intros acc Hacc; cbn [fold_left]; [exact Hacc|].
  apply IH, str_insert_sorted, Hacc.
Qed.

Lemma str_sorted_sorted l : StronglySorted str_le (sorted_strs l).
Proof. apply str_fold_insert_sorted. constructor. Qed.

(** A list has one sorted arrangement. *)
Lemma str_sorted_unique l1 : forall l2,
  Permutation l1 l2 -> StronglySorted str_le l1 -> StronglySorted str_le l2 ->
  l1 = l2.
Proof.
  induction l1 as [|a l1 IH]; intros l2 Hp H1 H2.
  - apply Permutation_nil in Hp. subst. reflexivity.
  - destruct l2 as [|b l2]; [apply Permutation_sym, Permutation_nil in Hp; discriminate|].
    inversion H1 as [|? ? Hs1 Ha]; subst. inversion H2 as [|? ? Hs2 Hb]; subst.
    assert (Hab : a = b).
    { rewrite Forall_forall in Ha, Hb.
      assert (Hin_b : In b (a :: l1))
        by (apply (Permutation_in b (Permutation_sym Hp)); left; reflexivity).
      assert (Hin_a : In a (b :: l2))
        by (apply (Permutation_in a Hp); left; reflexivity).
      destruct Hin_b as [E|Hin_b]; [exact E|].
      destruct Hin_a as [E|Hin_a]; [symmetry; exact E|].
      apply total; [apply (Hb a Hin_a)|apply (Ha b Hin_b)]. }
    subst b. f_equal. apply IH; [|assumption|assumption].
    apply Permutation_cons_inv in Hp. exact Hp.
Qed.

(** What is sorted does not depend on the order it came in. *)
Lemma str_sorted_order l1 l2 : Permutation l1 l2 -> sorted_strs l1 = sorted_strs l2.
Proof.
  intros Hp. apply str_sorted_unique; try apply str_sorted_sorted.
  rewrite !str_sorted_perm. exact Hp.
Qed.

(** ** Sets *)

Lemma py_set_In x l : In x (py_set l) <-> In x l.
Proof.
  induction l as [|y l IH]; [reflexivity|]. cbn [py_set].
  destruct (existsb (str_eqb y) l) eqn:E.
  - rewrite IH. split; [right; assumption|].
    intros [<-|Hx]; [|exact Hx]. apply existsb_str_In. exact E.
  - cbn [In]. rewrite IH. reflexivity.
Qed.

Lemma py_set_NoDup l : NoDup (py_set l).
Proof.
  induction l as [|y l IH]; [constructor|]. cbn [py_set].
  destruct (existsb (str_eqb y) l) eqn:E; [exact IH|].
  constructor; [|exact IH]. rewrite py_set_In. intros Hy.
  apply existsb_str_In in Hy. congruence.
Qed.

(** Sorted and without repetition: strictly ascending. *)
Lemma str_sorted_strict l :
  NoDup l -> StronglySorted str_le l -> StronglySorted str_lt l.
Proof.
  intros Hnd Hs. induction Hs as [|a l Hs IH Ha]; [constructor|].
  inversion Hnd as [|? ? Hnin Hnd']; subst.
  constructor; [apply IH; exact Hnd'|].
  rewrite Forall_forall in *. intros b Hb. unfold str_lt.
  destruct (str_ltb a b) eqn:E; [reflexivity|].
  exfalso. apply Hnin. rewrite (total a b E (Ha b Hb)). exact Hb.
Qed.

End StrOrder.

(** X15. The months of the income chart.  The months [update_charts]
    puts on the axis are never empty and strictly ascending; they are
    the months that have an expense or an income, or the current month
    alone when there is neither; they do not depend on the order in
    which the set of keys yields them; and the two series have one value
    for each month, the income and the expenditure of that month, 0.0
    where the month has none. *)
Theorem chart_months_axis {F : Type} `{Arith F} (now : pystr)
  (month_totals : totals F) (incomes : list (pystr * F)) :
  chart_months now month_totals incomes <> []
  /\ StronglySorted str_lt (chart_months now month_totals incomes)
  /\ (forall m,
        In m (List.map fst month_totals) \/ In m (List.map fst incomes) ->
        In m (chart_months now month_totals incomes))
  /\ (forall m,
        In m (chart_months now month_totals incomes) ->
        In m (List.map fst month_totals) \/ In m (List.map fst incomes)
        \/ (month_totals = [] /\ incomes = [] /\ m = now))
  /\ (forall order,
        Permutation order
          (py_set (List.map fst month_totals ++ List.map fst incomes)) ->
        sorted_strs order
        = sorted_strs (py_set (List.map fst month_totals ++ List.map fst incomes)))
  /\ (forall i m,
        nth_error (chart_months now month_totals incomes) i = Some m ->
        nth_error (snd (fst (income_chart now month_totals incomes))) i
        = Some (get_or m incomes (flit 0))
        /\ nth_error (snd (income_chart now month_totals incomes)) i
           = Some (get_or m month_totals (flit 0))).
Proof.
  set (keys := (List.map fst month_totals ++ List.map fst incomes)%list).
  assert (Hin : forall m, In m (sorted_strs (py_set keys)) <-> In m keys).
  { intros m. split; intros Hm.
    - apply StrOrder.py_set_In.
      apply (Permutation_in m (StrOrder.str_sorted_perm _)). exact Hm.
    - apply (Permutation_in m (Permutation_sym (StrOrder.str_sorted_perm _))).
      apply StrOrder.py_set_In. exact Hm. }
  assert (Hstrict : StronglySorted str_lt (sorted_strs (py_set keys))).
  { apply StrOrder.str_sorted_strict; [|apply StrOrder.str_sorted_sorted].
    apply (Permutation_NoDup (Permutation_sym (StrOrder.str_sorted_perm _))).
    apply StrOrder.py_set_NoDup. }
  unfold income_chart, chart_months. fold keys. cbn [fst snd].
  split; [|split; [|split; [|split; [|split]]]].
  - destruct (sorted_strs (py_set keys)); cbn [nonempty]; discriminate.
  - destruct (sorted_strs (py_set keys)) eqn:E; cbn [nonempty].
    + constructor; constructor.
    + exact Hstrict.
  - intros m Hm. assert (Hk : In m keys) by (apply in_or_app; exact Hm).
    apply Hin in Hk. destruct (sorted_strs (py_set keys)); [destruct Hk|exact Hk].
  - intros m Hm. destruct (sorted_strs (py_set keys)) as [|k ks] eqn:E;
      cbn [nonempty] in Hm.
    + destruct Hm as [<-|[]]. right. right.
      assert (Hk : keys = []).
      { destruct keys as [|k0 ks0] eqn:Ek; [reflexivity|].
        destruct (proj2 (Hin k0) (or_introl eq_refl)). }
      unfold keys in Hk. apply app_eq_nil in Hk as [H1 H2].
      apply map_eq_nil in H1, H2. auto.
    + apply Hin in Hm. apply in_app_or in Hm. tauto.
  - intros order. apply StrOrder.str_sorted_order.
  - intros i m Hi. split; rewrite nth_error_map, Hi; reflexivity.
Qed.

Lemma chart_months_axis_witness :
  In (str "2024-02")
    (chart_months (F:=spec_float) (str "2026-11")
       [(str "2024-03", flit 5)] [(str "2024-02", flit 7); (str "2024-03", flit 1)]).
Proof.
  apply (proj1 (proj2 (proj2 (chart_months_axis (F:=spec_float) (str "2026-11")
                  [(str "2024-03", flit 5)]
                  [(str "2024-02", flit 7); (str "2024-03", flit 1)])))).
  right. left. reflexivity.
Defined.

(* ===================================================================== *)
(** * Suggestions: what counts as this month's expenditure *)
(* ===================================================================== *)

Lemma month_key_nonempty y m : nonempty (month_key y m) = true.
Proof. unfold month_key. destruct (format_0d 4 y); reflexivity. Qed.

Lemma split_stage_nonempty s k : split_stage s = Some k -> nonempty k = true.
Proof.
  unfold split_stage. destruct (forallb _ _); [|discriminate].
  destruct (List.map _ _) as [|y [|m l]]; try discriminate.
  intros [= <-]. apply month_key_nonempty.
Qed.

Lemma date_key_nonempty fromisoformat s k :
  date_to_month_key fromisoformat s = Ok (Some k) -> nonempty k = true.
Proof.
  rewrite date_to_month_key_stages. intros [= Hk]. revert Hk.
  unfold month_key_stages, or_else, key_of_result.
  destruct (strptime_ymd s) as [d|]; [intros [= <-]; apply month_key_nonempty|].
  destruct (fromisoformat s) as [d|]; [intros [= <-]; apply month_key_nonempty|].
  apply split_stage_nonempty.
Qed.

Section SuggestionFacts.
Context {F : Type} `{Arith F}.
Variable fromisoformat : pystr -> result (Z * Z).
Variable current_month : pystr.

Lemma date_key_total r :
  exists k, date_to_month_key fromisoformat (Date r) = Ok k.
Proof. rewrite date_to_month_key_stages. eexists. reflexivity. Qed.

(** A row counts for the current month when its date gives that month
    or no month at all. *)
Lemma in_month_keyed r :
  in_month fromisoformat current_month current_month r
  = (keyed fromisoformat current_month r || undated fromisoformat r)%bool.
Proof.
  unfold in_month, month_of, keyed, undated.
  destruct (date_key_total r) as [k Hk]. rewrite Hk.
  destruct k as [s|]; cbn [key_or key_is].
  - pose proof (date_key_nonempty _ _ _ Hk) as Hs.
    unfold str_or. rewrite Hs, orb_false_r. reflexivity.
  - apply str_eqb_refl.
Qed.

Lemma keyed_not_undated r :
  keyed fromisoformat current_month r = true -> undated fromisoformat r = false.
Proof.
  unfold keyed, undated.
  destruct (date_to_month_key fromisoformat (Date r)) as [[s|]|];
    try discriminate; reflexivity.
Qed.

Lemma month_sums_fold expenses : forall acc,
  month_sums fromisoformat current_month expenses acc
  = Ok (fold_left (add_month fromisoformat current_month) expenses acc).
Proof.
  induction expenses as [|r rest IH]; intros acc; [reflexivity|].
  cbn [month_sums fold_left].
  destruct (month_key_of fromisoformat current_month r) as (k & -> & Hk).
  cbn [bind]. rewrite safe_float_amount. cbn [bind].
  rewrite IH, Hk. reflexivity.
Qed.

Lemma month_categories_fold expenses : forall acc,
  month_categories fromisoformat current_month expenses acc
  = Ok (fold_left add_category
          (filter (keyed fromisoformat current_month) expenses) acc).
Proof.
  induction expenses as [|r rest IH]; intros acc; [reflexivity|].
  cbn [month_categories filter]. unfold keyed at 1.
  destruct (date_key_total r) as [k ->]. cbn [bind].
  destruct (key_is k current_month).
  - rewrite safe_float_amount. cbn [bind fold_left]. apply IH.
  - apply IH.
Qed.

End SuggestionFacts.

(** X16. This month's expenditure and this month's categories.
    [get_suggestion_text] never raises.  The categories it lists are
    those of the rows whose date gives the current month, each with the
    sum of the amounts of its rows: the first six of what [sorted]
    returns, which when no such sum is NaN is these categories in
    descending order of their sums, ties in the order of first
    occurrence.  The expenditure it reports also counts every row whose
    date gives no month key at all: it is the sum of the amounts of the
    rows of either kind, added in the order of the rows.  The income is
    the one stored for the month, 0 when there is none, which the text
    warns about; the balance is the income minus that expenditure; and
    the advice is drawn from these figures: overspending when there is
    an income and the expenditure is above it, else saving when the
    balance is 1000 or more. *)
Theorem suggestion_counts_undated (fromisoformat : pystr -> result (Z * Z))
  (sorted_unordered : totals spec_float -> totals spec_float)
  (current_month : pystr) (incomes : list (pystr * spec_float))
  (expenses : list row) :
  exists (s : suggestion spec_float) (mcat : totals spec_float),
    get_suggestion_text fromisoformat sorted_unordered current_month incomes expenses
    = Ok s
    /\ mcat
       = List.map
           (fun k =>
              (k, total (List.map amount_of
                           (filter (in_category k)
                              (filter (keyed fromisoformat current_month) expenses)))))
           (first_seen
              (List.map category_of
                 (filter (keyed fromisoformat current_month) expenses)) [])
    /\ sg_top s = firstn 6 (sorted_by_value sorted_unordered mcat)
    /\ (numbers mcat = true ->
        exists sorted,
          sg_top s = firstn 6 sorted
          /\ Permutation sorted mcat
          /\ StronglySorted at_least sorted
          /\ forall a b, before a b mcat -> at_least a b -> before a b sorted)
    /\ sg_expenditure s
       = total (List.map amount_of
                  (filter (counted fromisoformat current_month) expenses))
    /\ sg_income s = get_or current_month incomes (flit 0)
    /\ sg_no_income s = feqb (sg_income s) (flit 0)
    /\ sg_balance s = fsub (sg_income s) (sg_expenditure s)
    /\ sg_advice s = advice_for (sg_income s) (sg_expenditure s).
Proof.
  unfold get_suggestion_text.
  rewrite month_sums_fold, month_categories_fold. cbn [bind].
  eexists. eexists. split; [reflexivity|].
  cbn [sg_top sg_expenditure sg_balance sg_income sg_no_income sg_advice].
  split; [apply (table_closed category_of)|].
  split; [reflexivity|]. split; [|split; [|split; [|split; [|split]]]].
  - intros Hn. eexists. split; [reflexivity|].
    apply sorted_by_value_numbers. exact Hn.
  - unfold add_month.
    rewrite (get_fold (month_of fromisoformat current_month)
               current_month expenses []).
    unfold total, counted. f_equal. f_equal. apply filter_ext. intros r.
    apply (in_month_keyed fromisoformat current_month r).
  - reflexivity.
  - reflexivity.
  - reflexivity.
  - unfold advice_for.
    destruct (fltb (flit 0) (get_or current_month incomes (flit 0)));
      cbn [andb]; [|reflexivity].
    destruct (fltb _ _); reflexivity.
Qed.

(** In binary64: a dated and an undated row, an income of 120. *)
Example suggestion_of_two_rows :
  get_suggestion_text (F:=spec_float) fromisoformat_ref (fun l => l) (str "2024-03")
    [(str "2024-03", flit 120)]
    [ {| Date := str "2024-03-05"; Category := str "Food"; Amount := str "100";
         Note := [] |};
      {| Date := []; Category := str "Misc"; Amount := str "50"; Note := [] |} ]
  = Ok {| sg_income := flit 120;
          sg_expenditure := flit 150;
          sg_balance := B64.of_dec true 30 0;
          sg_no_income := false;
          sg_top := [(str "Food", flit 100)];
          sg_advice := Overspent (flit 30) |}.
Proof. vm_compute. reflexivity. Qed.
